(** * Email-to-DingTalk bridge: a shallow embedding and its properties

    The development follows the layout of the Python sources:
    [models] (models.py), [email_parser] (email_parser.py),
    [email_fetcher] (email_fetcher.py), [dingtalk_notifier]
    (dingtalk_notifier.py) and [main] (main.py).

    Python values are modelled as follows.
    - [str] is a list of Unicode code points ([N]); [len] is [length] and
      slicing [s[:n]] is [firstn n s].
    - [bytes] is a list of [Byte.byte].
    - A call that may raise returns a [result]: [Returned v] or [Raised e],
      with [e] an exception class of [exn]; [isinstance] follows the
      class hierarchy, as an [except] clause does.
    - Calls on the outside world (the IMAP server, the webhook, the clock)
      thread an explicit world and record what was called in a trace. *)

From Stdlib Require Import String Ascii DecimalString.
From Stdlib Require Import Decimal.
From Stdlib Require Import ZArith NArith List Bool Lia.
From Stdlib.Strings Require Import Byte.
Import ListNotations.
Local Open Scope Z_scope.

(** ** Python preliminaries *)

Definition str := list N.
Definition bytes := list byte.

(** An ASCII literal as a [str]. *)
Definition lit (s : string) : str :=
  map N_of_ascii (list_ascii_of_string s).

(** The exception classes the sources raise, catch or let through. *)
Inductive exn : Type :=
| Exception
| ValueError
| UnicodeError
| UnicodeDecodeError
| UnicodeEncodeError
| LookupError
| KeyError
| TypeError
| AttributeError
| JSONDecodeError
| OSError
| socket_timeout
| IMAP4_error
| RequestException
| EmailFetcherError
| AuthenticationError
| ConnectionError.

Definition exn_eqb (a b : exn) : bool :=
  match a, b with
  | Exception, Exception | ValueError, ValueError
  | UnicodeError, UnicodeError | UnicodeDecodeError, UnicodeDecodeError
  | UnicodeEncodeError, UnicodeEncodeError | LookupError, LookupError
  | KeyError, KeyError | TypeError, TypeError
  | AttributeError, AttributeError | JSONDecodeError, JSONDecodeError
  | OSError, OSError | socket_timeout, socket_timeout
  | IMAP4_error, IMAP4_error | RequestException, RequestException
  | EmailFetcherError, EmailFetcherError
  | AuthenticationError, AuthenticationError
  | ConnectionError, ConnectionError => true
  | _, _ => false
  end.

(** The direct base class; [Exception] is the root of this fragment.
    [ConnectionError] is the class of email_fetcher.py (it shadows the
    builtin of that name), a subclass of [EmailFetcherError]. *)
Definition base (e : exn) : option exn :=
  match e with
  | Exception => None
  | ValueError => Some Exception
  | UnicodeError => Some ValueError
  | UnicodeDecodeError => Some UnicodeError
  | UnicodeEncodeError => Some UnicodeError
  | LookupError => Some Exception
  | KeyError => Some LookupError
  | TypeError => Some Exception
  | AttributeError => Some Exception
  | JSONDecodeError => Some ValueError
  | OSError => Some Exception
  | socket_timeout => Some OSError
  | IMAP4_error => Some Exception
  | RequestException => Some OSError
  | EmailFetcherError => Some Exception
  | AuthenticationError => Some EmailFetcherError
  | ConnectionError => Some EmailFetcherError
  end.

Fixpoint isinstance_fuel (n : nat) (e cls : exn) : bool :=
  exn_eqb e cls ||
  match n with
  | O => false
  | S n' => match base e with
            | Some b => isinstance_fuel n' b cls
            | None => false
            end
  end.

(** The hierarchy above is four levels deep. *)
Definition isinstance (e cls : exn) : bool := isinstance_fuel 4 e cls.

Definition isinstance_any (e : exn) (clss : list exn) : bool :=
  existsb (isinstance e) clss.

Inductive result (A : Type) : Type :=
| Returned (a : A)
| Raised (e : exn).
Arguments Returned {A} a.
Arguments Raised {A} e.

(** Sequencing of calls that may raise. *)
Definition bind {A B : Type} (r : result A) (k : A -> result B) : result B :=
  match r with
  | Returned a => k a
  | Raised e => Raised e
  end.

Notation "x <- r ;; k" := (bind r (fun x => k))
  (at level 61, r at next level, right associativity).


(** ** The text codecs of the Python runtime

    [bytes.decode] and [str.encode] are the runtime's, not this
    repository's. The three codecs that are simple enough are modelled
    in full (ASCII, ISO-8859-1 and UTF-8, the last after the
    well-formed byte sequences of the Unicode standard, which CPython's
    strict decoder accepts exactly); the table-driven GB codecs stay
    parameters of the development. *)

Module codecs.

Local Open Scope N_scope.

Definition byte_of_N (n : N) : byte :=
  match Byte.of_N (n mod 256) with
  | Some b => b
  | None => x00
  end.

Definition in_range (lo hi n : N) : bool := (lo <=? n) && (n <=? hi).

(** A Python [str] holds code points up to U+10FFFF, lone surrogates
    included. *)
Definition is_code_point (c : N) : bool := c <=? 0x10FFFF.
Definition is_surrogate (c : N) : bool := in_range 0xD800 0xDFFF c.

(** *** ASCII and ISO-8859-1 *)

Fixpoint ascii_decode (bs : bytes) : option str :=
  match bs with
  | [] => Some []
  | b :: rest =>
      if Byte.to_N b <? 128 then option_map (cons (Byte.to_N b)) (ascii_decode rest)
      else None
  end.

Fixpoint ascii_encode (s : str) : option bytes :=
  match s with
  | [] => Some []
  | c :: rest =>
      if c <? 128 then option_map (cons (byte_of_N c)) (ascii_encode rest)
      else None
  end.

Definition latin_1_decode (bs : bytes) : str := map Byte.to_N bs.

Fixpoint latin_1_encode (s : str) : option bytes :=
  match s with
  | [] => Some []
  | c :: rest =>
      if c <? 256 then option_map (cons (byte_of_N c)) (latin_1_encode rest)
      else None
  end.

(** *** UTF-8 *)

(** The encoding of one code point; surrogates and values past
    U+10FFFF have none. *)
Definition utf_8_encode_char (c : N) : option bytes :=
  if c <? 0x80 then Some [byte_of_N c]
  else if c <? 0x800 then
    Some [byte_of_N (0xC0 + c / 64); byte_of_N (0x80 + c mod 64)]
  else if is_surrogate c then None
  else if c <? 0x10000 then
    Some [byte_of_N (0xE0 + c / 4096);
          byte_of_N (0x80 + (c / 64) mod 64);
          byte_of_N (0x80 + c mod 64)]
  else if is_code_point c then
    Some [byte_of_N (0xF0 + c / 262144);
          byte_of_N (0x80 + (c / 4096) mod 64);
          byte_of_N (0x80 + (c / 64) mod 64);
          byte_of_N (0x80 + c mod 64)]
  else None.

Fixpoint utf_8_encode (s : str) : option bytes :=
  match s with
  | [] => Some []
  | c :: rest =>
      match utf_8_encode_char c, utf_8_encode rest with
      | Some bs, Some bs' => Some (bs ++ bs')
      | _, _ => None
      end
  end.

(** One step of the decoder at a non-empty input: either a code point
    and the rest, or an ill-formed subsequence of [skip] bytes (the
    ``maximal subpart'' that [errors='replace'] turns into one U+FFFD)
    and the input after it. *)
Inductive utf_8_step : Type :=
| Scalar (c : N) (rest : bytes)
| Illformed (skip : nat) (rest : bytes).

Definition continuation (lo hi : N) (bs : bytes) : option (N * bytes) :=
  match bs with
  | b :: rest =>
      if in_range lo hi (Byte.to_N b) then Some (Byte.to_N b - 0x80, rest)
      else None
  | [] => None
  end.

Definition utf_8_next (b0 : byte) (rest : bytes) : utf_8_step :=
  let n0 := Byte.to_N b0 in
  if n0 <? 0x80 then Scalar n0 rest
  else if in_range 0xC2 0xDF n0 then
    match continuation 0x80 0xBF rest with
    | Some (c1, r1) => Scalar ((n0 - 0xC0) * 64 + c1) r1
    | None => Illformed 1 rest
    end
  else if in_range 0xE0 0xEF n0 then
    let lo := if n0 =? 0xE0 then 0xA0 else 0x80 in
    let hi := if n0 =? 0xED then 0x9F else 0xBF in
    match continuation lo hi rest with
    | Some (c1, r1) =>
        match continuation 0x80 0xBF r1 with
        | Some (c2, r2) => Scalar ((n0 - 0xE0) * 4096 + c1 * 64 + c2) r2
        | None => Illformed 2 r1
        end
    | None => Illformed 1 rest
    end
  else if in_range 0xF0 0xF4 n0 then
    let lo := if n0 =? 0xF0 then 0x90 else 0x80 in
    let hi := if n0 =? 0xF4 then 0x8F else 0xBF in
    match continuation lo hi rest with
    | Some (c1, r1) =>
        match continuation 0x80 0xBF r1 with
        | Some (c2, r2) =>
            match continuation 0x80 0xBF r2 with
            | Some (c3, r3) =>
                Scalar ((n0 - 0xF0) * 262144 + c1 * 4096 + c2 * 64 + c3) r3
            | None => Illformed 3 r2
            end
        | None => Illformed 2 r1
        end
    | None => Illformed 1 rest
    end
  else Illformed 1 rest.

(** The strict decoder; every step consumes a byte, so [length bs] is
    fuel enough. *)
Fixpoint utf_8_decode_fuel (fuel : nat) (bs : bytes) : option str :=
  match fuel, bs with
  | _, [] => Some []
  | O, _ :: _ => None
  | S fuel', b0 :: rest =>
      match utf_8_next b0 rest with
      | Scalar c rest' => option_map (cons c) (utf_8_decode_fuel fuel' rest')
      | Illformed _ _ => None
      end
  end.

Definition utf_8_decode (bs : bytes) : option str :=
  utf_8_decode_fuel (length bs) bs.

(** [bytes.decode('utf-8', errors='replace')]: total. *)
Fixpoint utf_8_decode_replace_fuel (fuel : nat) (bs : bytes) : str :=
  match fuel, bs with
  | _, [] => []
  | O, _ :: _ => []
  | S fuel', b0 :: rest =>
      match utf_8_next b0 rest with
      | Scalar c rest' => c :: utf_8_decode_replace_fuel fuel' rest'
      | Illformed _ rest' => 0xFFFD :: utf_8_decode_replace_fuel fuel' rest'
      end
  end.

Definition utf_8_decode_replace (bs : bytes) : str :=
  utf_8_decode_replace_fuel (length bs) bs.

End codecs.


(** ** hashlib, hmac, base64 and urllib.parse

    The functions [generate_sign] calls, after FIPS 180-4 (SHA-256),
    RFC 2104 (HMAC), RFC 4648 (base64) and the documented behaviour of
    [urllib.parse.quote_plus]. *)

Module hashlib.

Local Open Scope N_scope.
Import codecs.

Definition add32 (a b : N) : N := (a + b) mod 4294967296.
Definition rotr (n x : N) : N :=
  N.lor (N.shiftr x n) ((N.shiftl x (32 - n)) mod 4294967296).
Definition not32 (x : N) : N := N.lxor x 0xFFFFFFFF.

Definition Ch (x y z : N) : N := N.lxor (N.land x y) (N.land (not32 x) z).
Definition Maj (x y z : N) : N :=
  N.lxor (N.lxor (N.land x y) (N.land x z)) (N.land y z).
Definition Sigma0 (x : N) : N := N.lxor (N.lxor (rotr 2 x) (rotr 13 x)) (rotr 22 x).
Definition Sigma1 (x : N) : N := N.lxor (N.lxor (rotr 6 x) (rotr 11 x)) (rotr 25 x).
Definition sigma0 (x : N) : N := N.lxor (N.lxor (rotr 7 x) (rotr 18 x)) (N.shiftr x 3).
Definition sigma1 (x : N) : N := N.lxor (N.lxor (rotr 17 x) (rotr 19 x)) (N.shiftr x 10).

(** The constants of FIPS 180-4 by their definition: K holds the first
    32 bits of the fractional parts of the cube roots of the first 64
    primes, and the initial hash value those of the square roots of the
    first 8. *)
Definition is_prime (n : N) : bool :=
  (1 <? n)
  && forallb (fun d => negb (n mod N.of_nat d =? 0)) (seq 2 (N.to_nat n - 2)).

Definition primes : list N :=
  Eval vm_compute in filter is_prime (map N.of_nat (seq 2 310)).

(** The integer cube root below [2 ^ bits], one bit at a time. *)
Fixpoint cube_root (bits : nat) (root n : N) : N :=
  match bits with
  | O => root
  | S bits' =>
      let next := root + 2 ^ N.of_nat bits' in
      if next * next * next <=? n then cube_root bits' next n
      else cube_root bits' root n
  end.

Definition K : list N :=
  Eval vm_compute in
    map (fun p => cube_root 36 0 (p * 2 ^ 96) mod 4294967296) primes.

Definition initial_words : list N :=
  Eval vm_compute in
    map (fun p => N.sqrt (p * 2 ^ 64) mod 4294967296) (firstn 8 primes).

(** The eight working variables, and the hash value between blocks. *)
Record state : Type := mkState {
  va : N; vb : N; vc : N; vd : N; ve : N; vf : N; vg : N; vh : N
}.

Definition H0 : state :=
  let h (i : nat) := nth i initial_words 0 in
  mkState (h 0%nat) (h 1%nat) (h 2%nat) (h 3%nat)
          (h 4%nat) (h 5%nat) (h 6%nat) (h 7%nat).

Definition word_of_bytes (b0 b1 b2 b3 : byte) : N :=
  ((Byte.to_N b0 * 256 + Byte.to_N b1) * 256 + Byte.to_N b2) * 256 + Byte.to_N b3.

Definition bytes_of_word (w : N) : bytes :=
  [byte_of_N (w / 16777216); byte_of_N (w / 65536); byte_of_N (w / 256); byte_of_N w].

Fixpoint words_of_bytes (bs : bytes) : list N :=
  match bs with
  | b0 :: b1 :: b2 :: b3 :: rest => word_of_bytes b0 b1 b2 b3 :: words_of_bytes rest
  | _ => []
  end.

(** The message schedule: [w] holds W_0 .. W_(t-1) and grows by [n] words. *)
Fixpoint schedule (n : nat) (w : list N) : list N :=
  match n with
  | O => w
  | S n' =>
      let t := List.length w in
      let x := add32 (add32 (sigma1 (nth (t - 2) w 0)) (nth (t - 7) w 0))
                     (add32 (sigma0 (nth (t - 15) w 0)) (nth (t - 16) w 0)) in
      schedule n' (w ++ [x])
  end.

Definition round (s : state) (kw : N * N) : state :=
  let t1 := add32 (add32 (add32 (vh s) (Sigma1 (ve s)))
                         (add32 (Ch (ve s) (vf s) (vg s)) (fst kw))) (snd kw) in
  let t2 := add32 (Sigma0 (va s)) (Maj (va s) (vb s) (vc s)) in
  mkState (add32 t1 t2) (va s) (vb s) (vc s) (add32 (vd s) t1) (ve s) (vf s) (vg s).

Definition compress (h : state) (block : bytes) : state :=
  let w := schedule 48 (words_of_bytes block) in
  let s := fold_left round (combine K w) h in
  mkState (add32 (va h) (va s)) (add32 (vb h) (vb s)) (add32 (vc h) (vc s))
          (add32 (vd h) (vd s)) (add32 (ve h) (ve s)) (add32 (vf h) (vf s))
          (add32 (vg h) (vg s)) (add32 (vh h) (vh s)).

Definition pad (msg : bytes) : bytes :=
  let len := N.of_nat (List.length msg) in
  let zeros := N.to_nat ((119 - len mod 64) mod 64) in
  let bits := len * 8 in
  msg ++ [x80] ++ repeat x00 zeros
      ++ bytes_of_word ((bits / 4294967296) mod 4294967296)
      ++ bytes_of_word (bits mod 4294967296).

Fixpoint hash_blocks (fuel : nat) (h : state) (bs : bytes) : state :=
  match fuel, bs with
  | S fuel', _ :: _ => hash_blocks fuel' (compress h (firstn 64 bs)) (skipn 64 bs)
  | _, _ => h
  end.

Definition digest_of_state (s : state) : bytes :=
  bytes_of_word (va s) ++ bytes_of_word (vb s) ++ bytes_of_word (vc s)
  ++ bytes_of_word (vd s) ++ bytes_of_word (ve s) ++ bytes_of_word (vf s)
  ++ bytes_of_word (vg s) ++ bytes_of_word (vh s).

Definition sha256 (msg : bytes) : bytes :=
  let p := pad msg in
  digest_of_state (hash_blocks (List.length p) H0 p).

End hashlib.

Module hmac.

Import codecs.

Definition xor_byte (c : N) (b : byte) : byte := byte_of_N (N.lxor (Byte.to_N b) c).

(** [hmac.new(key, msg, digestmod=hashlib.sha256).digest()]; the block
    size of SHA-256 is 64 bytes. *)
Definition hmac_sha256 (key msg : bytes) : bytes :=
  let key' := if (64 <? List.length key)%nat then hashlib.sha256 key else key in
  let block := key' ++ repeat x00 (64 - List.length key') in
  hashlib.sha256 (map (xor_byte 0x5c) block
                  ++ hashlib.sha256 (map (xor_byte 0x36) block ++ msg)).

End hmac.

Module base64.

Local Open Scope N_scope.
Import codecs.

(** The character of a six-bit value in the standard alphabet. *)
Definition b64char (n : N) : byte :=
  if n <? 26 then byte_of_N (65 + n)
  else if n <? 52 then byte_of_N (97 + (n - 26))
  else if n <? 62 then byte_of_N (48 + (n - 52))
  else if n =? 62 then byte_of_N 43
  else byte_of_N 47.

Definition pad_char : byte := byte_of_N 61.

Fixpoint b64encode (bs : bytes) : bytes :=
  match bs with
  | [] => []
  | [b0] =>
      let n0 := Byte.to_N b0 in
      [b64char (n0 / 4); b64char ((n0 mod 4) * 16); pad_char; pad_char]
  | [b0; b1] =>
      let n0 := Byte.to_N b0 in
      let n1 := Byte.to_N b1 in
      [b64char (n0 / 4); b64char ((n0 mod 4) * 16 + n1 / 16);
       b64char ((n1 mod 16) * 4); pad_char]
  | b0 :: b1 :: b2 :: rest =>
      let n0 := Byte.to_N b0 in
      let n1 := Byte.to_N b1 in
      let n2 := Byte.to_N b2 in
      b64char (n0 / 4) :: b64char ((n0 mod 4) * 16 + n1 / 16)
      :: b64char ((n1 mod 16) * 4 + n2 / 64) :: b64char (n2 mod 64)
      :: b64encode rest
  end.

End base64.

Module urllib.

Local Open Scope N_scope.
Import codecs.

(** Letters, digits and [_.-~] are never quoted. *)
Definition always_safe (n : N) : bool :=
  in_range 65 90 n || in_range 97 122 n || in_range 48 57 n
  || (n =? 95) || (n =? 46) || (n =? 45) || (n =? 126).

Definition hex_digit (n : N) : N := if n <? 10 then 48 + n else 55 + n.

(** [quote_plus] on one byte of the UTF-8 encoding: a space becomes
    [+], an unsafe byte [%XX] in upper-case hexadecimal. *)
Definition quote_byte (b : byte) : str :=
  let n := Byte.to_N b in
  if always_safe n then [n]
  else if n =? 32 then [43]
  else [37; hex_digit (n / 16); hex_digit (n mod 16)].

Definition quote_plus (s : str) : result str :=
  match utf_8_encode s with
  | Some bs => Returned (concat (map quote_byte bs))
  | None => Raised UnicodeEncodeError
  end.

End urllib.


(** ** The codec registry

    [content.decode(charset)] and [text.encode(charset)] look the name
    up in the runtime's registry. [Codec] is what a text codec offers;
    [CJK] holds the three GB codecs, whose tables are taken as given.
    The registry below is the fragment of CPython's that the sources
    can name: the entries of [SUPPORTED_ENCODINGS], their common
    aliases, and the [undefined] codec (Lib/encodings/undefined.py),
    whose two methods raise [UnicodeError]. *)

Module encodings.

Local Open Scope N_scope.
Import codecs.

Record Codec : Type := mkCodec {
  decode : bytes -> option str;
  encode : str -> option bytes
}.

Definition utf_8 : Codec := mkCodec utf_8_decode utf_8_encode.
Definition ascii : Codec := mkCodec ascii_decode ascii_encode.
Definition latin_1 : Codec :=
  mkCodec (fun bs => Some (latin_1_decode bs)) latin_1_encode.

Record CJK : Type := mkCJK {
  gbk : Codec;
  gb2312 : Codec;
  gb18030 : Codec
}.

Fixpoint str_eqb (a b : str) : bool :=
  match a, b with
  | [], [] => true
  | x :: a', y :: b' => (x =? y) && str_eqb a' b'
  | _, _ => false
  end.

Definition is_alnum (c : N) : bool :=
  in_range 48 57 c || in_range 65 90 c || in_range 97 122 c.

Definition lower_char (c : N) : N := if in_range 65 90 c then c + 32 else c.

(** The registry's spelling of a name: letters in lower case, every
    run of other characters but [.] read as one [_], none at either
    end. *)
Fixpoint normalize_encoding (punct started : bool) (name : str) : str :=
  match name with
  | [] => []
  | c :: rest =>
      if is_alnum c || (c =? 46) then
        (if punct && started then [95] else [])
        ++ lower_char c :: normalize_encoding false true rest
      else normalize_encoding true started rest
  end.

Inductive entry : Type :=
| TextCodec (c : Codec)
| UndefinedCodec.

Definition one_of (name : str) (names : list string) : bool :=
  existsb (fun n => str_eqb name (lit n)) names.

Definition lookup (cjk : CJK) (name : str) : option entry :=
  let n := normalize_encoding false false name in
  if one_of n ["utf_8"; "utf8"; "u8"; "utf"]%string then Some (TextCodec utf_8)
  else if one_of n ["ascii"; "us_ascii"; "646"]%string then Some (TextCodec ascii)
  else if one_of n ["iso_8859_1"; "iso8859_1"; "latin_1"; "latin1"; "l1"; "8859"]%string
       then Some (TextCodec latin_1)
  else if one_of n ["gbk"; "cp936"; "936"; "ms936"]%string then Some (TextCodec (gbk cjk))
  else if one_of n ["gb2312"; "euc_cn"; "euccn"; "chinese"]%string
       then Some (TextCodec (gb2312 cjk))
  else if one_of n ["gb18030"; "gb18030_2000"]%string then Some (TextCodec (gb18030 cjk))
  else if one_of n ["undefined"]%string then Some UndefinedCodec
  else None.

(** The name is first passed to the C API as a UTF-8 string, which
    refuses lone surrogates and then embedded NUL characters. *)
Definition check_name (name : str) : option exn :=
  match utf_8_encode name with
  | None => Some UnicodeEncodeError
  | Some _ => if existsb (N.eqb 0) name then Some ValueError else None
  end.

(** [content.decode(encoding)], errors strict. *)
Definition bytes_decode (cjk : CJK) (content : bytes) (encoding : str) : result str :=
  match check_name encoding with
  | Some e => Raised e
  | None =>
      match lookup cjk encoding with
      | None => Raised LookupError
      | Some UndefinedCodec => Raised UnicodeError
      | Some (TextCodec c) =>
          match decode c content with
          | Some text => Returned text
          | None => Raised UnicodeDecodeError
          end
      end
  end.

(** [text.encode(encoding)], errors strict. *)
Definition str_encode (cjk : CJK) (text : str) (encoding : str) : result bytes :=
  match check_name encoding with
  | Some e => Raised e
  | None =>
      match lookup cjk encoding with
      | None => Raised LookupError
      | Some UndefinedCodec => Raised UnicodeError
      | Some (TextCodec c) =>
          match encode c text with
          | Some bs => Returned bs
          | None => Raised UnicodeEncodeError
          end
      end
  end.

(** What the development asks of a codec it does not model: decoding
    undoes encoding, and the empty byte string decodes to the empty
    text. *)
Definition lawful (c : Codec) : Prop :=
  decode c [] = Some [] /\
  forall text bs, encode c text = Some bs -> decode c bs = Some text.

Definition lawful_cjk (cjk : CJK) : Prop :=
  lawful (gbk cjk) /\ lawful (gb2312 cjk) /\ lawful (gb18030 cjk).

(** The GB codecs cut down to the range they share with ASCII: an
    instance of [CJK] that computes. *)
Definition ascii_range_cjk : CJK := mkCJK ascii ascii ascii.

End encodings.


(** ** The json module

    [json.dumps] on the strings it is given here and [json.loads],
    after Lib/json/encoder.py, decoder.py and scanner.py. A document is
    a [str]; the decoder hands back the unread rest of its input
    instead of an index into it. *)

Module json.

#[local] Set Warnings "-register-all".

Local Open Scope N_scope.
Import codecs.

(** What [loads] builds. A number keeps its lexeme, and an object its
    pairs in document order ([dict(pairs)]: a later pair replaces an
    earlier one with the same key). *)
Inductive value : Type :=
| Null
| Bool (b : bool)
| Number (lexeme : str)
| String (s : str)
| Array (items : list value)
| Object (pairs : list (str * value)).

(** *** Encoding: [encode_basestring], [ensure_ascii=False] *)

Definition hex_lower (n : N) : N := if n <? 10 then 48 + n else 87 + n.

Definition escape_char (c : N) : str :=
  if c =? 34 then [92; 34]
  else if c =? 92 then [92; 92]
  else if c =? 10 then [92; 110]
  else if c =? 13 then [92; 114]
  else if c =? 9 then [92; 116]
  else if c =? 8 then [92; 98]
  else if c =? 12 then [92; 102]
  else if c <? 32 then [92; 117; 48; 48; hex_lower (c / 16); hex_lower (c mod 16)]
  else [c].

Definition encode_basestring (s : str) : str :=
  [34] ++ concat (map escape_char s) ++ [34].

(** [dumps] of a dict whose keys and values are strings, with the
    default separators. *)
Fixpoint dumps_items (items : list (str * str)) : str :=
  match items with
  | [] => []
  | [(k, v)] => encode_basestring k ++ lit ": " ++ encode_basestring v
  | (k, v) :: rest =>
      encode_basestring k ++ lit ": " ++ encode_basestring v ++ lit ", "
      ++ dumps_items rest
  end.

Definition dumps_str_dict (items : list (str * str)) : str :=
  [123] ++ dumps_items items ++ [125].

(** *** Decoding *)

Definition is_ws (c : N) : bool :=
  (c =? 32) || (c =? 9) || (c =? 10) || (c =? 13).

Fixpoint skip_ws (s : str) : str :=
  match s with
  | c :: rest => if is_ws c then skip_ws rest else s
  | [] => []
  end.

Definition hex_value (c : N) : option N :=
  if in_range 48 57 c then Some (c - 48)
  else if in_range 97 102 c then Some (c - 87)
  else if in_range 65 70 c then Some (c - 55)
  else None.

Definition hex4 (h1 h2 h3 h4 : N) : option N :=
  match hex_value h1, hex_value h2, hex_value h3, hex_value h4 with
  | Some a, Some b, Some c, Some d => Some (((a * 16 + b) * 16 + c) * 16 + d)
  | _, _, _, _ => None
  end.

Definition backslash (esc : N) : option N :=
  if esc =? 34 then Some 34
  else if esc =? 92 then Some 92
  else if esc =? 47 then Some 47
  else if esc =? 98 then Some 8
  else if esc =? 102 then Some 12
  else if esc =? 110 then Some 10
  else if esc =? 114 then Some 13
  else if esc =? 116 then Some 9
  else None.

Definition prepend (c : N) (r : option (str * str)) : option (str * str) :=
  match r with
  | Some (text, rest) => Some (c :: text, rest)
  | None => None
  end.

(** [scanstring], strict, from just after the opening quote: the
    string and the input after its closing quote. [None] stands for
    [JSONDecodeError]. *)
Fixpoint scanstring (s : str) : option (str * str) :=
  match s with
  | [] => None
  | c :: rest =>
      if c =? 34 then Some ([], rest)
      else if c =? 92 then
        match rest with
        | [] => None
        | esc :: rest1 =>
            if esc =? 117 then
              match rest1 with
              | h1 :: h2 :: h3 :: h4 :: rest2 =>
                  match hex4 h1 h2 h3 h4 with
                  | None => None
                  | Some uni =>
                      if in_range 0xd800 0xdbff uni then
                        match rest2 with
                        | b :: u :: tail =>
                            if (b =? 92) && (u =? 117) then
                              match tail with
                              | g1 :: g2 :: g3 :: g4 :: rest3 =>
                                  match hex4 g1 g2 g3 g4 with
                                  | None => None
                                  | Some uni2 =>
                                      if in_range 0xdc00 0xdfff uni2 then
                                        prepend (0x10000 + ((uni - 0xd800) * 1024
                                                           + (uni2 - 0xdc00)))
                                                (scanstring rest3)
                                      else prepend uni (scanstring rest2)
                                  end
                              | _ => None
                              end
                            else prepend uni (scanstring rest2)
                        | _ => prepend uni (scanstring rest2)
                        end
                      else prepend uni (scanstring rest2)
                  end
              | _ => None
              end
            else
              match backslash esc with
              | Some ch => prepend ch (scanstring rest1)
              | None => None
              end
        end
      else if c <? 32 then None
      else prepend c (scanstring rest)
  end.

Fixpoint starts_with (prefix s : str) : bool :=
  match prefix, s with
  | [], _ => true
  | p :: prefix', c :: s' => (p =? c) && starts_with prefix' s'
  | _ :: _, [] => false
  end.

Definition is_digit (c : N) : bool := in_range 48 57 c.

Fixpoint span_digits (s : str) : str * str :=
  match s with
  | c :: rest =>
      if is_digit c then let (ds, r) := span_digits rest in (c :: ds, r)
      else ([], s)
  | [] => ([], [])
  end.

(** [NUMBER_RE]: an optional minus sign, then 0 or a digit string
    without a leading 0; an optional fraction; an optional exponent. *)
Definition match_integer (s : str) : option (str * str) :=
  let (sign, s1) :=
    match s with
    | c :: r => if c =? 45 then ([45], r) else ([], s)
    | [] => ([], s)
    end in
  match s1 with
  | c :: r =>
      if c =? 48 then Some (sign ++ [48], r)
      else if in_range 49 57 c then
        let (ds, r') := span_digits r in Some (sign ++ c :: ds, r')
      else None
  | [] => None
  end.

Definition match_frac (s : str) : str * str :=
  match s with
  | c :: r =>
      if c =? 46 then
        match span_digits r with
        | ([], _) => ([], s)
        | (ds, r') => (c :: ds, r')
        end
      else ([], s)
  | [] => ([], s)
  end.

Definition match_exp (s : str) : str * str :=
  match s with
  | c :: r =>
      if (c =? 101) || (c =? 69) then
        let (sign, r1) :=
          match r with
          | d :: r' => if (d =? 45) || (d =? 43) then ([d], r') else ([], r)
          | [] => ([], r)
          end in
        match span_digits r1 with
        | ([], _) => ([], s)
        | (ds, r2) => (c :: sign ++ ds, r2)
        end
      else ([], s)
  | [] => ([], s)
  end.

Definition match_number (s : str) : option (str * str) :=
  match match_integer s with
  | None => None
  | Some (i, s1) =>
      let (f, s2) := match_frac s1 in
      let (e, s3) := match_exp s2 in
      Some (i ++ f ++ e, s3)
  end.

Definition constant (name : string) (v : value) (s : str) : option (value * str) :=
  if starts_with (lit name) s
  then Some (v, skipn (String.length name) s) else None.

Definition first_of {A : Type} (a b : option A) : option A :=
  match a with
  | Some _ => a
  | None => b
  end.

(** [scan_once] and the object and array parsers; [fuel] bounds the
    depth of the calls: an array takes three units for its opening
    bracket, and every later element or pair one more. *)
Fixpoint scan_once (fuel : nat) (s : str) : option (value * str) :=
  match fuel with
  | O => None
  | S fuel' =>
      match s with
      | [] => None
      | c :: rest =>
          if c =? 34 then
            match scanstring rest with
            | Some (text, r) => Some (String text, r)
            | None => None
            end
          else if c =? 123 then JSONObject fuel' rest
          else if c =? 91 then JSONArray fuel' rest
          else
            first_of (constant "null" Null s)
            (first_of (constant "true" (Bool true) s)
            (first_of (constant "false" (Bool false) s)
            (first_of (match match_number s with
                       | Some (lexeme, r) => Some (Number lexeme, r)
                       | None => None
                       end)
            (first_of (constant "NaN" (Number (lit "NaN")) s)
            (first_of (constant "Infinity" (Number (lit "Infinity")) s)
                      (constant "-Infinity" (Number (lit "-Infinity")) s))))))
      end
  end

with JSONObject (fuel : nat) (s : str) : option (value * str) :=
  match fuel with
  | O => None
  | S fuel' =>
      match skip_ws s with
      | c :: rest =>
          if c =? 125 then Some (Object [], rest)
          else if c =? 34 then object_pairs fuel' rest []
          else None
      | [] => None
      end
  end

with object_pairs (fuel : nat) (s : str) (pairs : list (str * value))
  : option (value * str) :=
  match fuel with
  | O => None
  | S fuel' =>
      match scanstring s with
      | None => None
      | Some (key, s1) =>
          match skip_ws s1 with
          | c :: s2 =>
              if c =? 58 then
                match scan_once fuel' (skip_ws s2) with
                | None => None
                | Some (v, s3) =>
                    match skip_ws s3 with
                    | d :: s4 =>
                        if d =? 125 then Some (Object (pairs ++ [(key, v)]), s4)
                        else if d =? 44 then
                          match skip_ws s4 with
                          | q :: s5 =>
                              if q =? 34
                              then object_pairs fuel' s5 (pairs ++ [(key, v)])
                              else None
                          | [] => None
                          end
                        else None
                    | [] => None
                    end
                end
              else None
          | [] => None
          end
      end
  end

with JSONArray (fuel : nat) (s : str) : option (value * str) :=
  match fuel with
  | O => None
  | S fuel' =>
      match skip_ws s with
      | c :: rest =>
          if c =? 93 then Some (Array [], rest)
          else array_values fuel' (skip_ws s) []
      | [] => None
      end
  end

with array_values (fuel : nat) (s : str) (values : list value)
  : option (value * str) :=
  match fuel with
  | O => None
  | S fuel' =>
      match scan_once fuel' s with
      | None => None
      | Some (v, s1) =>
          match skip_ws s1 with
          | d :: s2 =>
              if d =? 93 then Some (Array (values ++ [v]), s2)
              else if d =? 44 then array_values fuel' (skip_ws s2) (values ++ [v])
              else None
          | [] => None
          end
      end
  end.

(** [json.loads]: no byte-order mark, one value, nothing but white
    space after it. The fuel is three units for each character of the
    input, which is more than any nesting of arrays and objects
    spends. The limits of the interpreter (its recursion limit on deep
    nesting, its limit on the digits of an integer) are left aside. *)
Definition loads (s : str) : option value :=
  if starts_with [0xfeff] s then None
  else
    match scan_once (3 * List.length s + 1) (skip_ws s) with
    | Some (v, rest) =>
        match skip_ws rest with
        | [] => Some v
        | _ :: _ => None
        end
    | None => None
    end.

(** [dict.__getitem__]: the last pair with the key. *)
Fixpoint lookup (key : str) (pairs : list (str * value)) : option value :=
  match pairs with
  | [] => None
  | (k, v) :: rest =>
      match lookup key rest with
      | Some v' => Some v'
      | None => if encodings.str_eqb k key then Some v else None
      end
  end.

(** [data[key]] for a string [key]: only a dict can be indexed by a
    string; a list, a str or a number makes it a [TypeError]. *)
Definition subscript (data : value) (key : str) : result value :=
  match data with
  | Object pairs =>
      match lookup key pairs with
      | Some v => Returned v
      | None => Raised KeyError
      end
  | _ => Raised TypeError
  end.

End json.


(** ** models.py *)

Module models.

(** The [Email] dataclass. The annotations say [str], but a dataclass
    does not check them: [EmailOf V] is an Email whose fields hold
    values of [V], and [Email] is the well-typed case. *)
Record EmailOf (V : Type) : Type := mkEmail {
  id : V;
  subject : V;
  sender : V;
  date : V;
  body : V
}.
Arguments mkEmail {V} _ _ _ _ _.
Arguments id {V} _.
Arguments subject {V} _.
Arguments sender {V} _.
Arguments date {V} _.
Arguments body {V} _.

Definition Email := EmailOf str.

(** [json.dumps(asdict(self), ensure_ascii=False)], for an Email whose
    fields are strings. *)
Definition serialize (self : Email) : str :=
  json.dumps_str_dict
    [(lit "id", id self); (lit "subject", subject self);
     (lit "sender", sender self); (lit "date", date self);
     (lit "body", body self)].

(** The body of the [try] of [deserialize]. *)
Definition deserialize_body (json_str : str) : result (EmailOf json.value) :=
  match json.loads json_str with
  | None => Raised JSONDecodeError
  | Some data =>
      id_ <- json.subscript data (lit "id") ;;
      subject_ <- json.subscript data (lit "subject") ;;
      sender_ <- json.subscript data (lit "sender") ;;
      date_ <- json.subscript data (lit "date") ;;
      body_ <- json.subscript data (lit "body") ;;
      Returned (mkEmail id_ subject_ sender_ date_ body_)
  end.

(** [except (json.JSONDecodeError, KeyError)] turns into [ValueError];
    any other exception passes. *)
Definition deserialize (json_str : str) : result (EmailOf json.value) :=
  match deserialize_body json_str with
  | Returned email => Returned email
  | Raised e =>
      if isinstance_any e [JSONDecodeError; KeyError] then Raised ValueError
      else Raised e
  end.

End models.
Import models.


(** ** config_manager.py *)

Module config_manager.

(** The [Config] dataclass; as for [Email], the fields hold what they
    are given. *)
Record ConfigOf (V : Type) : Type := mkConfig {
  email_host : V;
  email_user : V;
  email_password : V;
  dingtalk_webhook : V;
  dingtalk_secret : V
}.
Arguments mkConfig {V} _ _ _ _ _.
Arguments email_host {V} _.
Arguments email_user {V} _.
Arguments email_password {V} _.
Arguments dingtalk_webhook {V} _.
Arguments dingtalk_secret {V} _.

Definition REQUIRED_FIELDS : list str :=
  [lit "email_host"; lit "email_user"; lit "email_password";
   lit "dingtalk_webhook"; lit "dingtalk_secret"].

Definition ENV_MAPPING : list (str * str) :=
  [(lit "email_host", lit "EMAIL_HOST");
   (lit "email_user", lit "EMAIL_USER");
   (lit "email_password", lit "EMAIL_PASSWORD");
   (lit "dingtalk_webhook", lit "DINGTALK_WEBHOOK");
   (lit "dingtalk_secret", lit "DINGTALK_SECRET")].

Record ConfigManager : Type := mkManager {
  config_path : option str
}.

Section ConfigManager.

(** The process environment and the file system: [os.environ.get],
    [os.path.exists] and the text of a file opened as UTF-8 (or what
    opening and reading it raises). [number_is_zero] says whether the
    number a JSON lexeme denotes is zero. *)
Variable environ : str -> option str.
Variable path_exists : str -> bool.
Variable read_text : str -> result str.
Variable number_is_zero : str -> bool.

(** The truth value of what [json.load] returns. *)
Definition truthy (v : json.value) : bool :=
  match v with
  | json.Null => false
  | json.Bool b => b
  | json.Number lexeme => negb (number_is_zero lexeme)
  | json.String [] => false
  | json.String (_ :: _) => true
  | json.Array [] => false
  | json.Array (_ :: _) => true
  | json.Object [] => false
  | json.Object (_ :: _) => true
  end.

(** [_load_from_file]: [json.JSONDecodeError] and [IOError] become
    [ValueError]. *)
Definition _load_from_file (path : str) : result json.value :=
  let loaded :=
    text <- read_text path ;;
    match json.loads text with
    | Some data => Returned data
    | None => Raised JSONDecodeError
    end in
  match loaded with
  | Returned data => Returned data
  | Raised e =>
      if isinstance_any e [JSONDecodeError; OSError] then Raised ValueError
      else Raised e
  end.

(** [_load_from_env]: the fields whose variable is set and not empty. *)
Fixpoint env_items (mapping : list (str * str)) : list (str * json.value) :=
  match mapping with
  | [] => []
  | (field, env_var) :: rest =>
      match environ env_var with
      | Some (c :: value) => (field, json.String (c :: value)) :: env_items rest
      | _ => env_items rest
      end
  end.

Definition _load_from_env : list (str * json.value) := env_items ENV_MAPPING.

(** [get_missing_fields]: a dict is its pairs, the last pair of a key
    being its value. *)
Definition is_missing (config : list (str * json.value)) (field : str) : bool :=
  match json.lookup field config with
  | None => true
  | Some v => negb (truthy v)
  end.

Definition get_missing_fields (config : list (str * json.value)) : list str :=
  filter (is_missing config) REQUIRED_FIELDS.

Definition config_value (config : list (str * json.value)) (field : string)
  : result json.value :=
  match json.lookup (lit field) config with
  | Some v => Returned v
  | None => Raised KeyError
  end.

(** [load_config]. Only a dict has [update]: any other JSON value in
    the file ends in [AttributeError]. *)
Definition load_config (self : ConfigManager) : result (ConfigOf json.value) :=
  file_config <-
    match config_path self with
    | Some (c :: path) =>
        if path_exists (c :: path) then _load_from_file (c :: path)
        else Returned (json.Object [])
    | _ => Returned (json.Object [])
    end ;;
  match file_config with
  | json.Object file_pairs =>
      let config_dict := file_pairs ++ _load_from_env in
      match get_missing_fields config_dict with
      | _ :: _ => Raised ValueError
      | [] =>
          host <- config_value config_dict "email_host" ;;
          user <- config_value config_dict "email_user" ;;
          password <- config_value config_dict "email_password" ;;
          webhook <- config_value config_dict "dingtalk_webhook" ;;
          secret <- config_value config_dict "dingtalk_secret" ;;
          Returned (mkConfig host user password webhook secret)
      end
  | _ => Raised AttributeError
  end.

End ConfigManager.

End config_manager.


(** ** email_parser.py *)

Module email_parser.

#[local] Set Warnings "-register-all".
Local Open Scope N_scope.
Import codecs.

(** *** HTMLTextExtractor

    [HTMLParser.feed] tokenises the document and calls the handlers in
    document order; an [html_event] is one such call. The parser hands
    tags over in lower case; a tag written [<x/>] arrives as
    [handle_startendtag], which calls [handle_starttag] and then
    [handle_endtag]. *)
Inductive html_event : Type :=
| starttag (tag : str) (attrs : list (str * option str))
| endtag (tag : str)
| startendtag (tag : str) (attrs : list (str * option str))
| data (d : str).

Record HTMLTextExtractor : Type := mkExtractor {
  text_parts : list str;
  skip_data : bool
}.

Definition init : HTMLTextExtractor := mkExtractor [] false.

Definition skip_tags : list string :=
  ["script"; "style"; "head"; "meta"; "link"]%string.

(** [tag.lower()], on the ASCII letters; the parser's tags are in lower
    case already, so the call changes none of them. *)
Definition lower (s : str) : str := map encodings.lower_char s.

Definition tag_in (tag : str) (tags : list string) : bool :=
  encodings.one_of (lower tag) tags.

Definition append (self : HTMLTextExtractor) (part : str) : HTMLTextExtractor :=
  mkExtractor (text_parts self ++ [part]) (skip_data self).

Definition handle_starttag (self : HTMLTextExtractor) (tag : str)
  (attrs : list (str * option str)) : HTMLTextExtractor :=
  if tag_in tag skip_tags then mkExtractor (text_parts self) true
  else if tag_in tag ["br"; "p"; "div"; "tr"; "li"]%string then append self [10]
  else self.

Definition handle_endtag (self : HTMLTextExtractor) (tag : str) : HTMLTextExtractor :=
  if tag_in tag skip_tags then mkExtractor (text_parts self) false
  else if tag_in tag ["p"; "div"; "tr"; "h1"; "h2"; "h3"; "h4"; "h5"; "h6"]%string
       then append self [10]
  else self.

Definition handle_data (self : HTMLTextExtractor) (d : str) : HTMLTextExtractor :=
  if negb (skip_data self) then append self d else self.

Definition handle (self : HTMLTextExtractor) (ev : html_event) : HTMLTextExtractor :=
  match ev with
  | starttag tag attrs => handle_starttag self tag attrs
  | endtag tag => handle_endtag self tag
  | startendtag tag attrs => handle_endtag (handle_starttag self tag attrs) tag
  | data d => handle_data self d
  end.

Definition handle_all (self : HTMLTextExtractor) (events : list html_event)
  : HTMLTextExtractor :=
  fold_left handle events self.

(** White space as [\s] and [str.strip] see it. *)
Definition isspace (c : N) : bool :=
  in_range 9 13 c || in_range 28 32 c || (c =? 0x85) || (c =? 0xA0)
  || (c =? 0x1680) || in_range 0x2000 0x200A c || (c =? 0x2028)
  || (c =? 0x2029) || (c =? 0x202F) || (c =? 0x205F) || (c =? 0x3000).

Fixpoint span_space (s : str) : str * str :=
  match s with
  | c :: rest =>
      if isspace c then let (ws, r) := span_space rest in (c :: ws, r)
      else ([], s)
  | [] => ([], [])
  end.

(** What follows the last newline of a run of white space, if it has one. *)
Fixpoint after_last_newline (ws : str) : option str :=
  match ws with
  | [] => None
  | c :: rest =>
      match after_last_newline rest with
      | Some tail => Some tail
      | None => if c =? 10 then Some rest else None
      end
  end.

(** The first substitution of [get_text]: a newline, white space and a
    newline become two newlines. The greedy white space ends at the
    last newline of its run, and the search goes on after it. *)
Fixpoint collapse_blank_lines (fuel : nat) (s : str) : str :=
  match fuel, s with
  | _, [] => []
  | O, _ :: _ => s
  | S fuel', c :: rest =>
      if c =? 10 then
        let (ws, tail) := span_space rest in
        match after_last_newline ws with
        | Some ws' => 10 :: 10 :: collapse_blank_lines fuel' (ws' ++ tail)
        | None => c :: collapse_blank_lines fuel' rest
        end
      else c :: collapse_blank_lines fuel' rest
  end.

(** The second: a run of spaces becomes one space. *)
Fixpoint collapse_spaces (s : str) : str :=
  match s with
  | [] => []
  | c :: rest =>
      if (c =? 32) && match rest with
                      | c' :: _ => c' =? 32
                      | [] => false
                      end
      then collapse_spaces rest
      else c :: collapse_spaces rest
  end.

Fixpoint lstrip (s : str) : str :=
  match s with
  | c :: rest => if isspace c then lstrip rest else s
  | [] => []
  end.

Definition strip (s : str) : str := rev (lstrip (rev (lstrip s))).

Definition get_text (self : HTMLTextExtractor) : str :=
  let text := concat (text_parts self) in
  let text := collapse_blank_lines (List.length text) text in
  let text := collapse_spaces text in
  strip text.

(** *** EmailParser *)

Definition SUPPORTED_ENCODINGS : list str :=
  [lit "utf-8"; lit "gbk"; lit "gb2312"; lit "gb18030"; lit "iso-8859-1";
   lit "ascii"].

Section EmailParser.

(** [HTMLParser.feed], as the calls it makes or the exception it ends
    with; [re.sub(pattern, repl, text, flags)] with [flags] standing for
    [re.DOTALL | re.IGNORECASE]; [content.decode(charset)]. *)
Variable feed : str -> result (list html_event).
Variable re_sub : string -> str -> str -> bool -> str.
Variable bytes_decode : bytes -> str -> result str.

Definition _html_to_text (html : str) : str :=
  match feed html with
  | Returned events => get_text (handle_all init events)
  | Raised _ =>
      let text := re_sub "<script[^>]*>.*?</script>" [] html true in
      let text := re_sub "<style[^>]*>.*?</style>" [] text true in
      let text := re_sub "<[^>]+>" [32] text false in
      let text := re_sub "\s+" [32] text false in
      strip text
  end.

(** One [try: return content.decode(encoding)] with its
    [except (UnicodeDecodeError, LookupError)]: [None] when the
    exception is caught and control goes on. *)
Definition try_decode (content : bytes) (encoding : str) : option (result str) :=
  match bytes_decode content encoding with
  | Returned text => Some (Returned text)
  | Raised e =>
      if isinstance_any e [UnicodeDecodeError; LookupError] then None
      else Some (Raised e)
  end.

(** Where the value of [decode_content] comes from. *)
Inductive origin : Type :=
| FromEmpty
| FromDeclared
| FromSupported (encoding : str)
| FromReplace.

Fixpoint decode_supported (content : bytes) (encodings : list str)
  : origin * result str :=
  match encodings with
  | [] => (FromReplace, Returned (utf_8_decode_replace content))
  | encoding :: rest =>
      match try_decode content encoding with
      | Some r => (FromSupported encoding, r)
      | None => decode_supported content rest
      end
  end.

Definition decode_content_from (content : bytes) (charset : option str)
  : origin * result str :=
  match content with
  | [] => (FromEmpty, Returned [])
  | _ :: _ =>
      match charset with
      | Some (c :: cs) =>
          match try_decode content (c :: cs) with
          | Some r => (FromDeclared, r)
          | None => decode_supported content SUPPORTED_ENCODINGS
          end
      | _ => decode_supported content SUPPORTED_ENCODINGS
      end
  end.

Definition decode_content (content : bytes) (charset : option str) : result str :=
  snd (decode_content_from content charset).


(** *** Headers, body selection and [parse]

    What the email package hands over: the parts of an encoded header
    ([decode_header]), and a parsed message as the tree its methods
    show. [get_payload(decode=True)] is [None] on a multipart
    container. *)
Inductive header_part : Type :=
| BytesPart (part : bytes) (charset : option str)
| StrPart (part : str).

Inductive message : Type :=
| Message (content_type content_disposition : str) (content_charset : option str)
          (payload : option bytes) (subparts : option (list message)).

Definition get_content_type (m : message) : str :=
  match m with Message t _ _ _ _ => t end.
Definition get_content_disposition (m : message) : str :=
  match m with Message _ d _ _ _ => d end.
Definition get_content_charset (m : message) : option str :=
  match m with Message _ _ c _ _ => c end.
Definition get_payload (m : message) : option bytes :=
  match m with
  | Message _ _ _ p None => p
  | Message _ _ _ _ (Some _) => None
  end.
Definition is_multipart (m : message) : bool :=
  match m with
  | Message _ _ _ _ (Some _) => true
  | Message _ _ _ _ None => false
  end.

(** [msg.walk()]: the message, then its subparts, depth first. *)
Fixpoint walk (m : message) : list message :=
  m :: match m with
       | Message _ _ _ _ (Some parts) =>
           (fix walk_all (ms : list message) : list message :=
              match ms with
              | [] => []
              | m' :: rest => walk m' ++ walk_all rest
              end) parts
       | Message _ _ _ _ None => []
       end.

(** [needle in text]. *)
Fixpoint contains (needle text : str) : bool :=
  json.starts_with needle text
  || match text with
     | [] => false
     | _ :: rest => contains needle rest
     end.

(** [charset or 'utf-8']. *)
Definition charset_or_utf_8 (charset : option str) : str :=
  match charset with
  | Some (c :: cs) => c :: cs
  | _ => lit "utf-8"
  end.

Variable decode_header : str -> result (list header_part).

Fixpoint decode_parts (parts : list header_part) : result (list str) :=
  match parts with
  | [] => Returned []
  | BytesPart part charset :: rest =>
      text <- decode_content part (Some (charset_or_utf_8 charset)) ;;
      texts <- decode_parts rest ;;
      Returned (text :: texts)
  | StrPart part :: rest =>
      texts <- decode_parts rest ;;
      Returned (part :: texts)
  end.

Definition _decode_header (header_value : str) : result str :=
  match header_value with
  | [] => Returned []
  | _ :: _ =>
      parts <- decode_header header_value ;;
      decoded_parts <- decode_parts parts ;;
      Returned (concat decoded_parts)
  end.

(** The first loop of [_extract_body]: the first part that is no
    attachment, is [text/plain] and has a payload. *)
Fixpoint first_plain (parts : list message) : option message :=
  match parts with
  | [] => None
  | part :: rest =>
      if contains (lit "attachment") (get_content_disposition part)
      then first_plain rest
      else if encodings.str_eqb (get_content_type part) (lit "text/plain") then
        match get_payload part with
        | Some (_ :: _) => Some part
        | _ => first_plain rest
        end
      else first_plain rest
  end.

(** The second loop: the first [text/html] part that has a payload. *)
Fixpoint first_html (parts : list message) : option message :=
  match parts with
  | [] => None
  | part :: rest =>
      if encodings.str_eqb (get_content_type part) (lit "text/html") then
        match get_payload part with
        | Some (_ :: _) => Some part
        | _ => first_html rest
        end
      else first_html rest
  end.

Definition decode_part (part : message) : result str :=
  match get_payload part with
  | Some payload =>
      decode_content payload (Some (charset_or_utf_8 (get_content_charset part)))
  | None => Returned []
  end.

Definition _extract_body (msg : message) : result str :=
  if is_multipart msg then
    match first_plain (walk msg) with
    | Some part => decode_part part
    | None =>
        match first_html (walk msg) with
        | Some part =>
            html_content <- decode_part part ;;
            Returned (_html_to_text html_content)
        | None => Returned []
        end
    end
  else
    match get_payload msg with
    | Some (b :: payload) =>
        decode_content (b :: payload)
                       (Some (charset_or_utf_8 (get_content_charset msg)))
    | _ => Returned []
    end.

(** [email.message_from_bytes] with the three headers [parse] reads,
    each the [str] that [msg.get] returns (the empty text when the
    header is absent; a header with raw bytes above 127, for which
    [msg.get] returns a [Header] object, is not covered), and
    [parsedate_to_datetime(...).strftime('%Y-%m-%d %H:%M:%S')]. *)
Record parsed : Type := mkParsed {
  header_subject : str;
  header_from : str;
  header_date : str;
  root : message
}.

Variable message_from_bytes : bytes -> parsed.
Variable format_date : str -> result str.

Definition parse (raw_email : bytes) (email_id : str) : result Email :=
  let msg := message_from_bytes raw_email in
  subject <- _decode_header (header_subject msg) ;;
  sender <- _decode_header (header_from msg) ;;
  let date_str := header_date msg in
  date <- match format_date date_str with
          | Returned date => Returned date
          | Raised e =>
              if isinstance_any e [ValueError; TypeError] then Returned date_str
              else Raised e
          end ;;
  body <- _extract_body (root msg) ;;
  Returned (mkEmail email_id subject sender date body).

End EmailParser.

End email_parser.


(** ** email_fetcher.py *)

Module email_fetcher.

Definition CONNECTION_TIMEOUT : Z := 30.

(** The calls [connect] makes on the IMAP library, in a trace. *)
Inductive imap_call : Type :=
| Open (host : str)
| SendId
| Login (user password : str)
| Select (mailbox : str)
| ListFolders.

Section EmailFetcher.

(** The server and the network. Each operation returns or raises, and
    moves the world on. *)
Variable World : Type.
Variable IMAP4_SSL : str -> World -> result unit * World.
Variable id_command : World -> result unit * World.
Variable login : str -> str -> World -> result unit * World.
Variable select : str -> World -> result (str * str) * World.
Variable list_folders : World -> result unit * World.

Record EmailFetcher : Type := mkFetcher {
  host : str;
  user : str;
  password : str
}.

Definition inbox_names : list str := [lit "INBOX"; lit "inbox"; lit "Inbox"].

(** [_send_id_command]: whatever the exchange raises is logged and
    dropped. *)
Definition _send_id_command (w : World) : World := snd (id_command w).

(** The [for] loop over the inbox names: [selected] at its end, unless
    a [select] raised. *)
Fixpoint select_inbox (names : list str) (w : World)
  : result bool * World * list imap_call :=
  match names with
  | [] => (Returned false, w, [])
  | inbox_name :: rest =>
      match select inbox_name w with
      | (Raised e, w1) => (Raised e, w1, [Select inbox_name])
      | (Returned (status, _), w1) =>
          if encodings.str_eqb status (lit "OK")
          then (Returned true, w1, [Select inbox_name])
          else
            let '(r, w2, calls) := select_inbox rest w1 in
            (r, w2, Select inbox_name :: calls)
      end
  end.

(** The body of the [try] of [connect]. *)
Definition connect_body (self : EmailFetcher) (w : World)
  : result bool * World * list imap_call :=
  match IMAP4_SSL (host self) w with
  | (Raised e, w1) => (Raised e, w1, [Open (host self)])
  | (Returned _, w1) =>
      let w2 := _send_id_command w1 in
      match login (user self) (password self) w2 with
      | (Raised e, w3) =>
          (Raised e, w3, [Open (host self); SendId; Login (user self) (password self)])
      | (Returned _, w3) =>
          let '(r, w4, calls) := select_inbox inbox_names w3 in
          let before := [Open (host self); SendId; Login (user self) (password self)] in
          match r with
          | Raised e => (Raised e, w4, before ++ calls)
          | Returned true => (Returned true, w4, before ++ calls)
          | Returned false =>
              (* the listing is for the log; what it raises is dropped *)
              let w5 := snd (list_folders w4) in
              (Raised EmailFetcherError, w5, before ++ calls ++ [ListFolders])
          end
      end
  end.

(** The [except] clauses of [connect], in their order. *)
Definition connect_handler (e : exn) : exn :=
  if isinstance e IMAP4_error then AuthenticationError
  else if isinstance e socket_timeout then ConnectionError
  else if isinstance e OSError then ConnectionError
  else e.

Definition connect (self : EmailFetcher) (w : World)
  : result bool * World * list imap_call :=
  match connect_body self w with
  | (Raised e, w', calls) => (Raised (connect_handler e), w', calls)
  | (Returned b, w', calls) => (Returned b, w', calls)
  end.

End EmailFetcher.


(** *** The session: fetch, mark and disconnect

    [self.connection] is either the IMAP connection or [None];
    [connected] says which. *)

Inductive session_call : Type :=
| Search
| FetchMessage (email_id : bytes)
| Store (email_id : bytes)
| Close
| Logout.

(** One element of the data of a FETCH response: a pair of the
    envelope and the message, a bare byte string, or [None]. *)
Inductive fetch_item : Type :=
| ItemPair (envelope raw : bytes)
| ItemBytes (b : bytes)
| ItemNone.

Definition is_ascii_space (b : byte) : bool :=
  let n := Byte.to_N b in
  (codecs.in_range 9 13 n || (n =? 32))%N.

(** [bytes.split()]: the runs of bytes between white space. *)
Fixpoint split_from (word : bytes) (bs : bytes) : list bytes :=
  match bs with
  | [] => match word with
          | [] => []
          | _ :: _ => [rev word]
          end
  | b :: rest =>
      if is_ascii_space b then
        match word with
        | [] => split_from [] rest
        | _ :: _ => rev word :: split_from [] rest
        end
      else split_from (b :: word) rest
  end.

Definition split (bs : bytes) : list bytes := split_from [] bs.

Section Session.

Variable World : Type.
(** [connection.search(None, 'UNSEEN')], [connection.fetch(id, '(RFC822)')],
    [connection.store(id, '+FLAGS', '\\Seen')], [close] and [logout];
    [EmailParser.parse]. *)
Variable search : World -> result (str * list (option bytes)) * World.
Variable fetch : bytes -> World -> result (str * list fetch_item) * World.
Variable store : bytes -> World -> result str * World.
Variable close : World -> result unit * World.
Variable logout : World -> result unit * World.
Variable parse : bytes -> str -> result Email.

(** The body of the inner [try] for one id: the message to append, or
    [None] when the id is passed over ([continue], or an exception,
    which [except Exception] catches). *)
Definition fetch_one (email_id : bytes) (w : World) : option Email * World :=
  match fetch email_id w with
  | (Raised _, w1) => (None, w1)
  | (Returned (status, data), w1) =>
      if negb (encodings.str_eqb status (lit "OK")) then (None, w1)
      else
        match data with
        | ItemPair _ raw_email :: _ =>
            match codecs.utf_8_decode email_id with
            | None => (None, w1)
            | Some email_id_str =>
                match parse raw_email email_id_str with
                | Returned email_obj => (Some email_obj, w1)
                | Raised _ => (None, w1)
                end
            end
        | _ => (None, w1)
        end
  end.

Fixpoint fetch_each (email_ids : list bytes) (w : World)
  : list Email * World * list session_call :=
  match email_ids with
  | [] => ([], w, [])
  | email_id :: rest =>
      let (found, w1) := fetch_one email_id w in
      let '(emails, w2, calls) := fetch_each rest w1 in
      (match found with
       | Some email_obj => email_obj :: emails
       | None => emails
       end, w2, FetchMessage email_id :: calls)
  end.

(** [fetch_unread_emails]. What the search raises, and what indexing
    or splitting its data raises, becomes [EmailFetcherError]. *)
Definition fetch_unread_emails (connected : bool) (w : World)
  : result (list Email) * World * list session_call :=
  if negb connected then (Raised EmailFetcherError, w, [])
  else
    match search w with
    | (Raised _, w1) => (Raised EmailFetcherError, w1, [Search])
    | (Returned (status, message_ids), w1) =>
        if negb (encodings.str_eqb status (lit "OK")) then (Returned [], w1, [Search])
        else
          match message_ids with
          | Some blob :: _ =>
              let '(emails, w2, calls) := fetch_each (split blob) w1 in
              (Returned emails, w2, Search :: calls)
          | _ => (Raised EmailFetcherError, w1, [Search])
          end
    end.

(** [mark_as_read]: [False] without a connection, and whenever the
    encoding of the id or the STORE raises or the status is not OK. *)
Definition mark_as_read (connected : bool) (email_id : str) (w : World)
  : bool * World * list session_call :=
  if negb connected then (false, w, [])
  else
    match codecs.utf_8_encode email_id with
    | None => (false, w, [])
    | Some id_bytes =>
        match store id_bytes w with
        | (Returned status, w1) =>
            (encodings.str_eqb status (lit "OK"), w1, [Store id_bytes])
        | (Raised _, w1) => (false, w1, [Store id_bytes])
        end
    end.

(** [disconnect]: [close] then [logout] in one [try], the connection
    forgotten in its [finally]. The bool is [connected] afterwards. *)
Definition disconnect (connected : bool) (w : World)
  : bool * World * list session_call :=
  if connected then
    match close w with
    | (Raised _, w1) => (false, w1, [Close])
    | (Returned _, w1) =>
        let (_, w2) := logout w1 in (false, w2, [Close; Logout])
    end
  else (false, w, []).

End Session.

End email_fetcher.


(** ** dingtalk_notifier.py *)

Module dingtalk_notifier.

Import codecs.

Definition MAX_RETRIES : Z := 3.
Definition INITIAL_BACKOFF : Z := 1.

Record DingTalkNotifier : Type := mkNotifier {
  webhook_url : str;
  secret : str
}.

(** [str(timestamp)]: the decimal numeral, with a sign when negative. *)
Definition str_of_int (z : Z) : str :=
  lit (DecimalString.NilZero.string_of_int (Z.to_int z)).

Definition encode_utf_8 (s : str) : result bytes :=
  match utf_8_encode s with
  | Some bs => Returned bs
  | None => Raised UnicodeEncodeError
  end.

Definition decode_utf_8 (bs : bytes) : result str :=
  match utf_8_decode bs with
  | Some s => Returned s
  | None => Raised UnicodeDecodeError
  end.

Definition generate_sign (self : DingTalkNotifier) (timestamp : Z) : result str :=
  let string_to_sign := str_of_int timestamp ++ [10%N] ++ secret self in
  key <- encode_utf_8 (secret self) ;;
  msg <- encode_utf_8 string_to_sign ;;
  let hmac_code := hmac.hmac_sha256 key msg in
  b64 <- decode_utf_8 (base64.b64encode hmac_code) ;;
  urllib.quote_plus b64.

(** [build_webhook_url(timestamp)], the time already read. *)
Definition build_webhook_url (self : DingTalkNotifier) (timestamp : Z) : result str :=
  sign <- generate_sign self timestamp ;;
  let separator := if existsb (N.eqb 63) (webhook_url self) then [38%N] else [63%N] in
  Returned (webhook_url self ++ separator ++ lit "timestamp=" ++ str_of_int timestamp
            ++ lit "&sign=" ++ sign).

(** The payload: [{"msgtype": ..., "markdown": {"title": ..., "text": ...}}]. *)
Record markdown : Type := mkMarkdown {
  title : str;
  text : str
}.

Record message : Type := mkMessage {
  msgtype : str;
  markdown_ : markdown
}.

Definition truncation_marker : str :=
  (lit "...(" ++ [0x5185; 0x5bb9; 0x5df2; 0x622a; 0x65ad] ++ lit ")")%N.

Definition notice_title : str := [0x65b0; 0x90ae; 0x4ef6; 0x901a; 0x77e5]%N.

(** The f-string of [format_message] up to the body. *)
Definition markdown_head (email : Email) : str :=
  (lit "### " ++ [0x1f4e7] ++ lit " " ++ notice_title ++ [10; 10]
   ++ lit "**" ++ [0x4e3b; 0x9898] ++ lit ":** " ++ subject email ++ [10; 10]
   ++ lit "**" ++ [0x53d1; 0x4ef6; 0x4eba] ++ lit ":** " ++ sender email ++ [10; 10]
   ++ lit "**" ++ [0x65f6; 0x95f4] ++ lit ":** " ++ date email ++ [10; 10]
   ++ lit "---" ++ [10; 10]
   ++ lit "**" ++ [0x5185; 0x5bb9] ++ lit ":**" ++ [10; 10])%N.

(** [format_message]: the payload, and the [email] object as the call
    leaves it. The method rebinds its local [body] and assigns to no
    field of [email]. *)
Definition format_message (self : DingTalkNotifier) (email : Email) : message * Email :=
  let body := models.body email in
  let body :=
    if (2000 <? List.length body)%nat
    then firstn 2000 body ++ truncation_marker
    else body in
  let markdown_text := markdown_head email ++ body in
  (mkMessage (lit "markdown") (mkMarkdown notice_title markdown_text), email).

(** What one attempt of [send] meets: a response whose JSON body has
    the given [errcode] ([None] when the key is absent), or an
    exception out of [requests.post] or [response.json]. *)
Inductive post_outcome : Type :=
| Responded (errcode : option Z)
| PostRaised (e : exn).

Inductive send_event : Type :=
| Post (url : str) (payload : message) (outcome : post_outcome)
| Sleep (seconds : Z).

Section Send.

Variable World : Type.
(** [int(time.time() * 1000)], [requests.post(url, json=message, ...)]
    with [response.json()], and [time.sleep]. *)
Variable time_ms : World -> Z * World.
Variable post : str -> message -> World -> post_outcome * World.
Variable sleep : Z -> World -> World.

(** The [for attempt in range(MAX_RETRIES)] loop of [send], with what
    is left of the range. The trace lists the posts made, each with
    what it met, and the sleeps. *)
Fixpoint send_attempts (self : DingTalkNotifier) (payload : message)
  (attempts : list Z) (backoff : Z) (w : World)
  : result bool * World * list send_event :=
  match attempts with
  | [] => (Returned false, w, [])
  | attempt :: rest =>
      let next (w : World) :=
        if attempt <? MAX_RETRIES - 1 then
          let '(r, w', events) := send_attempts self payload rest (backoff * 2)
                                                (sleep backoff w) in
          (r, w', Sleep backoff :: events)
        else send_attempts self payload rest backoff w in
      let (timestamp, w1) := time_ms w in
      match build_webhook_url self timestamp with
      | Raised e =>
          if isinstance e RequestException then next w1 else (Raised e, w1, [])
      | Returned url =>
          let (outcome, w2) := post url payload w1 in
          let '(r, w', events) :=
            match outcome with
            | Responded errcode =>
                match errcode with
                | Some 0 => (Returned true, w2, [])
                | _ => next w2
                end
            | PostRaised e =>
                if isinstance e RequestException then next w2
                else (Raised e, w2, [])
            end in
          (r, w', Post url payload outcome :: events)
      end
  end.

Definition send (self : DingTalkNotifier) (email : Email) (w : World)
  : result bool * World * list send_event :=
  let (payload, _) := format_message self email in
  send_attempts self payload (map Z.of_nat (seq 0 (Z.to_nat MAX_RETRIES)))
                INITIAL_BACKOFF w.

End Send.

End dingtalk_notifier.


(** ** main.py *)

Module main.

(** The calls [process_emails] makes on its two collaborators. *)
Inductive call : Type :=
| Fetch
| Notify (email : Email) (outcome : result bool)
| MarkRead (email_id : str) (ok : bool).

Section ProcessEmails.

(** The methods of the fetcher and of the notifier it is given.
    [mark_as_read] catches what it meets and answers with a bool. *)
Variable World : Type.
Variable fetch_unread_emails : World -> result (list Email) * World.
Variable send : Email -> World -> result bool * World.
Variable mark_as_read : str -> World -> bool * World.

(** The [for email in emails] loop, with [success_count] so far. *)
Fixpoint process_each (emails : list Email) (success_count : Z) (w : World)
  : result Z * World * list call :=
  match emails with
  | [] => (Returned success_count, w, [])
  | email :: rest =>
      match send email w with
      | (Raised e, w1) => (Raised e, w1, [Notify email (Raised e)])
      | (Returned true, w1) =>
          let (marked, w2) := mark_as_read (id email) w1 in
          let '(r, w', calls) :=
            process_each rest (if marked then success_count + 1 else success_count) w2 in
          (r, w', Notify email (Returned true) :: MarkRead (id email) marked :: calls)
      | (Returned false, w1) =>
          let '(r, w', calls) := process_each rest success_count w1 in
          (r, w', Notify email (Returned false) :: calls)
      end
  end.

(** The body of the [try]. *)
Definition process_emails_body (w : World) : result Z * World * list call :=
  match fetch_unread_emails w with
  | (Raised e, w1) => (Raised e, w1, [Fetch])
  | (Returned [], w1) => (Returned 0, w1, [Fetch])
  | (Returned emails, w1) =>
      let '(r, w', calls) := process_each emails 0 w1 in
      (r, w', Fetch :: calls)
  end.

(** [except EmailFetcherError: return 0]. *)
Definition process_emails (w : World) : result Z * World * list call :=
  match process_emails_body w with
  | (Raised e, w', calls) =>
      if isinstance e EmailFetcherError then (Returned 0, w', calls)
      else (Raised e, w', calls)
  | returned => returned
  end.

End ProcessEmails.


(** *** [main] and [run_daemon]

    The steps of a run, the calls of [process_emails] among them. *)
Inductive step : Type :=
| LoadConfig
| Connect
| Process (calls : list call)
| Disconnect
| SleepFor (seconds : Z).

Section Main.

(** The configuration manager and the fetcher and notifier built from
    the configuration. [disconnect] catches what it meets. *)
Variable World : Type.
Variable Config : Type.
Variable load_config : World -> result Config * World.
Variable connect : Config -> World -> result bool * World.
Variable fetch_unread_emails : Config -> World -> result (list Email) * World.
Variable send : Config -> Email -> World -> result bool * World.
Variable mark_as_read : Config -> str -> World -> bool * World.
Variable disconnect : Config -> World -> World.
Variable sleep : Z -> World -> result unit * World.

Definition process (config : Config) (w : World) : result Z * World * list call :=
  process_emails World (fetch_unread_emails config) (send config)
                 (mark_as_read config) w.

(** [main]: the exit code, or the exception that leaves it. *)
Definition main (w : World) : result Z * World * list step :=
  match load_config w with
  | (Raised e, w1) =>
      if isinstance e ValueError then (Returned 1, w1, [LoadConfig])
      else (Raised e, w1, [LoadConfig])
  | (Returned config, w1) =>
      match connect config w1 with
      | (Raised e, w2) =>
          if isinstance e AuthenticationError then (Returned 2, w2, [LoadConfig; Connect])
          else if isinstance e ConnectionError then (Returned 3, w2, [LoadConfig; Connect])
          else (Raised e, w2, [LoadConfig; Connect])
      | (Returned _, w2) =>
          let '(r, w3, calls) := process config w2 in
          let w4 := disconnect config w3 in
          (match r with
           | Returned _ => Returned 0
           | Raised e => Raised e
           end, w4, [LoadConfig; Connect; Process calls; Disconnect])
      end
  end.

(** One turn of the [while True] of [run_daemon]: every exception of
    [connect] and of [process_emails] is caught and logged; what
    [time.sleep] raises (a negative interval makes it raise) is not. *)
Definition daemon_pass (config : Config) (interval : Z) (w : World)
  : result unit * World * list step :=
  let '(w1, steps) :=
    match connect config w with
    | (Raised _, w') => (w', [Connect])
    | (Returned _, w') =>
        let '(_, w'', calls) := process config w' in
        (w'', [Connect; Process calls])
    end in
  let (slept, w2) := sleep interval (disconnect config w1) in
  (slept, w2, steps ++ [Disconnect; SleepFor interval]).

(** A number of turns of the loop: [Some e] when a turn let [e] out. *)
Fixpoint daemon_passes (passes : nat) (config : Config) (interval : Z) (w : World)
  : option exn * World * list step :=
  match passes with
  | O => (None, w, [])
  | S passes' =>
      match daemon_pass config interval w with
      | (Raised e, w1, steps) => (Some e, w1, steps)
      | (Returned _, w1, steps) =>
          let '(stopped, w2, steps') := daemon_passes passes' config interval w1 in
          (stopped, w2, steps ++ steps')
      end
  end.

(** [run_daemon], watched for a number of passes: [Some] when it has
    returned or raised, [None] while the loop goes on. *)
Definition run_daemon (passes : nat) (interval : Z) (w : World)
  : option (result Z) * World * list step :=
  match load_config w with
  | (Raised e, w1) =>
      if isinstance e ValueError then (Some (Returned 1), w1, [LoadConfig])
      else (Some (Raised e), w1, [LoadConfig])
  | (Returned config, w1) =>
      let '(stopped, w2, steps) := daemon_passes passes config interval w1 in
      (match stopped with
       | Some e => Some (Raised e)
       | None => None
       end, w2, LoadConfig :: steps)
  end.

End Main.

End main.


(** * Properties *)

(** ** The pipeline driver (main.py) *)


(** The number of [mark_as_read] calls that answered [True]. *)
Fixpoint marked_ok (calls : list main.call) : Z :=
  match calls with
  | [] => 0
  | main.MarkRead _ true :: rest => 1 + marked_ok rest
  | _ :: rest => marked_ok rest
  end.


(** A run of three messages in which the second notification fails. *)
Definition three_emails : list Email :=
  [mkEmail (lit "1") (lit "a") (lit "x@y") (lit "d1") (lit "one");
   mkEmail (lit "2") (lit "b") (lit "x@y") (lit "d2") (lit "two");
   mkEmail (lit "3") (lit "c") (lit "x@y") (lit "d3") (lit "three")].










Section ProcessEmailsFacts.

Variable World : Type.
Variable send : Email -> World -> result bool * World.
Variable mark_as_read : str -> World -> bool * World.




End ProcessEmailsFacts.




(** ** Bytes, ASCII and UTF-8 *)

Section CodecFacts.

Import codecs.
Local Open Scope N_scope.

Lemma byte_of_N_to_N : forall b, byte_of_N (Byte.to_N b) = b.
Proof.
  intros b. unfold byte_of_N.
  rewrite N.mod_small by (pose proof (Byte.to_N_bounded b); lia).
  now rewrite Byte.of_to_N.
Qed.

Lemma to_N_byte_of_N : forall n, n < 256 -> Byte.to_N (byte_of_N n) = n.
Proof.
  intros n Hn. unfold byte_of_N. rewrite N.mod_small by lia.
  destruct (Byte.of_N n) as [b|] eqn:Hb.
  - now apply Byte.to_of_N.
  - apply Byte.of_N_None_iff in Hb. lia.
Qed.

Lemma to_N_lt_256 : forall b, Byte.to_N b < 256.
Proof. intros b. pose proof (Byte.to_N_bounded b). lia. Qed.

Lemma utf_8_encode_app :
  forall a b,
    utf_8_encode (a ++ b) =
    match utf_8_encode a, utf_8_encode b with
    | Some x, Some y => Some (x ++ y)
    | _, _ => None
    end.
Proof.
  induction a as [|c a IH]; intros b; simpl.
  - now destruct (utf_8_encode b).
  - rewrite IH. destruct (utf_8_encode_char c) as [x|]; [|reflexivity].
    destruct (utf_8_encode a) as [y|]; [|reflexivity].
    destruct (utf_8_encode b) as [z|]; [|reflexivity].
    now rewrite app_assoc.
Qed.

(** Text below U+0080 is its own encoding, byte for byte. *)
Lemma utf_8_encode_ascii :
  forall s, Forall (fun c => c < 128) s -> utf_8_encode s = Some (map byte_of_N s).
Proof.
  induction 1 as [|c s Hc _ IH]; simpl; [reflexivity|].
  rewrite IH. unfold utf_8_encode_char.
  destruct (N.ltb_spec c 128); [reflexivity | lia].
Qed.

Lemma utf_8_decode_fuel_ascii :
  forall bs fuel,
    (List.length bs <= fuel)%nat ->
    Forall (fun b => Byte.to_N b < 128) bs ->
    utf_8_decode_fuel fuel bs = Some (map Byte.to_N bs).
Proof.
  induction bs as [|b bs IH]; intros fuel Hfuel Hall.
  - now destruct fuel.
  - destruct fuel as [|fuel]; simpl in Hfuel; [lia|].
    inversion Hall as [|? ? Hb Hbs]; subst. simpl.
    unfold utf_8_next. destruct (N.ltb_spec (Byte.to_N b) 128); [|lia].
    rewrite IH by (auto; lia). reflexivity.
Qed.

Lemma utf_8_decode_ascii :
  forall bs,
    Forall (fun b => Byte.to_N b < 128) bs ->
    utf_8_decode bs = Some (map Byte.to_N bs).
Proof. intros bs H. now apply utf_8_decode_fuel_ascii. Qed.

(** Every code point below U+0800 has an encoding. *)
Lemma utf_8_encode_small :
  forall s, Forall (fun c => c < 0x800) s -> exists bs, utf_8_encode s = Some bs.
Proof.
  induction 1 as [|c s Hc _ [bs IH]]; simpl; [now eexists|].
  rewrite IH. unfold utf_8_encode_char.
  destruct (c <? 128); [now eexists|].
  destruct (N.ltb_spec c 0x800); [now eexists | lia].
Qed.

Lemma lit_small : forall s, Forall (fun c => c < 0x800) (lit s).
Proof.
  intros s. unfold lit. apply Forall_forall. intros c Hin.
  apply in_map_iff in Hin. destruct Hin as (a & <- & _).
  pose proof (N_ascii_bounded a). lia.
Qed.

End CodecFacts.


(** ** The signature (dingtalk_notifier.py) *)

Section SignFacts.

Import codecs.
Local Open Scope N_scope.

(** Lists three bytes at a time, as [b64encode] reads them. *)
Lemma triples_ind (P : bytes -> Prop) :
  P [] ->
  (forall a, P [a]) ->
  (forall a b, P [a; b]) ->
  (forall a b c rest, P rest -> P (a :: b :: c :: rest)) ->
  forall bs, P bs.
Proof.
  intros Hnil Hone Htwo Hstep.
  assert (H : forall bs, P bs /\ (forall a, P (a :: bs)) /\ (forall a b, P (a :: b :: bs))).
  { induction bs as [|c bs (H0 & H1 & H2)].
    - repeat split; auto.
    - repeat split; auto. }
  intros bs. apply H.
Qed.

Lemma b64char_ascii : forall n, Byte.to_N (base64.b64char n) < 128.
Proof.
  intros n. unfold base64.b64char.
  destruct (N.ltb_spec n 26); [rewrite to_N_byte_of_N; lia|].
  destruct (N.ltb_spec n 52); [rewrite to_N_byte_of_N; lia|].
  destruct (N.ltb_spec n 62); [rewrite to_N_byte_of_N; lia|].
  destruct (n =? 62); rewrite to_N_byte_of_N; lia.
Qed.

Lemma b64encode_ascii :
  forall bs, Forall (fun b => Byte.to_N b < 128) (base64.b64encode bs).
Proof.
  induction bs as [|a|a b|a b c rest IH] using triples_ind;
    cbn [base64.b64encode];
    repeat (constructor; [first [apply b64char_ascii | vm_compute; reflexivity]|]);
    auto.
Qed.

(** [quote_plus] of ASCII text quotes its characters one by one. *)
Lemma quote_plus_ascii :
  forall bs,
    Forall (fun b => Byte.to_N b < 128) bs ->
    urllib.quote_plus (map Byte.to_N bs)
      = Returned (concat (map urllib.quote_byte bs)).
Proof.
  intros bs Hall. unfold urllib.quote_plus.
  rewrite utf_8_encode_ascii.
  - rewrite !map_map. do 2 f_equal. apply map_ext.
    intros b. now rewrite byte_of_N_to_N.
  - apply Forall_forall. intros c Hin. apply in_map_iff in Hin.
    destruct Hin as (b & <- & Hb). rewrite Forall_forall in Hall. now apply Hall.
Qed.

(** The string that is signed always has a UTF-8 encoding when the
    secret has one. *)
Lemma string_to_sign_encodes :
  forall secret key timestamp,
    utf_8_encode secret = Some key ->
    exists prefix,
      utf_8_encode (dingtalk_notifier.str_of_int timestamp) = Some prefix /\
      utf_8_encode (dingtalk_notifier.str_of_int timestamp ++ [10] ++ secret)
        = Some (prefix ++ [x0a] ++ key).
Proof.
  intros secret key timestamp Hkey.
  destruct (utf_8_encode_small _ (lit_small
              (DecimalString.NilZero.string_of_int (Z.to_int timestamp))))
    as [prefix Hprefix].
  exists prefix. split; [exact Hprefix|].
  rewrite utf_8_encode_app. unfold dingtalk_notifier.str_of_int. rewrite Hprefix.
  rewrite utf_8_encode_app. rewrite Hkey. reflexivity.
Qed.

(** The signature as the composition the source spells out: HMAC-SHA256
    keyed by the secret over the timestamp, a newline and the secret;
    base64; percent-encoding. *)
Lemma generate_sign_formula :
  forall self key timestamp,
    utf_8_encode (dingtalk_notifier.secret self) = Some key ->
    exists prefix,
      utf_8_encode (dingtalk_notifier.str_of_int timestamp) = Some prefix /\
      dingtalk_notifier.generate_sign self timestamp
        = Returned (concat (map urllib.quote_byte
             (base64.b64encode (hmac.hmac_sha256 key (prefix ++ [x0a] ++ key))))).
Proof.
  intros self key timestamp Hkey.
  destruct (string_to_sign_encodes _ _ timestamp Hkey) as (prefix & Hprefix & Hmsg).
  exists prefix. split; [exact Hprefix|].
  unfold dingtalk_notifier.generate_sign, dingtalk_notifier.encode_utf_8,
    dingtalk_notifier.decode_utf_8, bind.
  rewrite Hkey, Hmsg.
  rewrite (utf_8_decode_ascii _ (b64encode_ascii _)).
  apply quote_plus_ascii, b64encode_ascii.
Qed.

Lemma build_webhook_url_returns :
  forall self key timestamp,
    utf_8_encode (dingtalk_notifier.secret self) = Some key ->
    exists url, dingtalk_notifier.build_webhook_url self timestamp = Returned url.
Proof.
  intros self key timestamp Hkey.
  destruct (generate_sign_formula self key timestamp Hkey) as (prefix & _ & Hsign).
  unfold dingtalk_notifier.build_webhook_url, bind. rewrite Hsign. now eexists.
Qed.

End SignFacts.


(** ** Delivery with retries (dingtalk_notifier.py) *)

(** Whether [send] goes on to the next attempt after this outcome: an
    application error code, a missing one, or a transport exception. *)
Definition retried (o : dingtalk_notifier.post_outcome) : bool :=
  match o with
  | dingtalk_notifier.Responded (Some 0) => false
  | dingtalk_notifier.Responded _ => true
  | dingtalk_notifier.PostRaised e => isinstance e RequestException
  end.

(** What [send] answers when this outcome is its last. *)
Definition verdict (o : dingtalk_notifier.post_outcome) : result bool :=
  match o with
  | dingtalk_notifier.Responded (Some 0) => Returned true
  | dingtalk_notifier.Responded _ => Returned false
  | dingtalk_notifier.PostRaised e =>
      if isinstance e RequestException then Returned false else Raised e
  end.

(** A webhook that answers by a script: the world is the list of
    outcomes still to come (a refused connection once it is empty). *)
Definition scripted_time (w : list dingtalk_notifier.post_outcome)
  : Z * list dingtalk_notifier.post_outcome := (1700000000000, w).

Definition scripted_post (url : str) (payload : dingtalk_notifier.message)
  (w : list dingtalk_notifier.post_outcome)
  : dingtalk_notifier.post_outcome * list dingtalk_notifier.post_outcome :=
  match w with
  | o :: rest => (o, rest)
  | [] => (dingtalk_notifier.PostRaised RequestException, [])
  end.

Definition scripted_sleep (seconds : Z) (w : list dingtalk_notifier.post_outcome)
  : list dingtalk_notifier.post_outcome := w.

Definition sample_notifier : dingtalk_notifier.DingTalkNotifier :=
  dingtalk_notifier.mkNotifier (lit "https://oapi.example/robot/send?access_token=t")
                               (lit "SECabc").

Definition sample_email : Email :=
  mkEmail (lit "7") (lit "hello") (lit "a@b") (lit "2024-01-01 00:00:00") (lit "body").

(** A webhook whose world keeps count: the outcomes still to come (a
    refused connection once there is none left), the number of posts
    made and the seconds slept, in order. *)
Record counted : Type := mkCounted {
  script : list dingtalk_notifier.post_outcome;
  posts : nat;
  slept : list Z
}.

Definition counted_time (w : counted) : Z * counted := (1700000000000, w).

Definition counted_post (url : str) (payload : dingtalk_notifier.message)
  (w : counted) : dingtalk_notifier.post_outcome * counted :=
  match script w with
  | o :: rest => (o, mkCounted rest (S (posts w)) (slept w))
  | [] => (dingtalk_notifier.PostRaised RequestException,
           mkCounted [] (S (posts w)) (slept w))
  end.

Definition counted_sleep (seconds : Z) (w : counted) : counted :=
  mkCounted (script w) (posts w) (slept w ++ [seconds]).

Section SendFacts.

Import dingtalk_notifier.

Variable World : Type.
Variable time_ms : World -> Z * World.
Variable post : str -> message -> World -> post_outcome * World.
Variable sleep : Z -> World -> World.

Variable self : DingTalkNotifier.

(** One attempt of [send] in the world [w]: the clock is read, the URL
    is signed for that time, and the payload is posted to it. The URL,
    what the post met and the world it left; [None] when the URL
    cannot be built. *)
Definition attempt (payload : message) (w : World)
  : option (str * post_outcome * World) :=
  let (timestamp, w1) := time_ms w in
  match build_webhook_url self timestamp with
  | Returned url =>
      let (outcome, w2) := post url payload w1 in Some (url, outcome, w2)
  | Raised _ => None
  end.

Variable key : bytes.
Hypothesis secret_encodes : codecs.utf_8_encode (secret self) = Some key.

Lemma attempt_made :
  forall payload w, exists url outcome w', attempt payload w = Some (url, outcome, w').
Proof.
  intros payload w. unfold attempt. destruct (time_ms w) as [timestamp w1].
  destruct (build_webhook_url_returns self key timestamp secret_encodes) as [url Hurl].
  rewrite Hurl. destruct (post url payload w1) as [outcome w2].
  now exists url, outcome, w2.
Qed.

(** One turn of the loop, by what the post met. *)
Lemma send_attempts_step :
  forall payload attempt_no rest backoff w url outcome w1,
    attempt payload w = Some (url, outcome, w1) ->
    send_attempts World time_ms post sleep self payload (attempt_no :: rest) backoff w =
    let '(r, w', events) :=
      if retried outcome then
        if attempt_no <? MAX_RETRIES - 1 then
          let '(r, w', events) :=
            send_attempts World time_ms post sleep self payload rest
                          (backoff * 2) (sleep backoff w1) in
          (r, w', Sleep backoff :: events)
        else send_attempts World time_ms post sleep self payload rest backoff w1
      else (verdict outcome, w1, []) in
    (r, w', Post url payload outcome :: events).
Proof.
  intros payload attempt_no rest backoff w url outcome w1 Hattempt.
  cbn [send_attempts]. unfold attempt in Hattempt.
  destruct (time_ms w) as [timestamp w0].
  destruct (build_webhook_url self timestamp) as [u|e]; [|discriminate].
  destruct (post u payload w0) as [o w2]. inversion Hattempt; subst; clear Hattempt.
  destruct outcome as [[[|p|p]|]|e]; cbn [retried verdict]; try reflexivity.
  destruct (isinstance e RequestException); reflexivity.
Qed.

Lemma send_attempts_policy :
  forall payload w,
  exists u1 o1 w1,
    attempt payload w = Some (u1, o1, w1)
    /\ if retried o1 then
         exists u2 o2 w2,
           attempt payload (sleep 1 w1) = Some (u2, o2, w2)
           /\ if retried o2 then
                exists u3 o3 w3,
                  attempt payload (sleep 2 w2) = Some (u3, o3, w3)
                  /\ send_attempts World time_ms post sleep self payload [0; 1; 2] 1 w
                     = (if retried o3 then Returned false else verdict o3, w3,
                        [Post u1 payload o1; Sleep 1; Post u2 payload o2; Sleep 2;
                         Post u3 payload o3])
              else
                send_attempts World time_ms post sleep self payload [0; 1; 2] 1 w
                = (verdict o2, w2, [Post u1 payload o1; Sleep 1; Post u2 payload o2])
       else
         send_attempts World time_ms post sleep self payload [0; 1; 2] 1 w
         = (verdict o1, w1, [Post u1 payload o1]).
Proof.
  intros payload w.
  destruct (attempt_made payload w) as (u1 & o1 & w1 & H1).
  exists u1, o1, w1. split; [exact H1|].
  rewrite (send_attempts_step payload 0 [1; 2] 1 w u1 o1 w1 H1).
  destruct (retried o1) eqn:R1; [|reflexivity].
  change (0 <? MAX_RETRIES - 1) with true. cbv iota.
  destruct (attempt_made payload (sleep 1 w1)) as (u2 & o2 & w2 & H2).
  exists u2, o2, w2. split; [exact H2|].
  rewrite (send_attempts_step payload 1 [2] (1 * 2) (sleep 1 w1) u2 o2 w2 H2).
  destruct (retried o2) eqn:R2; [|reflexivity].
  change (1 <? MAX_RETRIES - 1) with true. cbv iota. change (1 * 2) with 2.
  destruct (attempt_made payload (sleep 2 w2)) as (u3 & o3 & w3 & H3).
  exists u3, o3, w3. split; [exact H3|].
  rewrite (send_attempts_step payload 2 [] (2 * 2) (sleep 2 w2) u3 o3 w3 H3).
  change (2 <? MAX_RETRIES - 1) with false. cbv iota.
  cbn [send_attempts]. now destruct (retried o3).
Qed.

End SendFacts.

Lemma verdict_false_retried :
  forall o, verdict o = Returned false -> retried o = true.
Proof.
  intros [[[|p|p]|]|e]; cbn [verdict retried]; try reflexivity; try discriminate.
  destruct (isinstance e RequestException); [reflexivity | discriminate].
Qed.

(** C2. [send] makes at most three attempts, each in the world the one
    before has left. After an attempt that met a transport exception
    or an application code other than 0 it sleeps and tries again: 1
    second after the first attempt, 2 after the second, and it does
    not sleep after the third, whose world is the one it returns in.
    It answers [False] only when three attempts were made and all met
    such an outcome, and it answers [True] at the first attempt whose
    code is 0, in the world that post has left: no sleep and no
    further attempt. (A secret without a UTF-8 encoding makes the
    first signature raise, before any attempt.) *)
Theorem send_retry_policy :
  forall (World : Type) (time_ms : World -> Z * World)
         (post : str -> dingtalk_notifier.message -> World
                 -> dingtalk_notifier.post_outcome * World)
         (sleep : Z -> World -> World)
         (self : dingtalk_notifier.DingTalkNotifier) (email : Email) (w : World),
    let payload := fst (dingtalk_notifier.format_message self email) in
    let run := dingtalk_notifier.send World time_ms post sleep self email w in
    let attempt := attempt World time_ms post self payload in
    let Post := dingtalk_notifier.Post in
    let Sleep := dingtalk_notifier.Sleep in
    match codecs.utf_8_encode (dingtalk_notifier.secret self) with
    | None => run = (Raised UnicodeEncodeError, snd (time_ms w), [])
    | Some _ =>
        (exists u1 o1 w1,
            attempt w = Some (u1, o1, w1)
            /\ if retried o1 then
                 exists u2 o2 w2,
                   attempt (sleep 1 w1) = Some (u2, o2, w2)
                   /\ if retried o2 then
                        exists u3 o3 w3,
                          attempt (sleep 2 w2) = Some (u3, o3, w3)
                          /\ run = (if retried o3 then Returned false else verdict o3,
                                    w3,
                                    [Post u1 payload o1; Sleep 1; Post u2 payload o2;
                                     Sleep 2; Post u3 payload o3])
                      else
                        run = (verdict o2, w2,
                               [Post u1 payload o1; Sleep 1; Post u2 payload o2])
               else run = (verdict o1, w1, [Post u1 payload o1]))
        /\ (fst (fst run) = Returned false ->
            exists u1 o1 w1 u2 o2 w2 u3 o3,
              attempt w = Some (u1, o1, w1)
              /\ attempt (sleep 1 w1) = Some (u2, o2, w2)
              /\ attempt (sleep 2 w2) = Some (u3, o3, snd (fst run))
              /\ retried o1 = true /\ retried o2 = true /\ retried o3 = true)
        /\ (forall u1 w1,
              attempt w = Some (u1, dingtalk_notifier.Responded (Some 0), w1) ->
              run = (Returned true, w1,
                     [Post u1 payload (dingtalk_notifier.Responded (Some 0))]))
    end.
Proof.
  intros World time_ms post sleep self email w. cbv zeta.
  destruct (codecs.utf_8_encode (dingtalk_notifier.secret self)) as [key|] eqn:Hkey.
  - unfold dingtalk_notifier.send.
    destruct (dingtalk_notifier.format_message self email) as [payload email'].
    cbn [fst].
    change (map Z.of_nat (seq 0 (Z.to_nat dingtalk_notifier.MAX_RETRIES)))
      with [0; 1; 2].
    change dingtalk_notifier.INITIAL_BACKOFF with 1.
    destruct (send_attempts_policy World time_ms post sleep self key Hkey payload w)
      as (u1 & o1 & w1 & H1 & Hrest).
    split; [|split].
    + exists u1, o1, w1. split; [exact H1 | exact Hrest].
    + intros Hfalse.
      destruct (retried o1) eqn:R1.
      2:{ rewrite Hrest in Hfalse. cbn [fst] in Hfalse.
          apply verdict_false_retried in Hfalse. congruence. }
      destruct Hrest as (u2 & o2 & w2 & H2 & Hrest).
      destruct (retried o2) eqn:R2.
      2:{ rewrite Hrest in Hfalse. cbn [fst] in Hfalse.
          apply verdict_false_retried in Hfalse. congruence. }
      destruct Hrest as (u3 & o3 & w3 & H3 & Hrun).
      rewrite Hrun in Hfalse |- *. cbn [fst snd] in Hfalse |- *.
      exists u1, o1, w1, u2, o2, w2, u3, o3. repeat split; auto.
      destruct (retried o3) eqn:R3; [reflexivity|].
      apply verdict_false_retried in Hfalse. congruence.
    + intros u w2 Hzero. rewrite Hzero in H1. inversion H1; subst.
      exact Hrest.
  - unfold dingtalk_notifier.send.
    destruct (dingtalk_notifier.format_message self email) as [payload email'].
    change (map Z.of_nat (seq 0 (Z.to_nat dingtalk_notifier.MAX_RETRIES)))
      with [0; 1; 2].
    cbn [dingtalk_notifier.send_attempts].
    destruct (time_ms w) as [timestamp w1]. cbn [snd].
    unfold dingtalk_notifier.build_webhook_url, dingtalk_notifier.generate_sign,
      dingtalk_notifier.encode_utf_8, bind.
    rewrite Hkey. reflexivity.
Qed.

(** Three attempts that all fail, on a webhook that refuses every
    connection: three posts, 1 and 2 seconds slept between them and
    none after the third, and the answer [False]. And a run that meets
    a refused connection, then an application error, then a success:
    the answer [True] after the same sleeps. *)
Definition refused_send : result bool * counted * list dingtalk_notifier.send_event :=
  dingtalk_notifier.send counted counted_time counted_post counted_sleep
                         sample_notifier sample_email (mkCounted [] 0 []).

Definition sample_send : result bool * counted * list dingtalk_notifier.send_event :=
  dingtalk_notifier.send counted counted_time counted_post counted_sleep
    sample_notifier sample_email
    (mkCounted [dingtalk_notifier.PostRaised RequestException;
                dingtalk_notifier.Responded (Some 310000);
                dingtalk_notifier.Responded (Some 0)] 0 []).

Lemma send_retry_policy_example :
  fst refused_send = (Returned false, mkCounted [] 3 [1; 2])
  /\ fst sample_send = (Returned true, mkCounted [] 3 [1; 2])
  /\ exists u1 o1 w1 u2 o2 w2 u3 o3,
      attempt counted counted_time counted_post sample_notifier
              (fst (dingtalk_notifier.format_message sample_notifier sample_email))
              (mkCounted [] 0 [])
      = Some (u1, o1, w1)
      /\ attempt counted counted_time counted_post sample_notifier
                 (fst (dingtalk_notifier.format_message sample_notifier sample_email))
                 (counted_sleep 1 w1)
         = Some (u2, o2, w2)
      /\ attempt counted counted_time counted_post sample_notifier
                 (fst (dingtalk_notifier.format_message sample_notifier sample_email))
                 (counted_sleep 2 w2)
         = Some (u3, o3, snd (fst refused_send))
      /\ retried o1 = true /\ retried o2 = true /\ retried o3 = true.
Proof.
  assert (Hrun : fst refused_send = (Returned false, mkCounted [] 3 [1; 2]))
    by (vm_compute; reflexivity).
  split; [exact Hrun|]. split; [vm_compute; reflexivity|].
  pose proof (send_retry_policy counted counted_time counted_post counted_sleep
                sample_notifier sample_email (mkCounted [] 0 [])) as Hpolicy.
  cbv zeta in Hpolicy.
  change (codecs.utf_8_encode (dingtalk_notifier.secret sample_notifier))
    with (Some (map codecs.byte_of_N (lit "SECabc"))) in Hpolicy.
  cbv iota in Hpolicy. destruct Hpolicy as (_ & Hfalse & _).
  apply Hfalse. fold refused_send. now rewrite Hrun.
Defined.








(** ** The payload (dingtalk_notifier.py) *)

(** C7. The text of the payload ends with the body of the message when
    it has at most 2000 characters, and with its first 2000 characters
    and the truncation marker when it has more; the message object is
    the same after the call, its body included. *)
Theorem format_message_truncates_body :
  forall (self : dingtalk_notifier.DingTalkNotifier) (email : Email),
    let payload := fst (dingtalk_notifier.format_message self email) in
    let text := dingtalk_notifier.text (dingtalk_notifier.markdown_ payload) in
    ((2000 < List.length (body email))%nat ->
       text = dingtalk_notifier.markdown_head email
              ++ firstn 2000 (body email) ++ dingtalk_notifier.truncation_marker
       /\ List.length (firstn 2000 (body email)) = 2000%nat)
    /\ ((List.length (body email) <= 2000)%nat ->
          text = dingtalk_notifier.markdown_head email ++ body email)
    /\ snd (dingtalk_notifier.format_message self email) = email
    /\ body (snd (dingtalk_notifier.format_message self email)) = body email.
Proof.
  intros self email. cbv zeta. unfold dingtalk_notifier.format_message.
  cbn [fst snd dingtalk_notifier.text dingtalk_notifier.markdown_].
  repeat split.
  - destruct (Nat.ltb_spec 2000 (List.length (body email))); [reflexivity | lia].
  - rewrite length_firstn. lia.
  - intros Hle.
    destruct (Nat.ltb_spec 2000 (List.length (body email))); [lia | reflexivity].
Qed.

Definition long_email : Email :=
  mkEmail (lit "9") (lit "long") (lit "a@b") (lit "d") (repeat 97%N 2001).

Lemma format_message_truncates_long_email :
  (2000 < List.length (body long_email))%nat
  /\ dingtalk_notifier.text (dingtalk_notifier.markdown_
       (fst (dingtalk_notifier.format_message sample_notifier long_email)))
     = dingtalk_notifier.markdown_head long_email
       ++ repeat 97%N 2000 ++ dingtalk_notifier.truncation_marker
  /\ body (snd (dingtalk_notifier.format_message sample_notifier long_email))
     = repeat 97%N 2001.
Proof.
  assert (Hlong : (2000 < List.length (body long_email))%nat)
    by (vm_compute; reflexivity).
  split; [exact Hlong|].
  pose proof (format_message_truncates_body sample_notifier long_email) as H.
  cbv zeta in H. destruct H as (Hcut & _ & _ & Hbody).
  split.
  - rewrite (proj1 (Hcut Hlong)). reflexivity.
  - exact Hbody.
Defined.


(** ** Connecting (email_fetcher.py) *)


Definition sample_fetcher : email_fetcher.EmailFetcher :=
  email_fetcher.mkFetcher (lit "imap.163.com") (lit "me@163.com") (lit "code").

Section ConnectFacts.

Import email_fetcher.

Variable World : Type.
Variable IMAP4_SSL : str -> World -> result unit * World.
Variable id_command : World -> result unit * World.
Variable login : str -> str -> World -> result unit * World.
Variable select : str -> World -> result (str * str) * World.
Variable list_folders : World -> result unit * World.


End ConnectFacts.




(** ** The codecs undo their encoding *)

Ltac Zify.zify_post_hook ::= Z.to_euclidean_division_equations.

Lemma in_range_true :
  forall lo hi n : N, (lo <= n)%N -> (n <= hi)%N -> codecs.in_range lo hi n = true.
Proof.
  intros lo hi n H1 H2. unfold codecs.in_range. apply andb_true_iff.
  split; now apply N.leb_le.
Qed.

Lemma in_range_false :
  forall lo hi n : N, (n < lo)%N \/ (hi < n)%N -> codecs.in_range lo hi n = false.
Proof.
  intros lo hi n H. unfold codecs.in_range. apply andb_false_iff.
  destruct H; [left | right]; now apply N.leb_gt.
Qed.

(** Settle the tests of a decoder on a value known up to linear
    arithmetic. *)
Ltac settle_test b :=
  lazymatch b with
  | N.ltb _ _ =>
      first [ replace b with true by (symmetry; apply N.ltb_lt; lia)
            | replace b with false by (symmetry; apply N.ltb_ge; lia) ]
  | N.eqb ?x ?y =>
      first [ replace b with true by (symmetry; apply N.eqb_eq; lia)
            | replace b with false by (symmetry; apply N.eqb_neq; lia)
            | destruct (N.eqb_spec x y) ]
  | codecs.in_range _ _ _ =>
      first [ replace b with true by (symmetry; apply in_range_true; lia)
            | replace b with false by (symmetry; apply in_range_false; lia) ]
  end.

Ltac read_bytes :=
  repeat rewrite to_N_byte_of_N by lia.

Ltac settle_tests :=
  repeat first
    [ progress read_bytes
    | match goal with
      | |- context [if ?b then _ else _] => settle_test b; cbv beta iota
      end ].

Section RoundTrips.

Import codecs.
Local Open Scope N_scope.

Lemma ascii_round_trip :
  forall text bs, ascii_encode text = Some bs -> ascii_decode bs = Some text.
Proof.
  induction text as [|c text IH]; intros bs Henc; simpl in Henc.
  - now inversion Henc.
  - destruct (N.ltb_spec c 128) as [Hc|]; [|discriminate].
    destruct (ascii_encode text) as [bs'|]; [|discriminate].
    inversion Henc; subst. simpl.
    rewrite to_N_byte_of_N by lia.
    destruct (N.ltb_spec c 128); [|lia].
    now rewrite (IH bs').
Qed.

Lemma latin_1_round_trip :
  forall text bs, latin_1_encode text = Some bs -> latin_1_decode bs = text.
Proof.
  induction text as [|c text IH]; intros bs Henc; simpl in Henc.
  - now inversion Henc.
  - destruct (N.ltb_spec c 256) as [Hc|]; [|discriminate].
    destruct (latin_1_encode text) as [bs'|]; [|discriminate].
    inversion Henc; subst. simpl.
    rewrite to_N_byte_of_N by lia. now rewrite (IH bs').
Qed.

(** The decoder reads back one encoded code point and stops where its
    bytes end. *)
Lemma utf_8_next_encode_char :
  forall c cs rest,
    utf_8_encode_char c = Some cs ->
    exists b0 tail,
      cs ++ rest = b0 :: tail /\ utf_8_next b0 tail = Scalar c rest.
Proof.
  intros c cs rest Henc. unfold utf_8_encode_char in Henc.
  destruct (N.ltb_spec c 0x80) as [H1|H1].
  { injection Henc as <-. exists (byte_of_N c), rest. split; [reflexivity|].
    unfold utf_8_next. cbv zeta. read_bytes. settle_tests. reflexivity. }
  destruct (N.ltb_spec c 0x800) as [H2|H2].
  { injection Henc as <-.
    exists (byte_of_N (0xC0 + c / 64)), (byte_of_N (0x80 + c mod 64) :: rest).
    split; [reflexivity|].
    unfold utf_8_next, continuation. cbv zeta. read_bytes.
    settle_tests; first [lia | f_equal; lia]. }
  unfold is_surrogate, is_code_point in Henc.
  destruct (in_range 0xD800 0xDFFF c) eqn:Hs; [discriminate|].
  assert (Hsur : c < 0xD800 \/ 0xDFFF < c).
  { unfold in_range in Hs. apply andb_false_iff in Hs.
    destruct Hs as [Hs|Hs]; apply N.leb_gt in Hs; auto. }
  clear Hs.
  destruct (N.ltb_spec c 0x10000) as [H3|H3].
  { injection Henc as <-.
    exists (byte_of_N (0xE0 + c / 4096)),
           (byte_of_N (0x80 + (c / 64) mod 64) :: byte_of_N (0x80 + c mod 64) :: rest).
    split; [reflexivity|].
    unfold utf_8_next, continuation. cbv zeta. read_bytes.
    settle_tests; first [lia | f_equal; lia]. }
  destruct (N.leb_spec c 0x10FFFF) as [H4|H4]; [|discriminate].
  injection Henc as <-.
  exists (byte_of_N (0xF0 + c / 262144)),
         (byte_of_N (0x80 + (c / 4096) mod 64) :: byte_of_N (0x80 + (c / 64) mod 64)
          :: byte_of_N (0x80 + c mod 64) :: rest).
  split; [reflexivity|].
  unfold utf_8_next, continuation. cbv zeta. read_bytes.
  settle_tests; first [lia | f_equal; lia].
Qed.

Lemma utf_8_encode_char_length :
  forall c cs, utf_8_encode_char c = Some cs -> (1 <= List.length cs)%nat.
Proof.
  intros c cs H. unfold utf_8_encode_char in H.
  repeat match type of H with
         | (if ?b then _ else _) = _ => destruct b
         end; inversion H; subst; simpl; lia.
Qed.

Lemma utf_8_round_trip_fuel :
  forall text bs fuel,
    utf_8_encode text = Some bs ->
    (List.length bs <= fuel)%nat ->
    utf_8_decode_fuel fuel bs = Some text.
Proof.
  induction text as [|c text IH]; intros bs fuel Henc Hfuel; simpl in Henc.
  - inversion Henc; subst. now destruct fuel.
  - destruct (utf_8_encode_char c) as [cs|] eqn:Hc; [|discriminate].
    destruct (utf_8_encode text) as [bs'|] eqn:Ht; [|discriminate].
    inversion Henc; subst.
    pose proof (utf_8_encode_char_length c cs Hc) as Hlen.
    destruct (utf_8_next_encode_char c cs bs' Hc) as (b0 & tail & Heq & Hnext).
    rewrite length_app in Hfuel. rewrite Heq.
    destruct fuel as [|fuel]; [lia|]. simpl.
    rewrite Hnext. rewrite (IH bs' fuel eq_refl) by lia. reflexivity.
Qed.

Lemma utf_8_round_trip :
  forall text bs, utf_8_encode text = Some bs -> utf_8_decode bs = Some text.
Proof.
  intros text bs H. unfold utf_8_decode. now apply utf_8_round_trip_fuel.
Qed.

Lemma lawful_utf_8 : encodings.lawful encodings.utf_8.
Proof. split; [reflexivity | exact utf_8_round_trip]. Qed.

Lemma lawful_ascii : encodings.lawful encodings.ascii.
Proof. split; [reflexivity | exact ascii_round_trip]. Qed.

Lemma lawful_latin_1 : encodings.lawful encodings.latin_1.
Proof.
  split; [reflexivity|]. intros text bs H. simpl.
  now rewrite (latin_1_round_trip text bs H).
Qed.

Lemma lawful_ascii_range_cjk : encodings.lawful_cjk encodings.ascii_range_cjk.
Proof. repeat split; try exact ascii_round_trip. Qed.

End RoundTrips.


(** ** The content decoder (email_parser.py) *)

(** A strict decode by a text codec: the text, or [UnicodeDecodeError]. *)
Definition strict_decode (c : encodings.Codec) (content : bytes) : result str :=
  match encodings.decode c content with
  | Some text => Returned text
  | None => Raised UnicodeDecodeError
  end.

Definition strict_encode (c : encodings.Codec) (text : str) : result bytes :=
  match encodings.encode c text with
  | Some bs => Returned bs
  | None => Raised UnicodeEncodeError
  end.

(** The codec behind each name of [SUPPORTED_ENCODINGS]. *)
Definition supported_codec (cjk : encodings.CJK) (i : nat) : encodings.Codec :=
  match i with
  | 0%nat => encodings.utf_8
  | 1%nat => encodings.gbk cjk
  | 2%nat => encodings.gb2312 cjk
  | 3%nat => encodings.gb18030 cjk
  | 4%nat => encodings.latin_1
  | _ => encodings.ascii
  end.

Section DecoderFacts.

Import email_parser.

Variable cjk : encodings.CJK.

Lemma supported_names :
  forall name, In name SUPPORTED_ENCODINGS ->
  exists i, (i < 6)%nat /\ nth_error SUPPORTED_ENCODINGS i = Some name
    /\ (forall content,
          encodings.bytes_decode cjk content name
          = strict_decode (supported_codec cjk i) content)
    /\ (forall text,
          encodings.str_encode cjk text name
          = strict_encode (supported_codec cjk i) text).
Proof.
  intros name Hin. unfold SUPPORTED_ENCODINGS in Hin. simpl in Hin.
  destruct Hin as [<-|[<-|[<-|[<-|[<-|[<-|[]]]]]]];
    [exists 0%nat|exists 1%nat|exists 2%nat|exists 3%nat|exists 4%nat|exists 5%nat];
    (split; [lia|]); (split; [reflexivity|]); split; intros; reflexivity.
Qed.

(** A strict decode by a text codec settles an attempt only by
    returning. *)
Lemma try_decode_text_codec :
  forall c content encoding r,
    (forall bs, encodings.bytes_decode cjk bs encoding = strict_decode c bs) ->
    try_decode (encodings.bytes_decode cjk) content encoding = Some r ->
    exists text, encodings.decode c content = Some text /\ r = Returned text.
Proof.
  intros c content encoding r Hname Htry. unfold try_decode in Htry.
  rewrite Hname in Htry. unfold strict_decode in Htry.
  destruct (encodings.decode c content) as [text|]; simpl in Htry.
  - inversion Htry; subst. now exists text.
  - discriminate.
Qed.

(** From ISO-8859-1 on, the loop is over: that codec reads every byte
    string. *)
Lemma decode_supported_latin_1 :
  forall content rest,
    decode_supported (encodings.bytes_decode cjk) content (lit "iso-8859-1" :: rest)
    = (FromSupported (lit "iso-8859-1"), Returned (codecs.latin_1_decode content)).
Proof. intros content rest. reflexivity. Qed.

(** One name of the list whose codec is [c]: the attempt returns, or
    the loop goes on. *)
Ltac attempt_with c :=
  match goal with
  | |- context [try_decode ?d ?content ?name] =>
      let Ht := fresh "Ht" in
      let r := fresh "r" in
      let text := fresh "text" in
      destruct (try_decode d content name) as [r|] eqn:Ht;
      [ destruct (try_decode_text_codec c content name r (fun bs => eq_refl) Ht)
          as (text & _ & ->);
        exists name, text; split; [reflexivity | simpl; tauto]
      | ]
  end.

(** The loop over [SUPPORTED_ENCODINGS] returns at one of its first
    five names. *)
Lemma decode_supported_settles :
  forall content,
  exists encoding text,
    decode_supported (encodings.bytes_decode cjk) content SUPPORTED_ENCODINGS
    = (FromSupported encoding, Returned text)
    /\ In encoding (firstn 5 SUPPORTED_ENCODINGS).
Proof.
  intros content. unfold SUPPORTED_ENCODINGS. cbn [decode_supported firstn].
  attempt_with encodings.utf_8.
  attempt_with (encodings.gbk cjk).
  attempt_with (encodings.gb2312 cjk).
  attempt_with (encodings.gb18030 cjk).
  exists (lit "iso-8859-1"), (codecs.latin_1_decode content).
  split; [reflexivity | simpl; tauto].
Qed.

(** What [decode_content] does with its declared charset: nothing when
    the content is empty or no charset is declared. *)
Lemma decode_content_from_cases :
  forall content charset,
    (content = [] /\
     decode_content_from (encodings.bytes_decode cjk) content charset
     = (FromEmpty, Returned []))
    \/ (content <> [] /\
        exists encoding r,
          charset = Some encoding /\ encoding <> [] /\
          try_decode (encodings.bytes_decode cjk) content encoding = Some r /\
          decode_content_from (encodings.bytes_decode cjk) content charset
          = (FromDeclared, r))
    \/ (content <> [] /\
        decode_content_from (encodings.bytes_decode cjk) content charset
        = decode_supported (encodings.bytes_decode cjk) content SUPPORTED_ENCODINGS).
Proof.
  intros content charset. destruct content as [|b content].
  - left. split; reflexivity.
  - right. unfold decode_content_from.
    destruct charset as [[|c cs]|].
    + right. split; [discriminate | reflexivity].
    + destruct (try_decode (encodings.bytes_decode cjk) (b :: content) (c :: cs))
        as [r|] eqn:Ht.
      * left. split; [discriminate|]. exists (c :: cs), r.
        repeat split; auto. discriminate.
      * right. split; [discriminate | reflexivity].
    + right. split; [discriminate | reflexivity].
Qed.

End DecoderFacts.

(** C10. Whatever the content and the declared charset, the value of
    [decode_content] is never the UTF-8 decode with replacement
    characters: when the content is not empty and the declared charset
    does not settle the call, the loop over [SUPPORTED_ENCODINGS]
    returns at one of its first five names, ISO-8859-1 at the latest,
    which reads every byte string. *)
Theorem decode_content_replace_unreachable :
  forall (cjk : encodings.CJK) (content : bytes) (charset : option str),
    let run := email_parser.decode_content_from (encodings.bytes_decode cjk)
                                               content charset in
    fst run <> email_parser.FromReplace
    /\ (forall bs, encodings.bytes_decode cjk bs (lit "iso-8859-1")
                   = Returned (codecs.latin_1_decode bs))
    /\ (content <> [] ->
        fst run = email_parser.FromDeclared
        \/ exists encoding text,
             run = (email_parser.FromSupported encoding, Returned text)
             /\ In encoding (firstn 5 email_parser.SUPPORTED_ENCODINGS)).
Proof.
  intros cjk content charset. cbv zeta.
  destruct (decode_content_from_cases cjk content charset)
    as [(-> & Hrun)|[(Hne & enc & r & _ & _ & _ & Hrun)|(Hne & Hrun)]];
    rewrite Hrun.
  - repeat split; [discriminate | tauto].
  - repeat split; [discriminate | now left].
  - destruct (decode_supported_settles cjk content) as (enc & text & Hloop & Hin).
    rewrite Hloop. repeat split; [discriminate|].
    intros _. right. now exists enc, text.
Qed.

(** C3, at the input where it fails. The charset [undefined] names a
    codec of the runtime whose decoder raises [UnicodeError]; that is
    neither a [UnicodeDecodeError] nor a [LookupError], so the first
    [except] of [decode_content] lets it through and the call raises.
    A charset with a NUL character ([ValueError]) or a lone surrogate
    ([UnicodeEncodeError]) ends the same way. *)
Theorem decode_content_undefined_charset_raises :
  forall cjk : encodings.CJK,
    email_parser.decode_content (encodings.bytes_decode cjk) [x61]
                                (Some (lit "undefined"))
    = Raised UnicodeError
    /\ isinstance_any UnicodeError [UnicodeDecodeError; LookupError] = false
    /\ email_parser.decode_content (encodings.bytes_decode cjk) [x61]
                                   (Some (lit "utf-8" ++ [0%N]))
       = Raised ValueError
    /\ email_parser.decode_content (encodings.bytes_decode cjk) [x61]
                                   (Some [0xDCFF%N])
       = Raised UnicodeEncodeError.
Proof. intros cjk. repeat split. Qed.

(** What does hold: the call returns text whenever the declared charset
    is absent, or its decode returns or raises one of the two
    exceptions the source catches. *)
Lemma decode_content_returns_when_caught :
  forall (cjk : encodings.CJK) (content : bytes) (charset : option str),
    (forall encoding e,
        charset = Some encoding ->
        encodings.bytes_decode cjk content encoding = Raised e ->
        isinstance_any e [UnicodeDecodeError; LookupError] = true) ->
    exists text,
      email_parser.decode_content (encodings.bytes_decode cjk) content charset
      = Returned text.
Proof.
  intros cjk content charset Hcaught. unfold email_parser.decode_content.
  destruct (decode_content_from_cases cjk content charset)
    as [(-> & Hrun)|[(Hne & enc & r & Hcs & _ & Htry & Hrun)|(Hne & Hrun)]];
    rewrite Hrun.
  - now exists [].
  - unfold email_parser.try_decode in Htry.
    destruct (encodings.bytes_decode cjk content enc) as [text|e] eqn:Hdec.
    + inversion Htry; subst. now exists text.
    + rewrite (Hcaught enc e Hcs Hdec) in Htry. discriminate.
  - destruct (decode_supported_settles cjk content) as (enc & text & Hloop & _).
    rewrite Hloop. now exists text.
Qed.

(** C4. For each name C of [SUPPORTED_ENCODINGS] and each text that C
    can encode, [decode_content] with C declared gives the text back
    from its encoding. The GB codecs are taken to undo their own
    encoding, as the three modelled codecs are proved to. *)
Theorem decode_content_round_trip :
  forall (cjk : encodings.CJK) (C : str) (text : str) (bs : bytes),
    encodings.lawful_cjk cjk ->
    In C email_parser.SUPPORTED_ENCODINGS ->
    encodings.str_encode cjk text C = Returned bs ->
    email_parser.decode_content (encodings.bytes_decode cjk) bs (Some C)
    = Returned text.
Proof.
  intros cjk C text bs (Hgbk & Hgb2312 & Hgb18030) Hin Henc.
  destruct (supported_names cjk C Hin) as (i & Hi & Hnth & Hdec & Hencode).
  assert (Hlaw : encodings.lawful (supported_codec cjk i)).
  { destruct i as [|[|[|[|[|[|i]]]]]]; simpl;
      auto using lawful_utf_8, lawful_latin_1, lawful_ascii. }
  destruct Hlaw as [Hempty Hround].
  rewrite Hencode in Henc. unfold strict_encode in Henc.
  destruct (encodings.encode (supported_codec cjk i) text) as [bs'|] eqn:He;
    [|discriminate].
  inversion Henc; subst bs'. pose proof (Hround text bs He) as Hback.
  unfold email_parser.decode_content.
  destruct bs as [|b bs].
  - rewrite Hempty in Hback. inversion Hback; subst. reflexivity.
  - unfold email_parser.decode_content_from.
    assert (HC : exists c cs, C = c :: cs).
    { destruct C as [|c cs]; [|now eexists _, _].
      exfalso. unfold email_parser.SUPPORTED_ENCODINGS in Hin. simpl in Hin.
      repeat (destruct Hin as [Hin|Hin]; [discriminate Hin|]). exact Hin. }
    destruct HC as (c & cs & ->).
    unfold email_parser.try_decode. rewrite Hdec. unfold strict_decode.
    rewrite Hback. reflexivity.
Qed.

(** The six round trips on a text of some Chinese and an emoji (UTF-8)
    and on ASCII text, with the GB codecs cut down to their ASCII
    range. *)
Lemma decode_content_round_trip_examples :
  encodings.str_encode encodings.ascii_range_cjk
    [0x4f60; 0x597d; 0x1f4e7; 0x41]%N (lit "utf-8")
  = Returned (map codecs.byte_of_N
                [0xe4; 0xbd; 0xa0; 0xe5; 0xa5; 0xbd; 0xf0; 0x9f; 0x93; 0xa7; 0x41]%N)
  /\ email_parser.decode_content (encodings.bytes_decode encodings.ascii_range_cjk)
       (map codecs.byte_of_N
            [0xe4; 0xbd; 0xa0; 0xe5; 0xa5; 0xbd; 0xf0; 0x9f; 0x93; 0xa7; 0x41]%N)
       (Some (lit "utf-8"))
     = Returned [0x4f60; 0x597d; 0x1f4e7; 0x41]%N.
Proof.
  assert (Henc : encodings.str_encode encodings.ascii_range_cjk
                   [0x4f60; 0x597d; 0x1f4e7; 0x41]%N (lit "utf-8")
                 = Returned (map codecs.byte_of_N
                     [0xe4; 0xbd; 0xa0; 0xe5; 0xa5; 0xbd; 0xf0; 0x9f; 0x93; 0xa7; 0x41]%N))
    by (vm_compute; reflexivity).
  split; [exact Henc|].
  apply (decode_content_round_trip encodings.ascii_range_cjk (lit "utf-8")
           [0x4f60; 0x597d; 0x1f4e7; 0x41]%N _ lawful_ascii_range_cjk).
  - simpl. tauto.
  - exact Henc.
Defined.


(** ** Serialization of a message (models.py) *)

Section JsonFacts.

Import json.
Local Open Scope N_scope.

Lemma hex_value_hex_lower : forall d, d < 16 -> hex_value (hex_lower d) = Some d.
Proof.
  intros d Hd. unfold hex_value, hex_lower.
  destruct (N.ltb_spec d 10); settle_tests; f_equal; lia.
Qed.

(** [scanstring] reads one escaped character back. *)
Lemma scanstring_escape_char :
  forall c rest, scanstring (escape_char c ++ rest) = prepend c (scanstring rest).
Proof.
  intros c rest. unfold escape_char.
  destruct (N.eqb_spec c 34) as [->|H34]; [reflexivity|].
  destruct (N.eqb_spec c 92) as [->|H92]; [reflexivity|].
  destruct (N.eqb_spec c 10) as [->|H10]; [reflexivity|].
  destruct (N.eqb_spec c 13) as [->|H13]; [reflexivity|].
  destruct (N.eqb_spec c 9) as [->|H9]; [reflexivity|].
  destruct (N.eqb_spec c 8) as [->|H8]; [reflexivity|].
  destruct (N.eqb_spec c 12) as [->|H12]; [reflexivity|].
  destruct (N.ltb_spec c 32) as [Hlow|Hhigh].
  - cbn [app scanstring N.eqb Pos.eqb]. unfold hex4.
    change (hex_value 48) with (Some 0).
    rewrite !hex_value_hex_lower by lia.
    replace (((0 * 16 + 0) * 16 + c / 16) * 16 + c mod 16) with c by lia.
    settle_tests. reflexivity.
  - cbn [app scanstring]. settle_tests. reflexivity.
Qed.

Lemma scanstring_escaped :
  forall text rest,
    scanstring (concat (map escape_char text) ++ 34 :: rest) = Some (text, rest).
Proof.
  induction text as [|c text IH]; intros rest.
  - reflexivity.
  - cbn [map concat]. rewrite <- app_assoc, scanstring_escape_char, IH.
    reflexivity.
Qed.

Lemma scan_once_string :
  forall fuel text rest,
    scan_once (S fuel) (encode_basestring text ++ rest) = Some (String text, rest).
Proof.
  intros fuel text rest. unfold encode_basestring.
  cbn [app scan_once N.eqb Pos.eqb].
  rewrite <- app_assoc. cbn [app]. now rewrite scanstring_escaped.
Qed.

(** The pairs of an object as [dumps] writes them, after the opening
    quote of the first key. *)
Definition pairs_tail (k v : str) (items : list (str * str)) : str :=
  concat (map escape_char k) ++ [34] ++ lit ": " ++ encode_basestring v
  ++ match items with
     | [] => []
     | _ :: _ => lit ", " ++ dumps_items items
     end.

Lemma dumps_items_cons :
  forall k v items, dumps_items ((k, v) :: items) = 34 :: pairs_tail k v items.
Proof.
  intros k v items. unfold pairs_tail.
  destruct items as [|[k' v'] items]; cbn [dumps_items];
    unfold encode_basestring at 1; cbn [app];
    repeat rewrite <- app_assoc; cbn [app].
  - now rewrite app_nil_r.
  - reflexivity.
Qed.

Definition as_pairs (items : list (str * str)) : list (str * value) :=
  map (fun kv => (fst kv, String (snd kv))) items.

Lemma object_pairs_unfold :
  forall fuel s pairs,
    object_pairs (S fuel) s pairs =
    match scanstring s with
    | None => None
    | Some (key, s1) =>
        match skip_ws s1 with
        | c :: s2 =>
            if c =? 58 then
              match scan_once fuel (skip_ws s2) with
              | None => None
              | Some (v, s3) =>
                  match skip_ws s3 with
                  | d :: s4 =>
                      if d =? 125 then Some (Object (pairs ++ [(key, v)]), s4)
                      else if d =? 44 then
                        match skip_ws s4 with
                        | q :: s5 =>
                            if q =? 34
                            then object_pairs fuel s5 (pairs ++ [(key, v)])
                            else None
                        | [] => None
                        end
                      else None
                  | [] => None
                  end
              end
            else None
        | [] => None
        end
    end.
Proof. reflexivity. Qed.

Lemma skip_ws_quote :
  forall text rest,
    skip_ws (encode_basestring text ++ rest) = encode_basestring text ++ rest.
Proof. reflexivity. Qed.

Lemma object_pairs_dumps :
  forall items k v fuel pairs rest,
    (List.length items + 2 <= fuel)%nat ->
    object_pairs fuel (pairs_tail k v items ++ 125 :: rest) pairs
    = Some (Object (pairs ++ as_pairs ((k, v) :: items)), rest).
Proof.
  induction items as [|[k' v'] items IH]; intros k v fuel pairs rest Hfuel;
    (destruct fuel as [|[|fuel]]; [simpl in Hfuel; lia | simpl in Hfuel; lia|]);
    rewrite object_pairs_unfold; unfold pairs_tail;
    repeat rewrite <- app_assoc; cbn [app]; rewrite scanstring_escaped;
    change (lit ": " ++ ?x) with (58 :: 32 :: x);
    change (skip_ws (58 :: 32 :: ?x)) with (58 :: 32 :: x);
    change (58 =? 58) with true; cbv iota;
    change (skip_ws (32 :: ?x)) with (skip_ws x);
    rewrite skip_ws_quote, scan_once_string.
  - reflexivity.
  - change (lit ", " ++ ?x) with (44 :: 32 :: x).
    change (skip_ws (44 :: 32 :: ?x)) with (44 :: 32 :: x).
    change (44 =? 125) with false. change (44 =? 44) with true. cbv iota.
    change (skip_ws (32 :: ?x)) with (skip_ws x).
    rewrite dumps_items_cons. cbn [app skip_ws is_ws N.eqb Pos.eqb orb].
    rewrite IH by (simpl in Hfuel |- *; lia).
    unfold as_pairs. cbn [map fst snd]. now rewrite <- app_assoc.
Qed.

Lemma pairs_tail_length :
  forall items k v, (List.length items <= List.length (pairs_tail k v items))%nat.
Proof.
  induction items as [|[k' v'] items IH]; intros k v; [simpl; lia|].
  unfold pairs_tail. rewrite dumps_items_cons.
  repeat rewrite length_app. cbn [List.length]. specialize (IH k' v'). lia.
Qed.

(** [loads] reads back what [dumps] wrote for a dict of strings. *)
Lemma loads_dumps_str_dict :
  forall items,
    loads (dumps_str_dict items) = Some (Object (as_pairs items)).
Proof.
  intros items. unfold loads, dumps_str_dict.
  destruct items as [|[k v] items]; [reflexivity|].
  rewrite dumps_items_cons.
  cbn [app starts_with N.eqb Pos.eqb andb skip_ws is_ws orb].
  cbn [List.length]. rewrite length_app. cbn [List.length].
  set (tail := List.length (pairs_tail k v items)).
  replace (3 * S (S (tail + 1)) + 1)%nat with (S (S (S (3 * tail + 7)))) by lia.
  cbn [scan_once N.eqb Pos.eqb].
  change (JSONObject (S (S ?fuel)) (34 :: ?x)) with (object_pairs (S fuel) x []).
  rewrite object_pairs_dumps.
  - reflexivity.
  - pose proof (pairs_tail_length items k v). unfold tail. lia.
Qed.

End JsonFacts.

(** The fuel of the parser. *)
Section JsonFuel.

Import json.
Import codecs.
Local Open Scope N_scope.

Lemma skip_ws_length : forall s, (List.length (skip_ws s) <= List.length s)%nat.
Proof.
  induction s as [|c s IH]; [reflexivity|]. cbn [skip_ws].
  destruct (is_ws c); cbn [List.length]; lia.
Qed.

Lemma prepend_some :
  forall c r text rest,
    prepend c r = Some (text, rest) -> exists text', r = Some (text', rest).
Proof.
  intros c [[text' rest']|] text rest H; [|discriminate].
  cbn [prepend] in H. inversion H; subst. now exists text'.
Qed.

Lemma scanstring_length :
  forall n s text rest,
    (List.length s <= n)%nat ->
    scanstring s = Some (text, rest) -> (List.length rest < List.length s)%nat.
Proof.
  induction n as [|n IH]; intros s text rest Hn H.
  - destruct s; [discriminate | cbn [List.length] in Hn; lia].
  - destruct s as [|c s]; [discriminate|]. cbn [List.length] in Hn.
    assert (Hstep : forall c' s' t',
               (List.length s' <= n)%nat ->
               prepend c' (scanstring s') = Some (t', rest) ->
               (List.length rest < List.length s')%nat).
    { intros c' s' t' Hs' Hp. apply prepend_some in Hp. destruct Hp as [t'' Hp].
      now apply (IH s' t'' rest). }
    cbn [scanstring] in H.
    destruct (c =? 34).
    { inversion H; subst. cbn [List.length]. lia. }
    destruct (c =? 92).
    2:{ destruct (c <? 32); [discriminate|].
        apply Hstep in H; [cbn [List.length]; lia | lia]. }
    destruct s as [|esc s1]; [discriminate|]. cbn [List.length] in *.
    destruct (esc =? 117).
    2:{ destruct (backslash esc); [|discriminate].
        apply Hstep in H; [lia | lia]. }
    destruct s1 as [|h1 [|h2 [|h3 [|h4 s2]]]]; try discriminate.
    cbn [List.length] in *.
    destruct (hex4 h1 h2 h3 h4) as [uni|]; [|discriminate].
    destruct (in_range 55296 56319 uni).
    2:{ apply Hstep in H; [lia | lia]. }
    destruct s2 as [|b [|u tail]];
      try (apply Hstep in H; [cbn [List.length] in *; lia | cbn [List.length]; lia]).
    cbn [List.length] in *.
    destruct ((b =? 92) && (u =? 117)).
    2:{ apply Hstep in H; [cbn [List.length] in *; lia | cbn [List.length]; lia]. }
    destruct tail as [|g1 [|g2 [|g3 [|g4 s3]]]]; try discriminate.
    cbn [List.length] in *.
    destruct (hex4 g1 g2 g3 g4) as [uni2|]; [|discriminate].
    destruct (in_range 56320 57343 uni2).
    + apply Hstep in H; [lia | lia].
    + apply Hstep in H; [cbn [List.length] in *; lia | cbn [List.length]; lia].
Qed.

Lemma starts_with_length :
  forall p s, starts_with p s = true -> (List.length p <= List.length s)%nat.
Proof.
  induction p as [|a p IH]; intros s H; [cbn; lia|].
  destruct s as [|c s]; [discriminate|]. cbn [starts_with] in H.
  apply andb_true_iff in H. destruct H as [_ H]. apply IH in H.
  cbn [List.length]. lia.
Qed.

Lemma lit_length : forall name, List.length (lit name) = String.length name.
Proof.
  intros name. unfold lit. rewrite length_map.
  induction name as [|a name IH]; [reflexivity|]. cbn. now rewrite IH.
Qed.

Lemma constant_length :
  forall name v s v' rest,
    name <> EmptyString ->
    constant name v s = Some (v', rest) ->
    (List.length rest < List.length s)%nat.
Proof.
  intros name v s v' rest Hname H. unfold constant in H.
  destruct (starts_with (lit name) s) eqn:Hs; [|discriminate].
  inversion H; subst. apply starts_with_length in Hs. rewrite lit_length in Hs.
  rewrite length_skipn. destruct name; [congruence|]. cbn [String.length] in *. lia.
Qed.

Lemma span_digits_length :
  forall s ds rest,
    span_digits s = (ds, rest) ->
    List.length s = (List.length ds + List.length rest)%nat.
Proof.
  induction s as [|c s IH]; intros ds rest H; cbn [span_digits] in H.
  - now inversion H.
  - destruct (is_digit c).
    + destruct (span_digits s) as [ds0 r0]. inversion H; subst.
      cbn [List.length]. now rewrite (IH ds0 rest eq_refl).
    + now inversion H.
Qed.

Lemma match_number_length :
  forall s lexeme rest,
    match_number s = Some (lexeme, rest) ->
    (List.length rest < List.length s)%nat.
Proof.
  intros s lexeme rest H. unfold match_number in H.
  destruct (match_integer s) as [[i s1]|] eqn:Hi; [|discriminate].
  assert (H1 : (List.length s1 < List.length s)%nat).
  { unfold match_integer in Hi.
    assert (Hdigits : forall sign t,
               (List.length t <= List.length s)%nat ->
               match t with
               | c :: r =>
                   if c =? 48 then Some (sign ++ [48], r)
                   else if in_range 49 57 c
                        then let (ds, r') := span_digits r in Some (sign ++ c :: ds, r')
                        else None
               | [] => None
               end = Some (i, s1) ->
               (List.length s1 < List.length t)%nat).
    { intros sign [|c r] Ht Hm; [discriminate|]. cbn [List.length] in *.
      destruct (c =? 48); [inversion Hm; subst; lia|].
      destruct (in_range 49 57 c); [|discriminate].
      destruct (span_digits r) as [ds r'] eqn:Hspan. inversion Hm; subst.
      apply span_digits_length in Hspan. lia. }
    destruct s as [|c r]; [discriminate|].
    destruct (c =? 45).
    - apply (Hdigits [45] r) in Hi; cbn [List.length] in *; lia.
    - apply (Hdigits [] (c :: r)) in Hi; cbn [List.length] in *; lia. }
  destruct (match_frac s1) as [f s2] eqn:Hf.
  assert (H2 : (List.length s2 <= List.length s1)%nat).
  { unfold match_frac in Hf. destruct s1 as [|c r]; [now inversion Hf|].
    destruct (c =? 46); [|now inversion Hf].
    destruct (span_digits r) as [[|d ds] r'] eqn:Hspan; inversion Hf; subst;
      [lia|]. apply span_digits_length in Hspan. cbn [List.length] in *. lia. }
  destruct (match_exp s2) as [e s3] eqn:He. inversion H; subst.
  assert (H3 : (List.length rest <= List.length s2)%nat).
  { unfold match_exp in He. destruct s2 as [|c r]; [now inversion He|].
    destruct ((c =? 101) || (c =? 69)); [|now inversion He].
    assert (Hsign : forall sign r1,
               (List.length r1 <= List.length r)%nat ->
               (let (ds, r2) := span_digits r1 in
                match ds with
                | [] => ([], c :: r)
                | _ :: _ => (c :: sign ++ ds, r2)
                end) = (e, rest) ->
               (List.length rest <= List.length (c :: r))%nat).
    { intros sign r1 Hr1 Hm.
      destruct (span_digits r1) as [[|d ds] r2] eqn:Hspan; inversion Hm; subst;
        [lia|]. apply span_digits_length in Hspan. cbn [List.length] in *. lia. }
    destruct r as [|d r'].
    - apply (Hsign [] []) in He; [exact He | lia].
    - destruct ((d =? 45) || (d =? 43)).
      + apply (Hsign [d] r') in He; [exact He | cbn [List.length]; lia].
      + apply (Hsign [] (d :: r')) in He; [exact He | lia]. }
  lia.
Qed.

End JsonFuel.

Section JsonParser.

Import json.
Import codecs.
Local Open Scope N_scope.

(** The values [scan_once] reads without a recursive call. *)
Definition leaf (s : str) : option (value * str) :=
  first_of (constant "null" Null s)
  (first_of (constant "true" (Bool true) s)
  (first_of (constant "false" (Bool false) s)
  (first_of (match match_number s with
             | Some (lexeme, r) => Some (Number lexeme, r)
             | None => None
             end)
  (first_of (constant "NaN" (Number (lit "NaN")) s)
  (first_of (constant "Infinity" (Number (lit "Infinity")) s)
            (constant "-Infinity" (Number (lit "-Infinity")) s)))))).

Lemma scan_once_unfold :
  forall fuel s,
    scan_once (S fuel) s =
    match s with
    | [] => None
    | c :: rest =>
        if c =? 34 then
          match scanstring rest with
          | Some (text, r) => Some (String text, r)
          | None => None
          end
        else if c =? 123 then JSONObject fuel rest
        else if c =? 91 then JSONArray fuel rest
        else leaf s
    end.
Proof. reflexivity. Qed.

Lemma JSONObject_unfold :
  forall fuel s,
    JSONObject (S fuel) s =
    match skip_ws s with
    | c :: rest =>
        if c =? 125 then Some (Object [], rest)
        else if c =? 34 then object_pairs fuel rest []
        else None
    | [] => None
    end.
Proof. reflexivity. Qed.

Lemma JSONArray_unfold :
  forall fuel s,
    JSONArray (S fuel) s =
    match skip_ws s with
    | c :: rest =>
        if c =? 93 then Some (Array [], rest)
        else array_values fuel (skip_ws s) []
    | [] => None
    end.
Proof. reflexivity. Qed.

Lemma array_values_unfold :
  forall fuel s values,
    array_values (S fuel) s values =
    match scan_once fuel s with
    | None => None
    | Some (v, s1) =>
        match skip_ws s1 with
        | d :: s2 =>
            if d =? 93 then Some (Array (values ++ [v]), s2)
            else if d =? 44 then array_values fuel (skip_ws s2) (values ++ [v])
            else None
        | [] => None
        end
    end.
Proof. reflexivity. Qed.

Lemma leaf_length :
  forall s v rest, leaf s = Some (v, rest) -> (List.length rest < List.length s)%nat.
Proof.
  intros s v rest H. unfold leaf, first_of in H.
  repeat match type of H with
         | match constant ?name ?val s with _ => _ end = _ =>
             let Hc := fresh "Hc" in
             destruct (constant name val s) as [[v0 r0]|] eqn:Hc;
             [inversion H; subst; apply constant_length in Hc;
              [exact Hc | discriminate]|]
         | match match match_number s with _ => _ end with _ => _ end = _ =>
             let Hn := fresh "Hn" in
             destruct (match_number s) as [[lexeme r0]|] eqn:Hn;
             [inversion H; subst; now apply match_number_length in Hn|]
         end.
  apply constant_length in H; [exact H | discriminate].
Qed.

(** Every value read takes at least one character. *)
Lemma parsers_consume :
  forall fuel,
    (forall s v rest,
        scan_once fuel s = Some (v, rest) -> (List.length rest < List.length s)%nat)
    /\ (forall s v rest,
           JSONObject fuel s = Some (v, rest) ->
           (List.length rest < List.length s)%nat)
    /\ (forall s pairs v rest,
           object_pairs fuel s pairs = Some (v, rest) ->
           (List.length rest < List.length s)%nat)
    /\ (forall s v rest,
           JSONArray fuel s = Some (v, rest) ->
           (List.length rest < List.length s)%nat)
    /\ (forall s values v rest,
           array_values fuel s values = Some (v, rest) ->
           (List.length rest < List.length s)%nat).
Proof.
  induction fuel as [|fuel (IHs & IHo & IHp & IHa & IHv)].
  - repeat split; intros; discriminate.
  - repeat split.
    + intros s v rest H. rewrite scan_once_unfold in H.
      destruct s as [|c s]; [discriminate|]. cbn [List.length].
      destruct (c =? 34).
      { destruct (scanstring s) as [[text r]|] eqn:Hs; [|discriminate].
        inversion H; subst.
        apply (scanstring_length (List.length s)) in Hs; lia. }
      destruct (c =? 123); [apply IHo in H; lia|].
      destruct (c =? 91); [apply IHa in H; lia|].
      now apply leaf_length in H.
    + intros s v rest H. rewrite JSONObject_unfold in H.
      pose proof (skip_ws_length s) as Hws.
      destruct (skip_ws s) as [|c r]; [discriminate|]. cbn [List.length] in Hws.
      destruct (c =? 125); [inversion H; subst; lia|].
      destruct (c =? 34); [|discriminate]. apply IHp in H. lia.
    + intros s pairs v rest H. rewrite object_pairs_unfold in H.
      destruct (scanstring s) as [[key s1]|] eqn:Hkey; [|discriminate].
      apply (scanstring_length (List.length s)) in Hkey; [|lia].
      pose proof (skip_ws_length s1) as Hws1.
      destruct (skip_ws s1) as [|c s2]; [discriminate|]. cbn [List.length] in Hws1.
      destruct (c =? 58); [|discriminate].
      destruct (scan_once fuel (skip_ws s2)) as [[v0 s3]|] eqn:Hv; [|discriminate].
      apply IHs in Hv. pose proof (skip_ws_length s2) as Hws2.
      pose proof (skip_ws_length s3) as Hws3.
      destruct (skip_ws s3) as [|d s4]; [discriminate|]. cbn [List.length] in Hws3.
      destruct (d =? 125); [inversion H; subst; lia|].
      destruct (d =? 44); [|discriminate].
      pose proof (skip_ws_length s4) as Hws4.
      destruct (skip_ws s4) as [|q s5]; [discriminate|]. cbn [List.length] in Hws4.
      destruct (q =? 34); [|discriminate]. apply IHp in H. lia.
    + intros s v rest H. rewrite JSONArray_unfold in H.
      pose proof (skip_ws_length s) as Hws.
      destruct (skip_ws s) as [|c r] eqn:Hskip; [discriminate|].
      cbn [List.length] in Hws.
      destruct (c =? 93); [inversion H; subst; lia|].
      apply IHv in H. cbn [List.length] in H. lia.
    + intros s values v rest H. rewrite array_values_unfold in H.
      destruct (scan_once fuel s) as [[v0 s1]|] eqn:Hv; [|discriminate].
      apply IHs in Hv. pose proof (skip_ws_length s1) as Hws1.
      destruct (skip_ws s1) as [|d s2]; [discriminate|]. cbn [List.length] in Hws1.
      destruct (d =? 93); [inversion H; subst; lia|].
      destruct (d =? 44); [|discriminate].
      apply IHv in H. pose proof (skip_ws_length s2). lia.
Qed.


(** Above three units of fuel for each character the parsers do not
    depend on their fuel: a value that is not read is not read for a
    reason of syntax. *)
Lemma parsers_fuel_enough :
  forall n,
    (forall s f1 f2,
        (List.length s < n)%nat ->
        (3 * List.length s + 1 <= f1)%nat -> (3 * List.length s + 1 <= f2)%nat ->
        scan_once f1 s = scan_once f2 s)
    /\ (forall s f1 f2,
           (List.length s < n)%nat ->
           (3 * List.length s + 1 <= f1)%nat -> (3 * List.length s + 1 <= f2)%nat ->
           JSONObject f1 s = JSONObject f2 s)
    /\ (forall s pairs f1 f2,
           (List.length s < n)%nat ->
           (3 * List.length s + 1 <= f1)%nat -> (3 * List.length s + 1 <= f2)%nat ->
           object_pairs f1 s pairs = object_pairs f2 s pairs)
    /\ (forall s f1 f2,
           (List.length s < n)%nat ->
           (3 * List.length s + 3 <= f1)%nat -> (3 * List.length s + 3 <= f2)%nat ->
           JSONArray f1 s = JSONArray f2 s)
    /\ (forall s values f1 f2,
           (List.length s < n)%nat ->
           (3 * List.length s + 2 <= f1)%nat -> (3 * List.length s + 2 <= f2)%nat ->
           array_values f1 s values = array_values f2 s values).
Proof.
  induction n as [|n (IHs & IHo & IHp & IHa & IHv)].
  - repeat split; intros; lia.
  - assert (Hs : forall s f1 f2,
               (List.length s < S n)%nat ->
               (3 * List.length s + 1 <= f1)%nat ->
               (3 * List.length s + 1 <= f2)%nat ->
               scan_once f1 s = scan_once f2 s).
    { intros s [|f1] [|f2] Hn H1 H2; try lia.
      rewrite !scan_once_unfold. destruct s as [|c s]; [reflexivity|].
      cbn [List.length] in *.
      destruct (c =? 34); [reflexivity|].
      destruct (c =? 123); [apply IHo; lia|].
      destruct (c =? 91); [apply IHa; lia | reflexivity]. }
    assert (Hv : forall s values f1 f2,
               (List.length s < S n)%nat ->
               (3 * List.length s + 2 <= f1)%nat ->
               (3 * List.length s + 2 <= f2)%nat ->
               array_values f1 s values = array_values f2 s values).
    { intros s values [|f1] [|f2] Hn H1 H2; try lia.
      rewrite !array_values_unfold. rewrite (Hs s f1 f2) by lia.
      destruct (scan_once f2 s) as [[v s1]|] eqn:Hvalue; [|reflexivity].
      apply (proj1 (parsers_consume f2)) in Hvalue.
      pose proof (skip_ws_length s1) as Hws1.
      destruct (skip_ws s1) as [|d s2]; [reflexivity|]. cbn [List.length] in Hws1.
      destruct (d =? 93); [reflexivity|].
      destruct (d =? 44); [|reflexivity].
      pose proof (skip_ws_length s2). apply IHv; lia. }
    repeat split.
    + exact Hs.
    + intros s [|f1] [|f2] Hn H1 H2; try lia.
      rewrite !JSONObject_unfold. pose proof (skip_ws_length s) as Hws.
      destruct (skip_ws s) as [|c rest]; [reflexivity|]. cbn [List.length] in Hws.
      destruct (c =? 125); [reflexivity|].
      destruct (c =? 34); [|reflexivity]. apply IHp; lia.
    + intros s pairs [|f1] [|f2] Hn H1 H2; try lia.
      rewrite !object_pairs_unfold.
      destruct (scanstring s) as [[key s1]|] eqn:Hkey; [|reflexivity].
      apply (scanstring_length (List.length s)) in Hkey; [|lia].
      pose proof (skip_ws_length s1) as Hws1.
      destruct (skip_ws s1) as [|c s2]; [reflexivity|]. cbn [List.length] in Hws1.
      destruct (c =? 58); [|reflexivity].
      pose proof (skip_ws_length s2) as Hws2.
      rewrite (IHs (skip_ws s2) f1 f2) by lia.
      destruct (scan_once f2 (skip_ws s2)) as [[v s3]|] eqn:Hvalue; [|reflexivity].
      apply (proj1 (parsers_consume f2)) in Hvalue.
      pose proof (skip_ws_length s3) as Hws3.
      destruct (skip_ws s3) as [|d s4]; [reflexivity|]. cbn [List.length] in Hws3.
      destruct (d =? 125); [reflexivity|].
      destruct (d =? 44); [|reflexivity].
      pose proof (skip_ws_length s4) as Hws4.
      destruct (skip_ws s4) as [|q s5]; [reflexivity|]. cbn [List.length] in Hws4.
      destruct (q =? 34); [|reflexivity]. apply IHp; lia.
    + intros s [|f1] [|f2] Hn H1 H2; try lia.
      rewrite !JSONArray_unfold. pose proof (skip_ws_length s) as Hws.
      destruct (skip_ws s) as [|c rest] eqn:Hskip; [reflexivity|].
      destruct (c =? 93); [reflexivity|]. apply Hv; lia.
    + exact Hv.
Qed.

(** [loads] gives the parser three units of fuel for each character
    of its input, and would read the same with any more. *)
Lemma scan_once_fuel_enough :
  forall s fuel,
    (3 * List.length s + 1 <= fuel)%nat ->
    scan_once fuel (skip_ws s) = scan_once (3 * List.length s + 1) (skip_ws s).
Proof.
  intros s fuel Hfuel. pose proof (skip_ws_length s).
  apply (proj1 (parsers_fuel_enough (S (List.length (skip_ws s))))); lia.
Qed.

End JsonParser.

(** Deserializing the serialization of a message whose fields are
    strings gives the message back, each field as the JSON string it
    was written as. *)
Lemma deserialize_serialize :
  forall email : Email,
    deserialize (serialize email)
    = Returned (mkEmail (json.String (id email)) (json.String (subject email))
                        (json.String (sender email)) (json.String (date email))
                        (json.String (body email))).
Proof.
  intros email. unfold deserialize, deserialize_body, serialize.
  rewrite loads_dumps_str_dict. reflexivity.
Qed.

(** C9, at the input where it fails. [[]] is valid JSON, so [loads]
    returns; a list cannot be indexed by ["id"], and the [TypeError]
    this raises is not among the exceptions [deserialize] turns into
    [ValueError]. The same holds of a JSON string, number or [null]. *)
Theorem deserialize_array_raises_type_error :
  json.loads (lit "[]") = Some (json.Array [])
  /\ deserialize (lit "[]") = Raised TypeError
  /\ isinstance TypeError ValueError = false
  /\ deserialize (lit "null") = Raised TypeError
  /\ deserialize (lit "17") = Raised TypeError
  /\ deserialize (lit "{}") = Raised ValueError
  /\ deserialize (lit "{") = Raised ValueError.
Proof. repeat split. Qed.





(** ** HTML to text (email_parser.py) *)

(** The calls [feed] makes for
    [<head><style>a{}</style><title>Secret</title></head><body><p>Hello</p></body>]. *)
Definition head_with_style : list email_parser.html_event :=
  [email_parser.starttag (lit "head") [];
   email_parser.starttag (lit "style") [];
   email_parser.data (lit "a{}");
   email_parser.endtag (lit "style");
   email_parser.starttag (lit "title") [];
   email_parser.data (lit "Secret");
   email_parser.endtag (lit "title");
   email_parser.endtag (lit "head");
   email_parser.starttag (lit "body") [];
   email_parser.starttag (lit "p") [];
   email_parser.data (lit "Hello");
   email_parser.endtag (lit "p");
   email_parser.endtag (lit "body")].

(** The calls for [<head><meta charset=utf-8 /><title>Secret</title></head>]. *)
Definition head_with_meta : list email_parser.html_event :=
  [email_parser.starttag (lit "head") [];
   email_parser.startendtag (lit "meta") [(lit "charset", Some (lit "utf-8"))];
   email_parser.starttag (lit "title") [];
   email_parser.data (lit "Secret");
   email_parser.endtag (lit "title");
   email_parser.endtag (lit "head")].

(** C5, at the input where it fails. [skip_data] is one flag, not a
    depth: the end tag of the style element inside the head clears it,
    and the title that follows, still inside the head, reaches the
    text. A self-closing meta or link tag in the head does the same. *)
Theorem html_head_text_after_style_is_kept :
  email_parser.get_text
    (email_parser.handle_all email_parser.init head_with_style)
  = lit "Secret" ++ [10%N] ++ lit "Hello"
  /\ email_parser.get_text
       (email_parser.handle_all email_parser.init head_with_meta)
     = lit "Secret"
  /\ forall feed re_sub html,
       feed html = Returned head_with_style ->
       email_parser._html_to_text feed re_sub html
       = lit "Secret" ++ [10%N] ++ lit "Hello".
Proof.
  repeat split.
  intros feed re_sub html Hfeed. unfold email_parser._html_to_text.
  rewrite Hfeed. reflexivity.
Qed.

Section ExtractorFacts.

Import email_parser.

(** Text is dropped for as long as the flag stays set: what a script or
    a style element holds, which the parser hands over as data only,
    never reaches the text. *)
Lemma data_dropped_while_skipping :
  forall (self : HTMLTextExtractor) (chunks : list str),
    skip_data self = true ->
    handle_all self (map data chunks) = self.
Proof.
  intros self chunks Hskip. induction chunks as [|d chunks IH]; [reflexivity|].
  cbn [map handle_all fold_left handle]. unfold handle_data. rewrite Hskip.
  exact IH.
Qed.

Lemma skipped_element_leaves_no_text :
  forall (self : HTMLTextExtractor) tag attrs (chunks : list str),
    tag_in tag skip_tags = true ->
    text_parts (handle_all self (starttag tag attrs :: map data chunks ++ [endtag tag]))
    = text_parts self.
Proof.
  intros self tag attrs chunks Htag. unfold handle_all.
  cbn [fold_left handle]. rewrite fold_left_app.
  unfold handle_starttag. rewrite Htag.
  change (fold_left handle (map data chunks) ?s) with (handle_all s (map data chunks)).
  rewrite data_dropped_while_skipping by reflexivity.
  cbn [fold_left handle]. unfold handle_endtag. rewrite Htag. reflexivity.
Qed.

End ExtractorFacts.


(** ** Signatures and collisions (dingtalk_notifier.py) *)

(** The bytes that are signed and the digest, for a secret whose UTF-8
    encoding is [key]. *)
Definition signed_bytes (key : bytes) (timestamp : Z) : bytes :=
  match codecs.utf_8_encode (dingtalk_notifier.str_of_int timestamp) with
  | Some prefix => prefix
  | None => []
  end ++ [x0a] ++ key.

Definition digest (key : bytes) (timestamp : Z) : bytes :=
  hmac.hmac_sha256 key (signed_bytes key timestamp).

Definition quote_bytes (bs : bytes) : str := concat (map urllib.quote_byte bs).

(** A byte string read as a number, least significant byte first. *)
Fixpoint number_of (bs : bytes) : N :=
  match bs with
  | [] => 0%N
  | b :: rest => (Byte.to_N b + 256 * number_of rest)%N
  end.

(** The inverse of [quote_bytes]. *)
Definition unhex (c : N) : N :=
  (if c <? 58 then c - 48 else c - 55)%N.

Fixpoint unquote (s : str) : bytes :=
  match s with
  | [] => []
  | c :: rest =>
      if (c =? 37)%N then
        match rest with
        | h :: l :: rest' => codecs.byte_of_N (16 * unhex h + unhex l) :: unquote rest'
        | _ => []
        end
      else if (c =? 43)%N then x20 :: unquote rest
      else codecs.byte_of_N c :: unquote rest
  end.

Section Injectivity.

Local Open Scope N_scope.

Lemma to_N_inj : forall a b, Byte.to_N a = Byte.to_N b -> a = b.
Proof.
  intros a b H. pose proof (Byte.of_to_N a) as Ha. rewrite H in Ha.
  rewrite Byte.of_to_N in Ha. now inversion Ha.
Qed.

Lemma unquote_quote_byte :
  forall b rest, unquote (urllib.quote_byte b ++ rest) = b :: unquote rest.
Proof. intros b rest. destruct b; reflexivity. Qed.

Lemma unquote_quote_bytes : forall bs, unquote (quote_bytes bs) = bs.
Proof.
  induction bs as [|b bs IH]; [reflexivity|].
  unfold quote_bytes in *. cbn [map concat].
  now rewrite unquote_quote_byte, IH.
Qed.

Lemma quote_bytes_inj : forall a b, quote_bytes a = quote_bytes b -> a = b.
Proof.
  intros a b H. rewrite <- (unquote_quote_bytes a), <- (unquote_quote_bytes b).
  now rewrite H.
Qed.

(** The value of a base64 character. *)
Definition b64value (n : N) : N :=
  if n <? 26 then 65 + n
  else if n <? 52 then 71 + n
  else if n <? 62 then n - 4
  else if n =? 62 then 43
  else 47.

Lemma to_N_b64char : forall n, Byte.to_N (base64.b64char n) = b64value n.
Proof.
  intros n. unfold base64.b64char, b64value.
  destruct (N.ltb_spec n 26); [rewrite to_N_byte_of_N; lia|].
  destruct (N.ltb_spec n 52); [rewrite to_N_byte_of_N; lia|].
  destruct (N.ltb_spec n 62); [rewrite to_N_byte_of_N; lia|].
  destruct (n =? 62); rewrite to_N_byte_of_N; lia.
Qed.

Lemma b64value_inj :
  forall x y, x < 64 -> y < 64 -> b64value x = b64value y -> x = y.
Proof.
  intros x y Hx Hy. unfold b64value.
  destruct (N.ltb_spec x 26); destruct (N.ltb_spec y 26); try lia;
  destruct (N.ltb_spec x 52); destruct (N.ltb_spec y 52); try lia;
  destruct (N.ltb_spec x 62); destruct (N.ltb_spec y 62); try lia;
  destruct (N.eqb_spec x 62); destruct (N.eqb_spec y 62); lia.
Qed.

Lemma b64char_inj :
  forall x y, x < 64 -> y < 64 -> base64.b64char x = base64.b64char y -> x = y.
Proof.
  intros x y Hx Hy H. apply b64value_inj; auto.
  rewrite <- !to_N_b64char. now rewrite H.
Qed.

Lemma b64char_not_pad : forall x, base64.b64char x <> base64.pad_char.
Proof.
  intros x H. apply (f_equal Byte.to_N) in H. rewrite to_N_b64char in H.
  change (Byte.to_N base64.pad_char) with 61 in H. unfold b64value in H.
  destruct (N.ltb_spec x 26); [lia|].
  destruct (N.ltb_spec x 52); [lia|].
  destruct (N.ltb_spec x 62); [lia|].
  destruct (x =? 62); lia.
Qed.

End Injectivity.


Section Base64Facts.

Local Open Scope N_scope.

Lemma join_digits :
  forall k a b c d, b < k -> d < k -> a * k + b = c * k + d -> a = c /\ b = d.
Proof.
  intros k a b c d Hb Hd H.
  apply (N.div_mod_unique k a c b d Hb Hd). lia.
Qed.

Lemma same_number :
  forall k n m, k <> 0 -> n / k = m / k -> n mod k = m mod k -> n = m.
Proof.
  intros k n m Hk Hq Hr. rewrite (N.div_mod n k Hk), (N.div_mod m k Hk).
  now rewrite Hq, Hr.
Qed.

(** The four six-bit values of three bytes determine the bytes. *)
Lemma sextets_of_three :
  forall n0 n1 n2 m0 m1 m2,
    n1 < 256 -> n2 < 256 -> m1 < 256 -> m2 < 256 ->
    n0 / 4 = m0 / 4 ->
    n0 mod 4 * 16 + n1 / 16 = m0 mod 4 * 16 + m1 / 16 ->
    n1 mod 16 * 4 + n2 / 64 = m1 mod 16 * 4 + m2 / 64 ->
    n2 mod 64 = m2 mod 64 ->
    n0 = m0 /\ n1 = m1 /\ n2 = m2.
Proof.
  intros n0 n1 n2 m0 m1 m2 B1 B2 B3 B4 S1 S2 S3 S4.
  apply join_digits in S2; [| apply N.Div0.div_lt_upper_bound; lia ..].
  apply join_digits in S3; [| apply N.Div0.div_lt_upper_bound; lia ..].
  destruct S2 as [S2 S2'], S3 as [S3 S3'].
  repeat split.
  - apply (same_number 4); auto; lia.
  - apply (same_number 16); auto; lia.
  - apply (same_number 64); auto; lia.
Qed.

Lemma sextet_bounds :
  forall n0 n1 n2,
    n0 < 256 -> n1 < 256 -> n2 < 256 ->
    n0 / 4 < 64 /\ n0 mod 4 * 16 + n1 / 16 < 64
    /\ n1 mod 16 * 4 + n2 / 64 < 64 /\ n2 mod 64 < 64.
Proof.
  intros n0 n1 n2 B0 B1 B2.
  assert (n0 / 4 < 64) by (apply N.Div0.div_lt_upper_bound; lia).
  assert (n1 / 16 < 16) by (apply N.Div0.div_lt_upper_bound; lia).
  assert (n2 / 64 < 4) by (apply N.Div0.div_lt_upper_bound; lia).
  assert (n0 mod 4 < 4) by (apply N.mod_upper_bound; lia).
  assert (n1 mod 16 < 16) by (apply N.mod_upper_bound; lia).
  assert (n2 mod 64 < 64) by (apply N.mod_upper_bound; lia).
  clear B0 B1 B2.
  generalize dependent (n0 / 4). generalize dependent (n1 / 16).
  generalize dependent (n2 / 64). generalize dependent (n0 mod 4).
  generalize dependent (n1 mod 16). generalize dependent (n2 mod 64).
  intros. lia.
Qed.

Lemma b64encode_inj :
  forall a b, base64.b64encode a = base64.b64encode b -> a = b.
Proof.
  induction a as [|a0|a0 a1|a0 a1 a2 rest IH] using triples_ind; intros b H;
    destruct b as [|b0 [|b1 [|b2 restb]]];
    cbn [base64.b64encode] in H; try discriminate H; try reflexivity;
    injection H; clear H; intros;
    repeat match goal with
           | H : base64.b64char _ = base64.pad_char |- _ =>
               exfalso; exact (b64char_not_pad _ H)
           | H : base64.pad_char = base64.b64char _ |- _ =>
               exfalso; exact (b64char_not_pad _ (eq_sym H))
           end.
  - (* one byte each *)
    destruct (sextet_bounds (Byte.to_N a0) 0 0) as (A1 & A2 & _);
      [apply to_N_lt_256 | lia | lia |].
    destruct (sextet_bounds (Byte.to_N b0) 0 0) as (B1 & B2 & _);
      [apply to_N_lt_256 | lia | lia |].
    change (0 / 16) with 0 in A2, B2. rewrite N.add_0_r in A2, B2.
    apply b64char_inj in H, H0; auto.
    f_equal. apply to_N_inj.
    destruct (sextets_of_three (Byte.to_N a0) 0 0 (Byte.to_N b0) 0 0) as (E & _);
      auto; try lia.
  - (* two bytes each *)
    destruct (sextet_bounds (Byte.to_N a0) (Byte.to_N a1) 0) as (A1 & A2 & A3 & _);
      [apply to_N_lt_256 | apply to_N_lt_256 | lia |].
    destruct (sextet_bounds (Byte.to_N b0) (Byte.to_N b1) 0) as (B1 & B2 & B3 & _);
      [apply to_N_lt_256 | apply to_N_lt_256 | lia |].
    change (0 / 64) with 0 in A3, B3. rewrite N.add_0_r in A3, B3.
    apply b64char_inj in H, H0, H1; auto.
    destruct (sextets_of_three (Byte.to_N a0) (Byte.to_N a1) 0
                               (Byte.to_N b0) (Byte.to_N b1) 0) as (E0 & E1 & _);
      auto using to_N_lt_256; try lia.
    apply to_N_inj in E0, E1. now subst.
  - (* three bytes and more *)
    destruct (sextet_bounds (Byte.to_N a0) (Byte.to_N a1) (Byte.to_N a2))
      as (A1 & A2 & A3 & A4); try apply to_N_lt_256.
    destruct (sextet_bounds (Byte.to_N b0) (Byte.to_N b1) (Byte.to_N b2))
      as (B1 & B2 & B3 & B4); try apply to_N_lt_256.
    apply b64char_inj in H0, H1, H2, H3; auto.
    destruct (sextets_of_three (Byte.to_N a0) (Byte.to_N a1) (Byte.to_N a2)
                               (Byte.to_N b0) (Byte.to_N b1) (Byte.to_N b2))
      as (E0 & E1 & E2); auto using to_N_lt_256.
    apply to_N_inj in E0, E1, E2. subst. do 3 f_equal. now apply IH.
Qed.

End Base64Facts.

Section Pigeonhole.

Local Open Scope N_scope.

(** A value is taken below a bound, or it is not. *)
Lemma preimage_below :
  forall (g : N -> N) (v n : N),
    (exists i, i < n /\ g i = v) \/ (forall i, i < n -> g i <> v).
Proof.
  intros g v. induction n as [|n IH] using N.peano_ind.
  - right. intros i Hi. lia.
  - destruct IH as [(i & Hi & Hg)|Hnone].
    + left. exists i. split; [lia | exact Hg].
    + destruct (N.eq_dec (g n) v) as [Hn|Hn].
      * left. exists n. split; [lia | exact Hn].
      * right. intros i Hi. destruct (N.eq_dec i n) as [->|Hne]; [exact Hn|].
        apply Hnone. lia.
Qed.

(** [bound + 1] arguments with values below [bound]: two of them have
    the same value. *)
Lemma pigeonhole :
  forall (bound : N) (g : N -> N),
    (forall i, i <= bound -> g i < bound) ->
    exists i j, i < j /\ j <= bound /\ g i = g j.
Proof.
  induction bound as [|bound IH] using N.peano_ind; intros g Hg.
  - specialize (Hg 0). lia.
  - destruct (preimage_below g (g (N.succ bound)) (N.succ bound))
      as [(i & Hi & Heq)|Hnone].
    + exists i, (N.succ bound). repeat split; [exact Hi | lia | exact Heq].
    + set (g' := fun i => if g i =? bound then g (N.succ bound) else g i).
      destruct (IH g') as (i & j & Hij & Hj & Heq).
      { intros i Hi. unfold g'.
        assert (g i < N.succ bound) by (apply Hg; lia).
        assert (g (N.succ bound) < N.succ bound) by (apply Hg; lia).
        assert (g i <> g (N.succ bound)) by (apply Hnone; lia).
        destruct (N.eqb_spec (g i) bound); lia. }
      unfold g' in Heq.
      assert (g i <> g (N.succ bound)) by (apply Hnone; lia).
      assert (g j <> g (N.succ bound)) by (apply Hnone; lia).
      exists i, j. repeat split; [exact Hij | lia |].
      destruct (N.eqb_spec (g i) bound); destruct (N.eqb_spec (g j) bound);
        congruence.
Qed.

Lemma number_of_bound :
  forall bs, number_of bs < 256 ^ N.of_nat (List.length bs).
Proof.
  induction bs as [|b bs IH].
  - simpl. lia.
  - cbn [number_of List.length]. rewrite Nat2N.inj_succ, N.pow_succ_r'.
    pose proof (to_N_lt_256 b). lia.
Qed.

Lemma number_of_inj :
  forall a b,
    List.length a = List.length b -> number_of a = number_of b -> a = b.
Proof.
  induction a as [|x a IH]; intros [|y b] Hlen Hnum; try discriminate Hlen.
  - reflexivity.
  - cbn [number_of] in Hnum. injection Hlen as Hlen.
    pose proof (to_N_lt_256 x). pose proof (to_N_lt_256 y).
    assert (Hxy : Byte.to_N x = Byte.to_N y /\ number_of a = number_of b).
    { generalize dependent (number_of a). generalize dependent (number_of b).
      intros. lia. }
    destruct Hxy as [Hx Hrest]. apply to_N_inj in Hx. subst.
    f_equal. now apply IH.
Qed.

Lemma sha256_length : forall msg, List.length (hashlib.sha256 msg) = 32%nat.
Proof. intros msg. reflexivity. Qed.

Lemma digest_length : forall key timestamp, List.length (digest key timestamp) = 32%nat.
Proof. intros key timestamp. apply sha256_length. Qed.

(** Among the timestamps 0 .. 256^32, two have the same digest. *)
Lemma digest_collision :
  forall key,
  exists t1 t2 : Z, t1 <> t2 /\ digest key t1 = digest key t2.
Proof.
  intros key.
  destruct (pigeonhole (256 ^ 32) (fun i => number_of (digest key (Z.of_N i))))
    as (i & j & Hij & _ & Heq).
  { intros i _. pose proof (number_of_bound (digest key (Z.of_N i))) as H.
    now rewrite digest_length in H. }
  exists (Z.of_N i), (Z.of_N j). split; [lia|].
  apply number_of_inj; [now rewrite !digest_length | exact Heq].
Qed.

End Pigeonhole.

Lemma Returned_inj : forall (A : Type) (a b : A), Returned a = Returned b -> a = b.
Proof. intros A a b H. now inversion H. Qed.

(** The signature of a secret whose UTF-8 encoding is [key], by its
    digest. *)
Lemma generate_sign_digest :
  forall self key timestamp,
    codecs.utf_8_encode (dingtalk_notifier.secret self) = Some key ->
    codecs.utf_8_encode (dingtalk_notifier.str_of_int timestamp ++ [10%N]
                         ++ dingtalk_notifier.secret self)
    = Some (signed_bytes key timestamp)
    /\ dingtalk_notifier.generate_sign self timestamp
       = Returned (quote_bytes (base64.b64encode (digest key timestamp))).
Proof.
  intros self key timestamp Hkey.
  destruct (generate_sign_formula self key timestamp Hkey) as (prefix & Hprefix & Hsign).
  destruct (string_to_sign_encodes _ _ timestamp Hkey) as (prefix' & Hprefix' & Hmsg).
  unfold digest, signed_bytes, quote_bytes. rewrite Hprefix.
  rewrite Hprefix in Hprefix'. injection Hprefix' as <-.
  split; [exact Hmsg | exact Hsign].
Qed.

(** C6 as stated fails: the claim that any change of the timestamp or
    of the secret changes the signature has a counterexample, since
    there are more timestamps than digests. *)
Lemma generate_sign_not_injective :
  ~ (forall (self1 self2 : dingtalk_notifier.DingTalkNotifier) (t1 t2 : Z),
       (dingtalk_notifier.secret self1, t1) <> (dingtalk_notifier.secret self2, t2) ->
       dingtalk_notifier.generate_sign self1 t1
       <> dingtalk_notifier.generate_sign self2 t2).
Proof.
  intros Hinj.
  assert (Hkey : codecs.utf_8_encode (dingtalk_notifier.secret sample_notifier)
                 = Some (map codecs.byte_of_N (lit "SECabc"))) by reflexivity.
  destruct (digest_collision (map codecs.byte_of_N (lit "SECabc")))
    as (t1 & t2 & Hne & Hsame).
  apply (Hinj sample_notifier sample_notifier t1 t2).
  - intros Heq. injection Heq as Heq. contradiction.
  - rewrite (proj2 (generate_sign_digest _ _ t1 Hkey)).
    rewrite (proj2 (generate_sign_digest _ _ t2 Hkey)).
    now rewrite Hsame.
Qed.

(** C6, amended. For a secret that has a UTF-8 encoding, the signature
    is the percent-encoding of the base64 encoding of the HMAC-SHA256,
    keyed by the secret, of the timestamp, a newline and the secret; it
    depends on nothing else; and two inputs get the same signature
    exactly when their digests are equal, since base64 and the
    percent-encoding lose nothing. *)
Theorem generate_sign_determined_by_digest :
  forall (self1 self2 : dingtalk_notifier.DingTalkNotifier)
         (key1 key2 : bytes) (t1 t2 : Z),
    codecs.utf_8_encode (dingtalk_notifier.secret self1) = Some key1 ->
    codecs.utf_8_encode (dingtalk_notifier.secret self2) = Some key2 ->
    codecs.utf_8_encode (dingtalk_notifier.str_of_int t1 ++ [10%N]
                         ++ dingtalk_notifier.secret self1)
    = Some (signed_bytes key1 t1)
    /\ dingtalk_notifier.generate_sign self1 t1
       = Returned (quote_bytes (base64.b64encode
                     (hmac.hmac_sha256 key1 (signed_bytes key1 t1))))
    /\ (dingtalk_notifier.secret self1 = dingtalk_notifier.secret self2 ->
        t1 = t2 ->
        dingtalk_notifier.generate_sign self1 t1
        = dingtalk_notifier.generate_sign self2 t2)
    /\ (dingtalk_notifier.generate_sign self1 t1
        = dingtalk_notifier.generate_sign self2 t2
        <-> digest key1 t1 = digest key2 t2).
Proof.
  intros self1 self2 key1 key2 t1 t2 Hkey1 Hkey2.
  destruct (generate_sign_digest self1 key1 t1 Hkey1) as [Hmsg1 Hsign1].
  destruct (generate_sign_digest self2 key2 t2 Hkey2) as [_ Hsign2].
  split; [exact Hmsg1|]. split; [exact Hsign1|]. split.
  - intros Hsecret Ht. subst t2. rewrite Hsecret in Hkey1.
    rewrite Hkey1 in Hkey2. injection Hkey2 as <-.
    now rewrite Hsign1, Hsign2.
  - rewrite Hsign1, Hsign2. split.
    + intros Heq. apply Returned_inj in Heq.
      now apply b64encode_inj, quote_bytes_inj.
    + now intros ->.
Qed.

(** The signature of the sample notifier at one timestamp, as the
    Python runtime computes it. *)
Lemma generate_sign_sample :
  dingtalk_notifier.generate_sign sample_notifier 1700000000000
  = Returned (lit "jcUpW0QmtKduN03n4JqQ0PBosVjqnM8gU7fIIvsDmCM%3D")
  /\ (dingtalk_notifier.generate_sign sample_notifier 1700000000000
      = dingtalk_notifier.generate_sign sample_notifier 1700000000001
      <-> digest (map codecs.byte_of_N (lit "SECabc")) 1700000000000
          = digest (map codecs.byte_of_N (lit "SECabc")) 1700000000001).
Proof.
  split; [vm_compute; reflexivity|].
  apply (generate_sign_determined_by_digest sample_notifier sample_notifier
           (map codecs.byte_of_N (lit "SECabc")) (map codecs.byte_of_N (lit "SECabc"))
           1700000000000 1700000000001); reflexivity.
Defined.


(** * Further properties *)

(** ** The pipeline driver and the session (main.py, email_fetcher.py) *)

Section ProcessBounds.

Variable World : Type.
Variable send : Email -> World -> result bool * World.
Variable mark_as_read : str -> World -> bool * World.

Lemma process_each_count :
  forall emails success_count w n w' calls,
    main.process_each World send mark_as_read emails success_count w
      = (Returned n, w', calls) ->
    success_count <= n <= success_count + Z.of_nat (List.length emails)
    /\ n = success_count + marked_ok calls.
Proof.
  induction emails as [|email rest IH]; intros success_count w n w' calls Hrun;
    cbn [main.process_each] in Hrun.
  - inversion Hrun; subst. cbn [List.length marked_ok]. lia.
  - destruct (send email w) as [[[|]|e] w1].
    + destruct (mark_as_read (id email) w1) as [marked w2].
      destruct (main.process_each World send mark_as_read rest
                  (if marked then success_count + 1 else success_count) w2)
        as [[r w3] calls'] eqn:Hrest.
      inversion Hrun; subst. apply IH in Hrest.
      cbn [List.length marked_ok]. destruct marked; lia.
    + destruct (main.process_each World send mark_as_read rest success_count w1)
        as [[r w3] calls'] eqn:Hrest.
      inversion Hrun; subst. apply IH in Hrest.
      cbn [List.length marked_ok]. lia.
    + discriminate Hrun.
Qed.

End ProcessBounds.



(** A server on which message 2 cannot be fetched. *)
Definition search_three (w : unit) : result (str * list (option bytes)) * unit :=
  (Returned (lit "OK", [Some (map codecs.byte_of_N (lit "1 2  3"))]), w).

Definition fetch_but_second (email_id : bytes) (w : unit)
  : result (str * list email_fetcher.fetch_item) * unit :=
  if encodings.str_eqb (map Byte.to_N email_id) (lit "2")
  then (Raised IMAP4_error, w)
  else (Returned (lit "OK", [email_fetcher.ItemPair [] email_id;
                             email_fetcher.ItemBytes [x29]]), w).

Definition parse_stub (raw_email : bytes) (email_id : str) : result Email :=
  Returned (mkEmail email_id [] [] [] (map Byte.to_N raw_email)).

(** The same server with a world that keeps the ids it was asked for. *)
Definition search_asked (w : list bytes)
  : result (str * list (option bytes)) * list bytes :=
  (Returned (lit "OK", [Some (map codecs.byte_of_N (lit "1 2  3"))]), w).

Definition fetch_asked (email_id : bytes) (w : list bytes)
  : result (str * list email_fetcher.fetch_item) * list bytes :=
  (fst (fetch_but_second email_id tt), w ++ [email_id]).

(** The message a FETCH response gives for an id, when it gives one:
    the status is OK, the data start with a pair, the id is UTF-8 text
    and the parser returns. A fetch that raised, another status, data
    that are empty or start with something else, and a message the
    parser raises on give none. *)
Definition message_of (parse : bytes -> str -> result Email) (email_id : bytes)
  (response : result (str * list email_fetcher.fetch_item)) : option Email :=
  match response with
  | Returned (status, email_fetcher.ItemPair _ raw_email :: _) =>
      if encodings.str_eqb status (lit "OK") then
        match codecs.utf_8_decode email_id with
        | Some text =>
            match parse raw_email text with
            | Returned email => Some email
            | Raised _ => None
            end
        | None => None
        end
      else None
  | _ => None
  end.

(** The messages of a list of ids: each id is fetched in the world
    the ids before it have left, whatever they gave; an id whose
    response gives a message adds it, and any other id adds nothing
    and changes nothing for the ids after it. *)
Inductive batch (World : Type)
  (fetch : bytes -> World -> result (str * list email_fetcher.fetch_item) * World)
  (parse : bytes -> str -> result Email)
  : list bytes -> World -> list Email -> World -> Prop :=
| batch_done w : batch World fetch parse [] w [] w
| batch_kept email_id rest w response w1 email emails w' :
    fetch email_id w = (response, w1) ->
    message_of parse email_id response = Some email ->
    batch World fetch parse rest w1 emails w' ->
    batch World fetch parse (email_id :: rest) w (email :: emails) w'
| batch_left_out email_id rest w response w1 emails w' :
    fetch email_id w = (response, w1) ->
    message_of parse email_id response = None ->
    batch World fetch parse rest w1 emails w' ->
    batch World fetch parse (email_id :: rest) w emails w'.

Section SessionFacts.

Import email_fetcher.

Variable World : Type.
Variable fetch : bytes -> World -> result (str * list fetch_item) * World.
Variable parse : bytes -> str -> result Email.

Lemma fetch_one_message :
  forall email_id w,
    fetch_one World fetch parse email_id w
    = (message_of parse email_id (fst (fetch email_id w)), snd (fetch email_id w)).
Proof.
  intros email_id w. unfold fetch_one, message_of.
  destruct (fetch email_id w) as [[[status data]|e] w1]; cbn [fst snd];
    [|reflexivity].
  destruct (encodings.str_eqb status (lit "OK")); cbn [negb].
  - destruct data as [|[envelope raw|b|] data]; try reflexivity.
    destruct (codecs.utf_8_decode email_id) as [text|]; [|reflexivity].
    now destruct (parse raw text).
  - now destruct data as [|[envelope raw|b|] data].
Qed.

Lemma fetch_each_batch :
  forall email_ids w,
  exists emails w',
    fetch_each World fetch parse email_ids w
      = (emails, w', map FetchMessage email_ids)
    /\ batch World fetch parse email_ids w emails w'.
Proof.
  induction email_ids as [|email_id rest IH]; intros w.
  - exists [], w. split; [reflexivity | constructor].
  - cbn [fetch_each]. rewrite fetch_one_message.
    destruct (fetch email_id w) as [response w1] eqn:Hfetch. cbn [fst snd].
    destruct (IH w1) as (emails & w' & Hrest & Hbatch). rewrite Hrest.
    destruct (message_of parse email_id response) as [email|] eqn:Hmessage.
    + exists (email :: emails), w'. split; [reflexivity|].
      now apply (batch_kept World fetch parse email_id rest w response w1).
    + exists emails, w'. split; [reflexivity|].
      now apply (batch_left_out World fetch parse email_id rest w response w1).
Qed.

End SessionFacts.

(** When the search answers OK, [fetch_unread_emails] fetches every id
    of the answer, in order, each in the world the fetches before it
    have left, and returns the messages of exactly those ids whose
    response gives one: a fetch that raises, a status other than OK,
    an empty answer and a message that cannot be parsed leave that one
    message out, and the messages before and after it are returned. *)
Theorem fetch_unread_emails_skips_failures :
  forall (World : Type)
         (search : World -> result (str * list (option bytes)) * World)
         (fetch : bytes -> World -> result (str * list email_fetcher.fetch_item) * World)
         (parse : bytes -> str -> result Email)
         (w w1 : World) (blob : bytes) (more : list (option bytes)),
    search w = (Returned (lit "OK", Some blob :: more), w1) ->
    exists emails w',
      email_fetcher.fetch_unread_emails World search fetch parse true w
      = (Returned emails, w',
         email_fetcher.Search
         :: map email_fetcher.FetchMessage (email_fetcher.split blob))
      /\ batch World fetch parse (email_fetcher.split blob) w1 emails w'.
Proof.
  intros World search fetch parse w w1 blob more Hsearch.
  unfold email_fetcher.fetch_unread_emails. cbn [negb]. rewrite Hsearch.
  change (negb (encodings.str_eqb (lit "OK") (lit "OK"))) with false. cbv iota.
  destruct (fetch_each_batch World fetch parse (email_fetcher.split blob) w1)
    as (emails & w' & Hrun & Hbatch).
  rewrite Hrun. now exists emails, w'.
Qed.

Lemma fetch_unread_emails_skips_failures_example :
  email_fetcher.fetch_unread_emails (list bytes) search_asked fetch_asked parse_stub
                                    true []
  = (Returned [mkEmail (lit "1") [] [] [] (lit "1");
               mkEmail (lit "3") [] [] [] (lit "3")],
     [map codecs.byte_of_N (lit "1"); map codecs.byte_of_N (lit "2");
      map codecs.byte_of_N (lit "3")],
     [email_fetcher.Search;
      email_fetcher.FetchMessage (map codecs.byte_of_N (lit "1"));
      email_fetcher.FetchMessage (map codecs.byte_of_N (lit "2"));
      email_fetcher.FetchMessage (map codecs.byte_of_N (lit "3"))])
  /\ exists emails w',
      email_fetcher.fetch_unread_emails (list bytes) search_asked fetch_asked
                                        parse_stub true []
      = (Returned emails, w',
         email_fetcher.Search
         :: map email_fetcher.FetchMessage
                (email_fetcher.split (map codecs.byte_of_N (lit "1 2  3"))))
      /\ batch (list bytes) fetch_asked parse_stub
               (email_fetcher.split (map codecs.byte_of_N (lit "1 2  3")))
               [] emails w'.
Proof.
  split; [vm_compute; reflexivity|].
  apply (fetch_unread_emails_skips_failures (list bytes) search_asked fetch_asked
           parse_stub [] [] (map codecs.byte_of_N (lit "1 2  3")) []).
  reflexivity.
Defined.

(** ** [main] and [run_daemon] (main.py) *)




Definition send_ok (config : unit) (email : Email) (w : unit) : result bool * unit :=
  (Returned true, w).



(** A world that keeps what was done to it, for a run of [main] or of
    the daemon in which the notifier raises. *)
Inductive done : Type :=
| Loaded
| ConnectedTo
| Searched
| Sent (email_id : str)
| Stored (email_id : str)
| LoggedOut
| Slept (seconds : Z).

Definition load_done (w : list done) : result unit * list done :=
  (Returned tt, w ++ [Loaded]).

Definition connect_done (config : unit) (w : list done) : result bool * list done :=
  (Returned true, w ++ [ConnectedTo]).

Definition fetch_done (config : unit) (w : list done)
  : result (list Email) * list done :=
  (Returned three_emails, w ++ [Searched]).

Definition send_breaks (config : unit) (email : Email) (w : list done)
  : result bool * list done :=
  (Raised TypeError, w ++ [Sent (id email)]).

Definition mark_done (config : unit) (email_id : str) (w : list done)
  : bool * list done :=
  (true, w ++ [Stored email_id]).

Definition disconnect_done (config : unit) (w : list done) : list done :=
  w ++ [LoggedOut].

Definition sleep_done (seconds : Z) (w : list done) : result unit * list done :=
  if seconds <? 0 then (Raised ValueError, w) else (Returned tt, w ++ [Slept seconds]).

(** [main] by what the configuration and [connect] do. An exception
    of the configuration ends it there: with exit code 1 when it is a
    [ValueError], and by leaving [main] otherwise. An exception of
    [connect] ends it there, without a disconnect: with exit code 2
    for an [AuthenticationError], 3 for a [ConnectionError], and by
    leaving [main] otherwise. When [connect] returns, the messages are
    processed and then the fetcher is disconnected, in the world the
    processing has left, whether the processing returned (exit code 0)
    or raised (the exception leaves [main], and is never an
    [EmailFetcherError]). *)
Theorem main_exit_codes :
  forall (World Config : Type)
         (load_config : World -> result Config * World)
         (connect : Config -> World -> result bool * World)
         (fetch_unread_emails : Config -> World -> result (list Email) * World)
         (send : Config -> Email -> World -> result bool * World)
         (mark_as_read : Config -> str -> World -> bool * World)
         (disconnect : Config -> World -> World)
         (w : World),
    let run := main.main World Config load_config connect fetch_unread_emails send
                         mark_as_read disconnect w in
    match load_config w with
    | (Raised e, w1) =>
        run = (if isinstance e ValueError then Returned 1 else Raised e, w1,
               [main.LoadConfig])
    | (Returned config, w1) =>
        match connect config w1 with
        | (Raised e, w2) =>
            run = (if isinstance e AuthenticationError then Returned 2
                   else if isinstance e ConnectionError then Returned 3
                        else Raised e,
                   w2, [main.LoadConfig; main.Connect])
        | (Returned _, w2) =>
            exists r w3 calls,
              main.process World Config fetch_unread_emails send mark_as_read
                           config w2 = (r, w3, calls)
              /\ run = (match r with
                        | Returned _ => Returned 0
                        | Raised e => Raised e
                        end, disconnect config w3,
                        [main.LoadConfig; main.Connect; main.Process calls;
                         main.Disconnect])
              /\ (forall e, r = Raised e -> isinstance e EmailFetcherError = false)
        end
    end.
Proof.
  intros World Config load_config connect fetch_unread_emails send mark_as_read
         disconnect w. cbv zeta. unfold main.main.
  destruct (load_config w) as [[config|e] w1].
  - destruct (connect config w1) as [[b|e] w2].
    + destruct (main.process World Config fetch_unread_emails send mark_as_read
                             config w2) as [[r w3] calls] eqn:Hprocess.
      exists r, w3, calls. split; [reflexivity|]. split; [reflexivity|].
      intros e ->. unfold main.process, main.process_emails in Hprocess.
      destruct (main.process_emails_body World (fetch_unread_emails config)
                  (send config) (mark_as_read config) w2) as [[[n|e0] w4] calls0].
      * discriminate.
      * destruct (isinstance e0 EmailFetcherError) eqn:Hclass;
          [discriminate | congruence].
    + destruct (isinstance e AuthenticationError); [reflexivity|].
      now destruct (isinstance e ConnectionError).
  - now destruct (isinstance e ValueError).
Qed.

(** A run in which the notifier raises on the first message: the
    exception leaves [main] after the fetcher was disconnected. *)
Lemma main_exit_codes_example :
  main.main (list done) unit load_done connect_done fetch_done send_breaks
            mark_done disconnect_done []
  = (Raised TypeError,
     [Loaded; ConnectedTo; Searched; Sent (lit "1"); LoggedOut],
     [main.LoadConfig; main.Connect;
      main.Process [main.Fetch;
                    main.Notify (nth 0 three_emails (mkEmail [] [] [] [] []))
                                (Raised TypeError)];
      main.Disconnect])
  /\ exists r w3 calls,
      main.process (list done) unit fetch_done send_breaks mark_done tt
                   [Loaded; ConnectedTo] = (r, w3, calls)
      /\ main.main (list done) unit load_done connect_done fetch_done send_breaks
                   mark_done disconnect_done []
         = (match r with
            | Returned _ => Returned 0
            | Raised e => Raised e
            end, disconnect_done tt w3,
            [main.LoadConfig; main.Connect; main.Process calls; main.Disconnect])
      /\ (forall e, r = Raised e -> isinstance e EmailFetcherError = false).
Proof.
  split; [reflexivity|].
  exact (main_exit_codes (list done) unit load_done connect_done fetch_done
           send_breaks mark_done disconnect_done []).
Defined.




(** One turn of the daemon loop in the world [w]: the connect; the
    processing, in the world the connect has left, when the connect
    returned, and not when it raised; then the disconnect, in the
    world these have left. The steps of the turn and the world after
    the disconnect. *)
Inductive turn (World Config : Type)
  (connect : Config -> World -> result bool * World)
  (fetch_unread_emails : Config -> World -> result (list Email) * World)
  (send : Config -> Email -> World -> result bool * World)
  (mark_as_read : Config -> str -> World -> bool * World)
  (disconnect : Config -> World -> World)
  (config : Config) : World -> list main.step -> World -> Prop :=
| turn_refused w e w1 :
    connect config w = (Raised e, w1) ->
    turn World Config connect fetch_unread_emails send mark_as_read disconnect
         config w [main.Connect; main.Disconnect] (disconnect config w1)
| turn_processed w b w1 r w2 calls :
    connect config w = (Returned b, w1) ->
    main.process World Config fetch_unread_emails send mark_as_read config w1
    = (r, w2, calls) ->
    turn World Config connect fetch_unread_emails send mark_as_read disconnect
         config w [main.Connect; main.Process calls; main.Disconnect]
         (disconnect config w2).

(** A number of turns, each followed by a sleep of the interval that
    returned, each in the world the sleep before it has left. *)
Inductive turns (World Config : Type)
  (connect : Config -> World -> result bool * World)
  (fetch_unread_emails : Config -> World -> result (list Email) * World)
  (send : Config -> Email -> World -> result bool * World)
  (mark_as_read : Config -> str -> World -> bool * World)
  (disconnect : Config -> World -> World)
  (sleep : Z -> World -> result unit * World)
  (config : Config) (interval : Z)
  : nat -> World -> list main.step -> World -> Prop :=
| turns_none w :
    turns World Config connect fetch_unread_emails send mark_as_read disconnect
          sleep config interval 0 w [] w
| turns_more passes w first w1 u w2 steps w' :
    turn World Config connect fetch_unread_emails send mark_as_read disconnect
         config w first w1 ->
    sleep interval w1 = (Returned u, w2) ->
    turns World Config connect fetch_unread_emails send mark_as_read disconnect
          sleep config interval passes w2 steps w' ->
    turns World Config connect fetch_unread_emails send mark_as_read disconnect
          sleep config interval (S passes) w
          (first ++ main.SleepFor interval :: steps) w'.

Section DaemonFacts.

Variable World : Type.
Variable Config : Type.
Variable connect : Config -> World -> result bool * World.
Variable fetch_unread_emails : Config -> World -> result (list Email) * World.
Variable send : Config -> Email -> World -> result bool * World.
Variable mark_as_read : Config -> str -> World -> bool * World.
Variable disconnect : Config -> World -> World.
Variable sleep : Z -> World -> result unit * World.

(** What one turn does, up to its sleep. *)
Lemma daemon_pass_turn :
  forall config interval w,
  exists first w1,
    turn World Config connect fetch_unread_emails send mark_as_read disconnect
         config w first w1
    /\ main.daemon_pass World Config connect fetch_unread_emails send mark_as_read
                        disconnect sleep config interval w
       = (fst (sleep interval w1), snd (sleep interval w1),
          first ++ [main.SleepFor interval]).
Proof.
  intros config interval w. unfold main.daemon_pass.
  destruct (connect config w) as [[b|e] w1] eqn:Hconnect.
  - destruct (main.process World Config fetch_unread_emails send mark_as_read
                           config w1) as [[r w2] calls] eqn:Hprocess.
    exists [main.Connect; main.Process calls; main.Disconnect], (disconnect config w2).
    split; [now apply (turn_processed _ _ _ _ _ _ _ _ w b w1 r w2 calls)|].
    now destruct (sleep interval (disconnect config w2)).
  - exists [main.Connect; main.Disconnect], (disconnect config w1).
    split; [now apply (turn_refused _ _ _ _ _ _ _ _ w e w1)|].
    now destruct (sleep interval (disconnect config w1)).
Qed.

Lemma daemon_passes_go_on :
  forall config interval,
    (forall w, exists w', sleep interval w = (Returned tt, w')) ->
    forall passes w,
    exists w' steps,
      main.daemon_passes World Config connect fetch_unread_emails send mark_as_read
                         disconnect sleep passes config interval w
      = (None, w', steps)
      /\ turns World Config connect fetch_unread_emails send mark_as_read
               disconnect sleep config interval passes w steps w'.
Proof.
  intros config interval Hsleep.
  induction passes as [|passes IH]; intros w; cbn [main.daemon_passes].
  - exists w, []. split; [reflexivity | constructor].
  - destruct (daemon_pass_turn config interval w) as (first & w1 & Hturn & ->).
    destruct (Hsleep w1) as [w2 H2]. rewrite H2. cbn [fst snd].
    destruct (IH w2) as (w' & steps & Hrest & Hturns). rewrite Hrest.
    exists w', (first ++ main.SleepFor interval :: steps).
    split; [now rewrite <- app_assoc|].
    now apply (turns_more _ _ _ _ _ _ _ _ _ _ passes w first w1 tt w2 steps w').
Qed.


End DaemonFacts.

(** With a configuration that loads and a sleep that returns, no
    failure of [connect] or of the processing ends [run_daemon]: after
    any number of turns it is still in its loop. Each turn is a
    connect, then the processing exactly when the connect returned,
    then the disconnect whatever happened, then the sleep, each in the
    world the step before has left. *)
Theorem run_daemon_survives_failures :
  forall (World Config : Type)
         (load_config : World -> result Config * World)
         (connect : Config -> World -> result bool * World)
         (fetch_unread_emails : Config -> World -> result (list Email) * World)
         (send : Config -> Email -> World -> result bool * World)
         (mark_as_read : Config -> str -> World -> bool * World)
         (disconnect : Config -> World -> World)
         (sleep : Z -> World -> result unit * World)
         (interval : Z) (config : Config) (w w1 : World) (passes : nat),
    load_config w = (Returned config, w1) ->
    (forall w, exists w', sleep interval w = (Returned tt, w')) ->
    exists w' steps,
      main.run_daemon World Config load_config connect fetch_unread_emails send
                      mark_as_read disconnect sleep passes interval w
      = (None, w', main.LoadConfig :: steps)
      /\ turns World Config connect fetch_unread_emails send mark_as_read
               disconnect sleep config interval passes w1 steps w'.
Proof.
  intros World Config load_config connect fetch_unread_emails send mark_as_read
         disconnect sleep interval config w w1 passes Hload Hsleep.
  unfold main.run_daemon. rewrite Hload.
  destruct (daemon_passes_go_on World Config connect fetch_unread_emails send
              mark_as_read disconnect sleep config interval Hsleep passes w1)
    as (w' & steps & Hrun & Hturns).
  rewrite Hrun. now exists w', steps.
Qed.

(** Two turns in which the notifier raises on the first message: each
    turn has connected, searched, tried the first message, logged out
    and slept. *)
Lemma run_daemon_survives_failures_example :
  main.run_daemon (list done) unit load_done connect_done fetch_done send_breaks
                  mark_done disconnect_done sleep_done 2 60 []
  = (None,
     [Loaded;
      ConnectedTo; Searched; Sent (lit "1"); LoggedOut; Slept 60;
      ConnectedTo; Searched; Sent (lit "1"); LoggedOut; Slept 60],
     [main.LoadConfig;
      main.Connect;
      main.Process [main.Fetch;
                    main.Notify (nth 0 three_emails (mkEmail [] [] [] [] []))
                                (Raised TypeError)];
      main.Disconnect; main.SleepFor 60;
      main.Connect;
      main.Process [main.Fetch;
                    main.Notify (nth 0 three_emails (mkEmail [] [] [] [] []))
                                (Raised TypeError)];
      main.Disconnect; main.SleepFor 60])
  /\ exists w' steps,
      main.run_daemon (list done) unit load_done connect_done fetch_done send_breaks
                      mark_done disconnect_done sleep_done 2 60 []
      = (None, w', main.LoadConfig :: steps)
      /\ turns (list done) unit connect_done fetch_done send_breaks mark_done
               disconnect_done sleep_done tt 60 2 [Loaded] steps w'.
Proof.
  split; [reflexivity|].
  apply (run_daemon_survives_failures (list done) unit load_done connect_done
           fetch_done send_breaks mark_done disconnect_done sleep_done 60 tt []
           [Loaded] 2).
  - reflexivity.
  - intros w. now exists (w ++ [Slept 60]).
Defined.



(** ** The session after [connect] (email_fetcher.py) *)

Definition store_ok (email_id : bytes) (w : unit) : result str * unit :=
  (Returned (lit "OK"), w).



(** The two methods [process_emails] calls on the fetcher, on a
    session that is [connected] or not. *)
Definition fetch_of {World : Type}
  (search : World -> result (str * list (option bytes)) * World)
  (fetch : bytes -> World -> result (str * list email_fetcher.fetch_item) * World)
  (parse : bytes -> str -> result Email)
  (connected : bool) (w : World) : result (list Email) * World :=
  let '(r, w', _) :=
    email_fetcher.fetch_unread_emails World search fetch parse connected w in
  (r, w').

Definition mark_of {World : Type}
  (store : bytes -> World -> result str * World)
  (connected : bool) (email_id : str) (w : World) : bool * World :=
  let '(ok, w', _) := email_fetcher.mark_as_read World store connected email_id w in
  (ok, w').

Section ProcessReturns.

Variable World : Type.
Variable send : Email -> World -> result bool * World.
Variable mark_as_read : str -> World -> bool * World.

Hypothesis send_answers :
  forall email w, exists ok w', send email w = (Returned ok, w').

Lemma process_each_returns :
  forall emails success_count w,
  exists n w' calls,
    main.process_each World send mark_as_read emails success_count w
    = (Returned n, w', calls).
Proof.
  induction emails as [|email rest IH]; intros success_count w;
    cbn [main.process_each].
  - now exists success_count, w, [].
  - destruct (send_answers email w) as (ok & w1 & Hsend). rewrite Hsend.
    destruct ok.
    + destruct (mark_as_read (id email) w1) as [marked w2].
      destruct (IH (if marked then success_count + 1 else success_count) w2)
        as (n & w' & calls & Hrest).
      rewrite Hrest. now eexists _, _, _.
    + destruct (IH success_count w1) as (n & w' & calls & Hrest).
      rewrite Hrest. now eexists _, _, _.
Qed.

End ProcessReturns.

(** Over the fetcher of email_fetcher.py and a notifier that answers,
    [process_emails] always returns a count, whatever the server does
    in the search, the fetches and the stores: the fetcher raises
    nothing but [EmailFetcherError], which is caught. Without a
    connection the count is 0 and no message is notified. *)
Theorem process_emails_on_session_returns :
  forall (World : Type)
         (search : World -> result (str * list (option bytes)) * World)
         (fetch : bytes -> World -> result (str * list email_fetcher.fetch_item) * World)
         (store : bytes -> World -> result str * World)
         (parse : bytes -> str -> result Email)
         (send : Email -> World -> result bool * World)
         (connected : bool) (w : World),
    (forall email w, exists ok w', send email w = (Returned ok, w')) ->
    exists n w' calls,
      main.process_emails World (fetch_of search fetch parse connected) send
                          (mark_of store connected) w
      = (Returned n, w', calls)
      /\ 0 <= n
      /\ (connected = false -> n = 0 /\ w' = w /\ calls = [main.Fetch]).
Proof.
  intros World search fetch store parse send connected w Hsend.
  unfold main.process_emails, main.process_emails_body, fetch_of,
    email_fetcher.fetch_unread_emails.
  destruct connected; cbn [negb].
  - destruct (search w) as [[[status message_ids]|e] w1].
    + destruct (negb (encodings.str_eqb status (lit "OK"))).
      * exists 0, w1, [main.Fetch]. repeat split; [lia | discriminate..].
      * destruct message_ids as [|[blob|] more].
        -- exists 0, w1, [main.Fetch]. repeat split; [lia | discriminate..].
        -- destruct (email_fetcher.fetch_each World fetch parse
                       (email_fetcher.split blob) w1) as [[emails w2] fetched].
           destruct emails as [|email emails].
           ++ exists 0, w2, [main.Fetch]. repeat split; [lia | discriminate..].
           ++ destruct (process_each_returns World send (mark_of store true) Hsend
                          (email :: emails) 0 w2) as (n & w' & calls & Hrun).
              rewrite Hrun. exists n, w', (main.Fetch :: calls).
              split; [reflexivity|]. split; [|discriminate].
              apply (process_each_count World send (mark_of store true)) in Hrun.
              lia.
        -- exists 0, w1, [main.Fetch]. repeat split; [lia | discriminate..].
    + exists 0, w1, [main.Fetch]. repeat split; [lia | discriminate..].
  - exists 0, w, [main.Fetch]. now repeat split.
Qed.

Lemma process_emails_on_session_returns_example :
  exists n w' calls,
    main.process_emails unit (fetch_of search_three fetch_but_second parse_stub true)
                        (send_ok tt) (mark_of store_ok true) tt
    = (Returned n, w', calls)
    /\ 0 <= n
    /\ (true = false -> n = 0 /\ w' = tt /\ calls = [main.Fetch]).
Proof.
  apply (process_emails_on_session_returns unit search_three fetch_but_second
           store_ok parse_stub (send_ok tt) true tt).
  intros email w. now exists true, w.
Defined.

(** ** [connect] (email_fetcher.py) *)

(** A server that knows the mailbox under its lower-case name only,
    and one that answers BAD to SELECT. *)
Definition select_lower (mailbox : str) (w : unit) : result (str * str) * unit :=
  if encodings.str_eqb mailbox (lit "inbox")
  then (Returned (lit "OK", lit "3"), w)
  else (Returned (lit "NO", lit "no such mailbox"), w).


(** The SELECTs of a list of names that all answered with a status
    other than OK, each in the world the one before has left. *)
Inductive refused (World : Type)
  (select : str -> World -> result (str * str) * World)
  : list str -> World -> World -> Prop :=
| refused_none w : refused World select [] w w
| refused_next name names w status data w1 w' :
    select name w = (Returned (status, data), w1) ->
    encodings.str_eqb status (lit "OK") = false ->
    refused World select names w1 w' ->
    refused World select (name :: names) w w'.

(** A server that keeps the commands it was sent. *)
Inductive command : Type :=
| Opened (host : str)
| IdSent
| LoggedIn (user : str)
| Selected (mailbox : str)
| Listed.

Definition open_kept (host : str) (w : list command) : result unit * list command :=
  (Returned tt, w ++ [Opened host]).
Definition id_kept (w : list command) : result unit * list command :=
  (Raised IMAP4_error, w ++ [IdSent]).
Definition login_kept (user password : str) (w : list command)
  : result unit * list command :=
  (Returned tt, w ++ [LoggedIn user]).
Definition select_kept (mailbox : str) (w : list command)
  : result (str * str) * list command :=
  (fst (select_lower mailbox tt), w ++ [Selected mailbox]).
Definition list_kept (w : list command) : result unit * list command :=
  (Returned tt, w ++ [Listed]).

Section SelectWorld.

Import email_fetcher.

Variable World : Type.
Variable select : str -> World -> result (str * str) * World.

Lemma select_inbox_selected :
  forall names w w' calls,
    select_inbox World select names w = (Returned true, w', calls) ->
    exists tried name rest w0 status data,
      names = tried ++ name :: rest
      /\ refused World select tried w w0
      /\ select name w0 = (Returned (status, data), w')
      /\ encodings.str_eqb status (lit "OK") = true
      /\ calls = map Select (tried ++ [name]).
Proof.
  induction names as [|name names IH]; intros w w' calls Hrun;
    cbn [select_inbox] in Hrun; [discriminate|].
  destruct (select name w) as [[[status data]|e] w1] eqn:Hselect; [|discriminate].
  destruct (encodings.str_eqb status (lit "OK")) eqn:Hstatus.
  - inversion Hrun; subst; clear Hrun.
    exists [], name, names, w, status, data.
    repeat split; [constructor | exact Hselect | exact Hstatus].
  - destruct (select_inbox World select names w1) as [[r w2] calls1] eqn:Hrest.
    inversion Hrun; subst; clear Hrun.
    destruct (IH _ _ _ Hrest)
      as (tried & name' & rest & w0 & status' & data' & -> & Hrefused & Hlast
          & Hok & ->).
    exists (name :: tried), name', rest, w0, status', data'.
    repeat split; auto.
    now apply (refused_next World select name tried w status data w1 w0).
Qed.

End SelectWorld.

(** [connect] never returns [False]. When it returns, the connection
    was opened, the ID command was sent in the world that has left
    (whatever came of it), the login returned in the world after the
    ID command, and the inbox names were selected in the order INBOX,
    inbox, Inbox, each in the world the one before has left, up to the
    first that answered OK; the world [connect] returns in is the one
    that SELECT has left, and the folders are not listed. *)
Theorem connect_returns_after_select :
  forall (World : Type)
         (IMAP4_SSL : str -> World -> result unit * World)
         (id_command : World -> result unit * World)
         (login : str -> str -> World -> result unit * World)
         (select : str -> World -> result (str * str) * World)
         (list_folders : World -> result unit * World)
         (self : email_fetcher.EmailFetcher) (w w' : World) (b : bool)
         (calls : list email_fetcher.imap_call),
    email_fetcher.connect World IMAP4_SSL id_command login select list_folders
                          self w
    = (Returned b, w', calls) ->
    b = true
    /\ exists w1 w3 tried name rest w4 status data,
        IMAP4_SSL (email_fetcher.host self) w = (Returned tt, w1)
        /\ login (email_fetcher.user self) (email_fetcher.password self)
                 (snd (id_command w1)) = (Returned tt, w3)
        /\ email_fetcher.inbox_names = tried ++ name :: rest
        /\ refused World select tried w3 w4
        /\ select name w4 = (Returned (status, data), w')
        /\ encodings.str_eqb status (lit "OK") = true
        /\ calls = [email_fetcher.Open (email_fetcher.host self);
                    email_fetcher.SendId;
                    email_fetcher.Login (email_fetcher.user self)
                                        (email_fetcher.password self)]
                   ++ map email_fetcher.Select (tried ++ [name]).
Proof.
  intros World IMAP4_SSL id_command login select list_folders self w w' b calls
         Hrun.
  unfold email_fetcher.connect, email_fetcher.connect_body in Hrun.
  destruct (IMAP4_SSL (email_fetcher.host self) w) as [[[]|e] w1] eqn:Hopen;
    [|discriminate].
  unfold email_fetcher._send_id_command in Hrun.
  destruct (login (email_fetcher.user self) (email_fetcher.password self)
                  (snd (id_command w1)))
    as [[[]|e] w3] eqn:Hlogin; [|discriminate].
  destruct (email_fetcher.select_inbox World select email_fetcher.inbox_names w3)
    as [[r w4] selects] eqn:Hselect.
  destruct r as [[|]|e]; try discriminate.
  inversion Hrun; subst; clear Hrun.
  split; [reflexivity|].
  destruct (select_inbox_selected World select _ _ _ _ Hselect)
    as (tried & name & rest & w0 & status & data & Hnames & Hrefused & Hlast
        & Hok & ->).
  exists w1, w3, tried, name, rest, w0, status, data. repeat split; auto.
Qed.

Lemma connect_returns_after_select_example :
  email_fetcher.connect (list command) open_kept id_kept login_kept select_kept
                        list_kept sample_fetcher []
  = (Returned true,
     [Opened (lit "imap.163.com"); IdSent; LoggedIn (lit "me@163.com");
      Selected (lit "INBOX"); Selected (lit "inbox")],
     [email_fetcher.Open (lit "imap.163.com"); email_fetcher.SendId;
      email_fetcher.Login (lit "me@163.com") (lit "code");
      email_fetcher.Select (lit "INBOX"); email_fetcher.Select (lit "inbox")])
  /\ exists w1 w3 tried name rest w4 status data,
      open_kept (email_fetcher.host sample_fetcher) [] = (Returned tt, w1)
      /\ login_kept (email_fetcher.user sample_fetcher)
                    (email_fetcher.password sample_fetcher) (snd (id_kept w1))
         = (Returned tt, w3)
      /\ email_fetcher.inbox_names = tried ++ name :: rest
      /\ refused (list command) select_kept tried w3 w4
      /\ select_kept name w4
         = (Returned (status, data),
            [Opened (lit "imap.163.com"); IdSent; LoggedIn (lit "me@163.com");
             Selected (lit "INBOX"); Selected (lit "inbox")])
      /\ encodings.str_eqb status (lit "OK") = true
      /\ [email_fetcher.Open (lit "imap.163.com"); email_fetcher.SendId;
          email_fetcher.Login (lit "me@163.com") (lit "code");
          email_fetcher.Select (lit "INBOX"); email_fetcher.Select (lit "inbox")]
         = [email_fetcher.Open (email_fetcher.host sample_fetcher);
            email_fetcher.SendId;
            email_fetcher.Login (email_fetcher.user sample_fetcher)
                                (email_fetcher.password sample_fetcher)]
           ++ map email_fetcher.Select (tried ++ [name]).
Proof.
  split; [reflexivity|].
  exact (proj2 (connect_returns_after_select (list command) open_kept id_kept
                  login_kept select_kept list_kept sample_fetcher [] _ true _
                  eq_refl)).
Defined.



(** ** The signed URL (dingtalk_notifier.py) *)

(** ASCII letters, digits and the percent sign. *)
Definition url_safe (c : N) : bool :=
  (codecs.in_range 48 57 c || codecs.in_range 65 90 c || codecs.in_range 97 122 c
   || (c =? 37))%N.

(** The alphabet of [b64encode], padding included. *)
Definition b64_alphabet (c : N) : bool :=
  (codecs.in_range 48 57 c || codecs.in_range 65 90 c || codecs.in_range 97 122 c
   || (c =? 43) || (c =? 47) || (c =? 61))%N.

Lemma b64char_alphabet : forall n, b64_alphabet (Byte.to_N (base64.b64char n)) = true.
Proof.
  intros n. unfold base64.b64char, b64_alphabet.
  destruct (N.ltb_spec n 26).
  { rewrite to_N_byte_of_N by lia.
    rewrite (in_range_true 65 90) by lia. now rewrite !orb_true_r. }
  destruct (N.ltb_spec n 52).
  { rewrite to_N_byte_of_N by lia.
    rewrite (in_range_true 97 122) by lia. now rewrite !orb_true_r. }
  destruct (N.ltb_spec n 62).
  { rewrite to_N_byte_of_N by lia.
    now rewrite (in_range_true 48 57) by lia. }
  destruct (n =? 62)%N; reflexivity.
Qed.

Lemma b64encode_alphabet :
  forall bs, Forall (fun b => b64_alphabet (Byte.to_N b) = true) (base64.b64encode bs).
Proof.
  induction bs as [|a|a b|a b c rest IH] using triples_ind;
    cbn [base64.b64encode];
    repeat (constructor; [first [apply b64char_alphabet | reflexivity]|]);
    auto.
Qed.

Lemma quote_byte_b64 :
  forall b, b64_alphabet (Byte.to_N b) = true ->
            forallb url_safe (urllib.quote_byte b) = true.
Proof. intros b. destruct b; vm_compute; intros H; congruence. Qed.

Lemma forallb_concat :
  forall (A B : Type) (p : B -> bool) (f : A -> list B) (q : A -> Prop) (l : list A),
    (forall a, q a -> forallb p (f a) = true) ->
    Forall q l -> forallb p (concat (map f l)) = true.
Proof.
  intros A B p f q l Hf. induction 1 as [|a l Ha _ IH]; [reflexivity|].
  cbn [map concat]. rewrite forallb_app, (Hf a Ha), IH. reflexivity.
Qed.

Lemma generate_sign_encodable :
  forall (self : dingtalk_notifier.DingTalkNotifier) (timestamp : Z) (key : bytes),
    codecs.utf_8_encode (dingtalk_notifier.secret self) = Some key ->
    exists sign,
      dingtalk_notifier.generate_sign self timestamp = Returned sign
      /\ forallb url_safe sign = true.
Proof.
  intros self timestamp key Hkey.
  destruct (generate_sign_formula self key timestamp Hkey) as (prefix & _ & ->).
  eexists. split; [reflexivity|].
  apply forallb_concat with (q := fun b => b64_alphabet (Byte.to_N b) = true).
  - exact quote_byte_b64.
  - apply b64encode_alphabet.
Qed.

Lemma generate_sign_unencodable :
  forall (self : dingtalk_notifier.DingTalkNotifier) (timestamp : Z),
    codecs.utf_8_encode (dingtalk_notifier.secret self) = None ->
    dingtalk_notifier.generate_sign self timestamp = Raised UnicodeEncodeError.
Proof.
  intros self timestamp Hkey.
  unfold dingtalk_notifier.generate_sign, dingtalk_notifier.encode_utf_8, bind.
  now rewrite Hkey.
Qed.

(** [generate_sign] returns for every secret that has a UTF-8 encoding
    and raises [UnicodeEncodeError] for the others (a secret with a
    lone surrogate). The signature is made of ASCII letters, digits and
    percent signs only: the characters [+], [/] and [=] of base64 are
    quoted, so it can be put in a query string as it is. *)
Theorem generate_sign_url_safe :
  forall (self : dingtalk_notifier.DingTalkNotifier) (timestamp : Z),
    match dingtalk_notifier.generate_sign self timestamp with
    | Returned sign =>
        forallb url_safe sign = true
        /\ exists key, codecs.utf_8_encode (dingtalk_notifier.secret self) = Some key
    | Raised e =>
        e = UnicodeEncodeError
        /\ codecs.utf_8_encode (dingtalk_notifier.secret self) = None
    end.
Proof.
  intros self timestamp.
  destruct (codecs.utf_8_encode (dingtalk_notifier.secret self)) as [key|] eqn:Hkey.
  - destruct (generate_sign_encodable self timestamp key Hkey) as (sign & -> & Hsafe).
    split; [exact Hsafe | now exists key].
  - rewrite (generate_sign_unencodable self timestamp Hkey). now split.
Qed.

Definition is_question_mark (c : N) : bool := (c =? 63)%N.

Definition question_marks (s : str) : nat := List.length (filter is_question_mark s).

Lemma question_marks_app :
  forall a b, question_marks (a ++ b) = (question_marks a + question_marks b)%nat.
Proof.
  intros a b. unfold question_marks. now rewrite filter_app, length_app.
Qed.

Lemma question_marks_none :
  forall (p : N -> bool) s,
    (forall c, p c = true -> is_question_mark c = false) ->
    forallb p s = true -> question_marks s = 0%nat.
Proof.
  intros p s Hp. unfold question_marks.
  induction s as [|c s IH]; [reflexivity|]. cbn [forallb filter].
  intros H. apply andb_true_iff in H. destruct H as [Hc Hs].
  rewrite (Hp c Hc). now apply IH.
Qed.

Definition numeral_char (c : N) : bool := (codecs.in_range 48 57 c || (c =? 45))%N.

Lemma string_of_uint_numeral :
  forall d, forallb numeral_char (lit (DecimalString.NilEmpty.string_of_uint d)) = true.
Proof. induction d; cbn; auto. Qed.

Lemma str_of_int_numeral :
  forall z, forallb numeral_char (dingtalk_notifier.str_of_int z) = true.
Proof.
  intros z. unfold dingtalk_notifier.str_of_int, DecimalString.NilZero.string_of_int,
              DecimalString.NilZero.string_of_uint.
  destruct (Z.to_int z) as [d|d].
  - destruct d; try reflexivity; apply string_of_uint_numeral.
  - destruct d; try reflexivity;
      (cbn [lit list_ascii_of_string map forallb]; apply andb_true_iff; split;
       [reflexivity | apply string_of_uint_numeral]).
Qed.

Lemma existsb_question_mark :
  forall s, existsb (N.eqb 63) s = negb (question_marks s =? 0)%nat.
Proof.
  unfold question_marks. induction s as [|c s IH]; [reflexivity|].
  cbn [existsb filter]. unfold is_question_mark at 1.
  rewrite (N.eqb_sym 63 c). destruct (c =? 63)%N; [reflexivity | exact IH].
Qed.

(** [build_webhook_url] appends the two parameters to the webhook URL
    as it is, after a [?] when the URL has none and after an [&] when
    it has one; what is appended holds no other [?]. So the URL built
    has one question mark when the webhook URL has none, and as many
    as the webhook URL otherwise. *)
Theorem build_webhook_url_separator :
  forall (self : dingtalk_notifier.DingTalkNotifier) (timestamp : Z) (url : str),
    dingtalk_notifier.build_webhook_url self timestamp = Returned url ->
    (exists query,
        url = dingtalk_notifier.webhook_url self
              ++ (if (question_marks (dingtalk_notifier.webhook_url self) =? 0)%nat
                  then 63%N else 38%N) :: query
        /\ question_marks query = 0%nat)
    /\ question_marks url
       = Nat.max 1 (question_marks (dingtalk_notifier.webhook_url self)).
Proof.
  intros self timestamp url Hurl.
  unfold dingtalk_notifier.build_webhook_url, bind in Hurl.
  destruct (codecs.utf_8_encode (dingtalk_notifier.secret self)) as [key|] eqn:Hkey;
    [|rewrite (generate_sign_unencodable self timestamp Hkey) in Hurl; discriminate].
  destruct (generate_sign_encodable self timestamp key Hkey) as (sign & Hsign & Hsafe).
  rewrite Hsign in Hurl.
  apply Returned_inj in Hurl. subst url.
  rewrite existsb_question_mark.
  assert (Hquery :
            question_marks (lit "timestamp=" ++ dingtalk_notifier.str_of_int timestamp
                            ++ lit "&sign=" ++ sign) = 0%nat).
  { rewrite !question_marks_app.
    rewrite (question_marks_none numeral_char (dingtalk_notifier.str_of_int timestamp));
      [|intros c H; unfold is_question_mark;
        destruct (N.eqb_spec c 63) as [->|]; [discriminate H | reflexivity]
       |apply str_of_int_numeral].
    rewrite (question_marks_none url_safe sign);
      [|intros c H; unfold is_question_mark;
        destruct (N.eqb_spec c 63) as [->|]; [discriminate H | reflexivity]
       |exact Hsafe].
    reflexivity. }
  destruct (question_marks (dingtalk_notifier.webhook_url self)) as [|n] eqn:Hn;
    cbn [Nat.eqb negb app].
  - split.
    + eexists. split; [reflexivity | exact Hquery].
    + rewrite question_marks_app, Hn.
      change (63%N :: ?q) with ([63%N] ++ q). rewrite question_marks_app, Hquery.
      reflexivity.
  - split.
    + eexists. split; [reflexivity | exact Hquery].
    + rewrite question_marks_app, Hn.
      change (38%N :: ?q) with ([38%N] ++ q). rewrite question_marks_app, Hquery.
      cbn. lia.
Qed.

Lemma build_webhook_url_separator_example :
  dingtalk_notifier.build_webhook_url sample_notifier 1700000000000
  = Returned (lit "https://oapi.example/robot/send?access_token=t&timestamp=1700000000000&sign=jcUpW0QmtKduN03n4JqQ0PBosVjqnM8gU7fIIvsDmCM%3D")
  /\ question_marks (lit "https://oapi.example/robot/send?access_token=t&timestamp=1700000000000&sign=jcUpW0QmtKduN03n4JqQ0PBosVjqnM8gU7fIIvsDmCM%3D")
     = Nat.max 1 (question_marks (dingtalk_notifier.webhook_url sample_notifier)).
Proof.
  assert (H : dingtalk_notifier.build_webhook_url sample_notifier 1700000000000
              = Returned (lit "https://oapi.example/robot/send?access_token=t&timestamp=1700000000000&sign=jcUpW0QmtKduN03n4JqQ0PBosVjqnM8gU7fIIvsDmCM%3D"))
    by (vm_compute; reflexivity).
  split; [exact H|].
  exact (proj2 (build_webhook_url_separator sample_notifier 1700000000000 _ H)).
Defined.

(** A notifier whose secret holds a lone surrogate. *)
Definition surrogate_notifier : dingtalk_notifier.DingTalkNotifier :=
  dingtalk_notifier.mkNotifier (lit "https://oapi.example/robot/send")
                               [0xD800%N].

(** With a secret that has no UTF-8 encoding, [send] does not answer
    [False]: the [UnicodeEncodeError] of the first signature is not a
    [RequestException], so it leaves [send] before anything is posted
    and without a retry. *)
Theorem send_unencodable_secret_raises :
  forall (World : Type)
         (time_ms : World -> Z * World)
         (post : str -> dingtalk_notifier.message -> World
                 -> dingtalk_notifier.post_outcome * World)
         (sleep : Z -> World -> World)
         (self : dingtalk_notifier.DingTalkNotifier) (email : Email) (w : World),
    codecs.utf_8_encode (dingtalk_notifier.secret self) = None ->
    dingtalk_notifier.send World time_ms post sleep self email w
    = (Raised UnicodeEncodeError, snd (time_ms w), []).
Proof.
  intros World time_ms post sleep self email w Hsecret.
  unfold dingtalk_notifier.send.
  destruct (dingtalk_notifier.format_message self email) as [payload email'].
  change (map Z.of_nat (seq 0 (Z.to_nat dingtalk_notifier.MAX_RETRIES)))
    with [0; 1; 2].
  cbn [dingtalk_notifier.send_attempts].
  destruct (time_ms w) as [timestamp w1]. cbn [snd].
  unfold dingtalk_notifier.build_webhook_url, bind.
  now rewrite (generate_sign_unencodable self timestamp Hsecret).
Qed.

Lemma send_unencodable_secret_raises_example :
  dingtalk_notifier.send (list dingtalk_notifier.post_outcome) scripted_time
                         scripted_post scripted_sleep surrogate_notifier
                         sample_email []
  = (Raised UnicodeEncodeError, snd (scripted_time []), []).
Proof.
  apply (send_unencodable_secret_raises (list dingtalk_notifier.post_outcome)
           scripted_time scripted_post scripted_sleep surrogate_notifier
           sample_email []).
  reflexivity.
Defined.

(** ** The body of a message (email_parser.py) *)

(** A part the first loop of [_extract_body] returns at, and one the
    second loop returns at. *)
Definition plain_with_payload (part : email_parser.message) : bool :=
  negb (email_parser.contains (lit "attachment")
                              (email_parser.get_content_disposition part))
  && encodings.str_eqb (email_parser.get_content_type part) (lit "text/plain")
  && match email_parser.get_payload part with
     | Some (_ :: _) => true
     | _ => false
     end.

Definition html_with_payload (part : email_parser.message) : bool :=
  encodings.str_eqb (email_parser.get_content_type part) (lit "text/html")
  && match email_parser.get_payload part with
     | Some (_ :: _) => true
     | _ => false
     end.

Lemma first_plain_found :
  forall before part after,
    forallb (fun p => negb (plain_with_payload p)) before = true ->
    plain_with_payload part = true ->
    email_parser.first_plain (before ++ part :: after) = Some part.
Proof.
  unfold plain_with_payload.
  induction before as [|p before IH]; intros part after Hbefore Hpart;
    cbn [app email_parser.first_plain].
  - destruct (email_parser.contains (lit "attachment")
                (email_parser.get_content_disposition part)); [discriminate|].
    destruct (encodings.str_eqb (email_parser.get_content_type part)
                                (lit "text/plain")); [|discriminate].
    destruct (email_parser.get_payload part) as [[|b bs]|]; try discriminate.
    reflexivity.
  - cbn [forallb] in Hbefore. apply andb_true_iff in Hbefore.
    destruct Hbefore as [Hp Hbefore].
    destruct (email_parser.contains (lit "attachment")
                (email_parser.get_content_disposition p)); [now apply IH|].
    destruct (encodings.str_eqb (email_parser.get_content_type p)
                                (lit "text/plain")); [|now apply IH].
    destruct (email_parser.get_payload p) as [[|b bs]|]; try discriminate;
      now apply IH.
Qed.

Lemma first_plain_none :
  forall parts,
    forallb (fun p => negb (plain_with_payload p)) parts = true ->
    email_parser.first_plain parts = None.
Proof.
  unfold plain_with_payload.
  induction parts as [|p parts IH]; intros Hparts; [reflexivity|].
  cbn [forallb] in Hparts. apply andb_true_iff in Hparts.
  destruct Hparts as [Hp Hparts]. cbn [email_parser.first_plain].
  destruct (email_parser.contains (lit "attachment")
              (email_parser.get_content_disposition p)); [now apply IH|].
  destruct (encodings.str_eqb (email_parser.get_content_type p)
                              (lit "text/plain")); [|now apply IH].
  destruct (email_parser.get_payload p) as [[|b bs]|]; try discriminate;
    now apply IH.
Qed.

Lemma first_html_found :
  forall before part after,
    forallb (fun p => negb (html_with_payload p)) before = true ->
    html_with_payload part = true ->
    email_parser.first_html (before ++ part :: after) = Some part.
Proof.
  unfold html_with_payload.
  induction before as [|p before IH]; intros part after Hbefore Hpart;
    cbn [app email_parser.first_html].
  - destruct (encodings.str_eqb (email_parser.get_content_type part)
                                (lit "text/html")); [|discriminate].
    destruct (email_parser.get_payload part) as [[|b bs]|]; try discriminate.
    reflexivity.
  - cbn [forallb] in Hbefore. apply andb_true_iff in Hbefore.
    destruct Hbefore as [Hp Hbefore].
    destruct (encodings.str_eqb (email_parser.get_content_type p)
                                (lit "text/html")); [|now apply IH].
    destruct (email_parser.get_payload p) as [[|b bs]|]; try discriminate;
      now apply IH.
Qed.

(** A multipart message with an HTML part before its plain part, and
    one whose only text is an HTML attachment. *)
Definition html_part : email_parser.message :=
  email_parser.Message (lit "text/html") [] (Some (lit "utf-8"))
                       (Some (map codecs.byte_of_N (lit "<p>Hi</p>"))) None.

Definition plain_part : email_parser.message :=
  email_parser.Message (lit "text/plain") (lit "inline") None
                       (Some (map codecs.byte_of_N (lit "Hi there"))) None.

Definition attached_html : email_parser.message :=
  email_parser.Message (lit "text/html") (lit "attachment; filename=page.html")
                       (Some (lit "utf-8"))
                       (Some (map codecs.byte_of_N (lit "<p>Hi</p>"))) None.

Definition html_first : email_parser.message :=
  email_parser.Message (lit "multipart/alternative") [] None None
                       (Some [html_part; plain_part]).

Definition attachment_only : email_parser.message :=
  email_parser.Message (lit "multipart/mixed") [] None None (Some [attached_html]).

(** The calls [feed] makes for [<p>Hi</p>]. *)
Definition feed_paragraph (html : str) : result (list email_parser.html_event) :=
  Returned [email_parser.starttag (lit "p") []; email_parser.data (lit "Hi");
            email_parser.endtag (lit "p")].

Definition re_sub_none (pattern : string) (repl text : str) (flags : bool) : str :=
  text.

(** In a multipart message the body is the decoded payload of the
    first part, in the order of [walk], that is no attachment, is
    [text/plain] and has a payload that is not empty, whatever parts
    come before it: an HTML part that comes first is not used, and the
    plain text does not pass through the HTML conversion. The charset
    is the one of the part, UTF-8 when it declares none. *)
Theorem _extract_body_prefers_plain :
  forall (feed : str -> result (list email_parser.html_event))
         (re_sub : string -> str -> str -> bool -> str)
         (bytes_decode : bytes -> str -> result str)
         (msg part : email_parser.message)
         (before after : list email_parser.message) (payload : bytes),
    email_parser.is_multipart msg = true ->
    email_parser.walk msg = before ++ part :: after ->
    forallb (fun p => negb (plain_with_payload p)) before = true ->
    plain_with_payload part = true ->
    email_parser.get_payload part = Some payload ->
    email_parser._extract_body feed re_sub bytes_decode msg
    = email_parser.decode_content
        bytes_decode payload
        (Some (email_parser.charset_or_utf_8 (email_parser.get_content_charset part))).
Proof.
  intros feed re_sub bytes_decode msg part before after payload
         Hmulti Hwalk Hbefore Hpart Hpayload.
  unfold email_parser._extract_body. rewrite Hmulti, Hwalk.
  rewrite (first_plain_found before part after Hbefore Hpart).
  unfold email_parser.decode_part. now rewrite Hpayload.
Qed.

Lemma _extract_body_prefers_plain_example :
  email_parser._extract_body feed_paragraph re_sub_none
                             (encodings.bytes_decode encodings.ascii_range_cjk) html_first
  = email_parser.decode_content (encodings.bytes_decode encodings.ascii_range_cjk)
                                (map codecs.byte_of_N (lit "Hi there"))
                                (Some (lit "utf-8"))
  /\ email_parser._extract_body feed_paragraph re_sub_none
                                (encodings.bytes_decode encodings.ascii_range_cjk) html_first
     = Returned (lit "Hi there").
Proof.
  split; [|vm_compute; reflexivity].
  apply (_extract_body_prefers_plain feed_paragraph re_sub_none
           (encodings.bytes_decode encodings.ascii_range_cjk) html_first plain_part
           [html_first; html_part] [] (map codecs.byte_of_N (lit "Hi there")));
    reflexivity.
Defined.

(** The second loop of [_extract_body] does not look at the
    disposition: when no part qualifies as plain text, the first
    [text/html] part with a payload gives the body, through the HTML
    conversion, also when it is an attachment. *)
Theorem _extract_body_uses_html_attachment :
  forall (feed : str -> result (list email_parser.html_event))
         (re_sub : string -> str -> str -> bool -> str)
         (bytes_decode : bytes -> str -> result str)
         (msg part : email_parser.message)
         (before after : list email_parser.message) (payload : bytes),
    email_parser.is_multipart msg = true ->
    forallb (fun p => negb (plain_with_payload p)) (email_parser.walk msg) = true ->
    email_parser.walk msg = before ++ part :: after ->
    forallb (fun p => negb (html_with_payload p)) before = true ->
    html_with_payload part = true ->
    email_parser.get_payload part = Some payload ->
    email_parser._extract_body feed re_sub bytes_decode msg
    = match email_parser.decode_content
              bytes_decode payload
              (Some (email_parser.charset_or_utf_8
                       (email_parser.get_content_charset part))) with
      | Returned html_content =>
          Returned (email_parser._html_to_text feed re_sub html_content)
      | Raised e => Raised e
      end.
Proof.
  intros feed re_sub bytes_decode msg part before after payload
         Hmulti Hplain Hwalk Hbefore Hpart Hpayload.
  unfold email_parser._extract_body. rewrite Hmulti.
  rewrite (first_plain_none _ Hplain). rewrite Hwalk.
  rewrite (first_html_found before part after Hbefore Hpart).
  unfold email_parser.decode_part, bind. now rewrite Hpayload.
Qed.

Lemma _extract_body_uses_html_attachment_example :
  email_parser.contains (lit "attachment")
                        (email_parser.get_content_disposition attached_html) = true
  /\ email_parser._extract_body feed_paragraph re_sub_none
                                (encodings.bytes_decode encodings.ascii_range_cjk)
                                attachment_only
     = Returned (lit "Hi").
Proof.
  split; [reflexivity|].
  rewrite (_extract_body_uses_html_attachment feed_paragraph re_sub_none
             (encodings.bytes_decode encodings.ascii_range_cjk) attachment_only
             attached_html [attachment_only] []
             (map codecs.byte_of_N (lit "<p>Hi</p>")));
    reflexivity.
Defined.

(** ** Decoding with a missing or unknown charset (email_parser.py) *)

(** Content that is valid UTF-8 is decoded as UTF-8 whenever the
    declared charset does not settle the call: when none is declared,
    and when the declared one is unknown to the runtime or cannot
    decode the content. UTF-8 is the first name of the list the
    decoder falls back to. *)
Theorem decode_content_falls_back_to_utf_8 :
  forall (cjk : encodings.CJK) (content : bytes) (charset : option str) (text : str),
    codecs.utf_8_decode content = Some text ->
    (forall encoding,
        charset = Some encoding ->
        exists e,
          encodings.bytes_decode cjk content encoding = Raised e
          /\ isinstance_any e [UnicodeDecodeError; LookupError] = true) ->
    email_parser.decode_content (encodings.bytes_decode cjk) content charset
    = Returned text.
Proof.
  intros cjk content charset text Hutf Hcharset.
  unfold email_parser.decode_content, email_parser.decode_content_from.
  destruct content as [|b content].
  - vm_compute in Hutf. inversion Hutf. reflexivity.
  - assert (Hloop :
              email_parser.decode_supported (encodings.bytes_decode cjk)
                                            (b :: content)
                                            email_parser.SUPPORTED_ENCODINGS
              = (email_parser.FromSupported (lit "utf-8"), Returned text)).
    { unfold email_parser.SUPPORTED_ENCODINGS.
      cbn [email_parser.decode_supported]. unfold email_parser.try_decode.
      change (encodings.bytes_decode cjk (b :: content) (lit "utf-8"))
        with (strict_decode encodings.utf_8 (b :: content)).
      unfold strict_decode.
      change (encodings.decode encodings.utf_8 (b :: content))
        with (codecs.utf_8_decode (b :: content)).
      now rewrite Hutf. }
    destruct charset as [[|c cs]|]; [now rewrite Hloop| |now rewrite Hloop].
    destruct (Hcharset (c :: cs) eq_refl) as (e & Hraise & Hcaught).
    unfold email_parser.try_decode. rewrite Hraise, Hcaught.
    now rewrite Hloop.
Qed.

Lemma decode_content_falls_back_to_utf_8_example :
  email_parser.decode_content (encodings.bytes_decode encodings.ascii_range_cjk)
                              [xc3; xa9] (Some (lit "x-unknown"))
  = Returned [0xE9%N].
Proof.
  apply (decode_content_falls_back_to_utf_8 encodings.ascii_range_cjk [xc3; xa9]
           (Some (lit "x-unknown")) [0xE9%N]).
  - reflexivity.
  - intros encoding H. injection H as <-. exists LookupError. split; reflexivity.
Defined.

(** A declared charset that the runtime knows and that cannot decode
    the content does not make the call fail. *)
Lemma decode_content_returns_when_caught_example :
  exists text,
    email_parser.decode_content (encodings.bytes_decode encodings.ascii_range_cjk)
                                [xff] (Some (lit "ascii"))
    = Returned text.
Proof.
  apply (decode_content_returns_when_caught encodings.ascii_range_cjk [xff]
           (Some (lit "ascii"))).
  intros encoding e H. injection H as <-. vm_compute. intros H. injection H as <-.
  reflexivity.
Defined.

(** ** Text of an HTML part (email_parser.py) *)

(** An event that leaves [skip_data] as it is: any but the end of a
    tag of [skip_tags], written as an end tag or as [<x/>]. *)
Definition keeps_flag (ev : email_parser.html_event) : bool :=
  match ev with
  | email_parser.endtag tag | email_parser.startendtag tag _ =>
      negb (email_parser.tag_in tag email_parser.skip_tags)
  | _ => true
  end.

(** The calls [feed] makes for [<meta charset="utf-8"><p>Hello</p>]. *)
Definition meta_then_text : list email_parser.html_event :=
  [email_parser.starttag (lit "meta") [(lit "charset", Some (lit "utf-8"))];
   email_parser.starttag (lit "p") [];
   email_parser.data (lit "Hello");
   email_parser.endtag (lit "p")].

Section StripFacts.

Import email_parser.

Lemma lstrip_suffix :
  forall s, exists ws, s = ws ++ lstrip s /\ forallb isspace ws = true.
Proof.
  induction s as [|c s (ws & Hs & Hws)]; [now exists []|].
  cbn [lstrip]. destruct (isspace c) eqn:Hc.
  - exists (c :: ws). split; [cbn [app]; now rewrite <- Hs|].
    cbn [forallb]. now rewrite Hc.
  - now exists [].
Qed.

Lemma strip_infix :
  forall s, exists left right,
    s = left ++ strip s ++ right
    /\ forallb isspace left = true /\ forallb isspace right = true.
Proof.
  intros s. unfold strip.
  destruct (lstrip_suffix s) as (left & Hs & Hleft).
  destruct (lstrip_suffix (rev (lstrip s))) as (ws & Hrev & Hws).
  exists left, (rev ws). repeat split; [|exact Hleft|].
  - rewrite Hs at 1. f_equal.
    apply (f_equal (@rev N)) in Hrev.
    rewrite rev_involutive, rev_app_distr in Hrev. exact Hrev.
  - rewrite forallb_forall in Hws |- *. intros c Hc. apply Hws.
    now apply in_rev.
Qed.

Lemma strip_spaces :
  forall s, forallb isspace s = true -> strip s = [].
Proof.
  intros s Hs. unfold strip.
  assert (H : lstrip s = []).
  { induction s as [|c s IH]; [reflexivity|]. cbn [forallb] in Hs.
    apply andb_true_iff in Hs. destruct Hs as [Hc Hs].
    cbn [lstrip]. rewrite Hc. now apply IH. }
  now rewrite H.
Qed.

End StripFacts.

Section SkipFacts.

Import email_parser.

(** While the flag is set and is not cleared, nothing but newlines
    reaches the text. *)
Lemma skipping_adds_newlines :
  forall events (self : HTMLTextExtractor),
    skip_data self = true ->
    forallb keeps_flag events = true ->
    exists n,
      handle_all self events
      = mkExtractor (text_parts self ++ repeat [10%N] n) true.
Proof.
  induction events as [|ev events IH]; intros self Hskip Hkeep.
  - exists 0%nat. cbn [handle_all fold_left repeat]. rewrite app_nil_r.
    destruct self as [parts skip]. cbn in Hskip. now subst skip.
  - cbn [forallb] in Hkeep. apply andb_true_iff in Hkeep.
    destruct Hkeep as [Hev Hkeep].
    assert (Hstep : exists k,
               handle self ev = mkExtractor (text_parts self ++ repeat [10%N] k) true).
    { destruct self as [parts skip]. cbn in Hskip. subst skip.
      destruct ev as [tag attrs|tag|tag attrs|d]; cbn [handle keeps_flag] in *.
      - unfold handle_starttag, append. cbn [text_parts skip_data].
        destruct (tag_in tag skip_tags);
          [exists 0%nat; cbn [repeat]; now rewrite app_nil_r|].
        destruct (tag_in tag ["br"; "p"; "div"; "tr"; "li"]%string);
          [now exists 1%nat | exists 0%nat; cbn [repeat]; now rewrite app_nil_r].
      - unfold handle_endtag, append. cbn [text_parts skip_data].
        destruct (tag_in tag skip_tags); [discriminate|].
        destruct (tag_in tag ["p"; "div"; "tr"; "h1"; "h2"; "h3"; "h4"; "h5"; "h6"]%string);
          [now exists 1%nat | exists 0%nat; cbn [repeat]; now rewrite app_nil_r].
      - unfold handle_starttag, handle_endtag, append. cbn [text_parts skip_data].
        destruct (tag_in tag skip_tags); [discriminate|].
        destruct (tag_in tag ["br"; "p"; "div"; "tr"; "li"]%string);
          cbn [text_parts skip_data];
          destruct (tag_in tag ["p"; "div"; "tr"; "h1"; "h2"; "h3"; "h4"; "h5"; "h6"]%string);
          cbn [text_parts skip_data].
        + exists 2%nat. cbn [repeat]. now rewrite <- app_assoc.
        + now exists 1%nat.
        + now exists 1%nat.
        + exists 0%nat. cbn [repeat]. now rewrite app_nil_r.
      - unfold handle_data. cbn [skip_data negb].
        exists 0%nat. cbn [repeat text_parts]. now rewrite app_nil_r. }
    destruct Hstep as [k Hstep].
    change (handle_all self (ev :: events)) with (handle_all (handle self ev) events).
    rewrite Hstep.
    destruct (IH (mkExtractor (text_parts self ++ repeat [10%N] k) true) eq_refl Hkeep)
      as [n Hrest].
    rewrite Hrest. exists (k + n)%nat. cbn [text_parts].
    now rewrite repeat_app, app_assoc.
Qed.

Lemma collapse_blank_lines_spaces :
  forall fuel s,
    forallb isspace s = true -> forallb isspace (collapse_blank_lines fuel s) = true.
Proof.
  induction fuel as [|fuel IH]; intros s Hs.
  - destruct s; exact Hs.
  - destruct s as [|c rest]; [reflexivity|]. cbn [collapse_blank_lines].
    cbn [forallb] in Hs. apply andb_true_iff in Hs. destruct Hs as [Hc Hrest].
    destruct (c =? 10)%N eqn:Hnl.
    + destruct (span_space rest) as [ws tail] eqn:Hspan.
      destruct (after_last_newline ws) as [ws'|] eqn:Hlast.
      * cbn [forallb]. change (isspace 10) with true. cbn [andb].
        apply IH.
        assert (Hboth : forallb isspace ws = true /\ forallb isspace tail = true).
        { clear - Hspan Hrest. revert ws tail Hspan Hrest.
          induction rest as [|d rest IHr]; intros ws tail Hspan Hrest;
            cbn [span_space] in Hspan.
          - inversion Hspan; subst. now split.
          - cbn [forallb] in Hrest. apply andb_true_iff in Hrest.
            destruct Hrest as [Hd Hrest]. rewrite Hd in Hspan.
            destruct (span_space rest) as [ws0 tail0].
            inversion Hspan; subst.
            destruct (IHr ws0 tail eq_refl Hrest) as [H1 H2].
            split; [cbn [forallb]; now rewrite Hd | exact H2]. }
        destruct Hboth as [Hws Htail].
        assert (Hws' : forallb isspace ws' = true).
        { clear - Hlast Hws. revert ws' Hlast Hws.
          induction ws as [|d ws IHw]; intros ws' Hlast Hws;
            cbn [after_last_newline] in Hlast; [discriminate|].
          cbn [forallb] in Hws. apply andb_true_iff in Hws.
          destruct Hws as [Hd Hws].
          destruct (after_last_newline ws) as [t|].
          - inversion Hlast; subst. now apply IHw.
          - destruct (d =? 10)%N; [|discriminate]. now inversion Hlast; subst. }
        rewrite forallb_app. now rewrite Hws', Htail.
      * cbn [forallb]. rewrite Hc. cbn [andb]. now apply IH.
    + cbn [forallb]. rewrite Hc. cbn [andb]. now apply IH.
Qed.

Lemma collapse_spaces_spaces :
  forall s, forallb isspace s = true -> forallb isspace (collapse_spaces s) = true.
Proof.
  induction s as [|c rest IH]; intros Hs; [reflexivity|].
  cbn [forallb] in Hs. apply andb_true_iff in Hs. destruct Hs as [Hc Hrest].
  cbn [collapse_spaces].
  destruct ((c =? 32)%N && match rest with
                           | c' :: _ => (c' =? 32)%N
                           | [] => false
                           end); [now apply IH|].
  cbn [forallb]. rewrite Hc. now apply IH.
Qed.

Lemma get_text_of_spaces :
  forall self,
    forallb isspace (concat (text_parts self)) = true -> get_text self = [].
Proof.
  intros self Hs. unfold get_text. apply strip_spaces.
  now apply collapse_spaces_spaces, collapse_blank_lines_spaces.
Qed.

End SkipFacts.

(** A start tag of [skip_tags] sets a flag that only an end tag of
    [skip_tags] clears. After a [meta] or [link] tag written without a
    slash, which has no end tag, the text that follows is dropped up
    to the next such end tag: until then the extractor appends
    nothing but newlines, and a document that opens with such a tag
    and closes none gives the empty text. *)
Theorem text_after_unclosed_skip_tag_is_dropped :
  forall (self : email_parser.HTMLTextExtractor) (tag : str)
         (attrs : list (str * option str)) (events : list email_parser.html_event),
    email_parser.tag_in tag email_parser.skip_tags = true ->
    forallb keeps_flag events = true ->
    (exists n,
        email_parser.text_parts
          (email_parser.handle_all self (email_parser.starttag tag attrs :: events))
        = email_parser.text_parts self ++ repeat [10%N] n)
    /\ email_parser.get_text
         (email_parser.handle_all email_parser.init
                                  (email_parser.starttag tag attrs :: events))
       = [].
Proof.
  intros self tag attrs events Htag Hkeep.
  assert (Hrun : forall s,
             exists n,
               email_parser.handle_all s (email_parser.starttag tag attrs :: events)
               = email_parser.mkExtractor
                   (email_parser.text_parts s ++ repeat [10%N] n) true).
  { intros s.
    change (email_parser.handle_all s (email_parser.starttag tag attrs :: events))
      with (email_parser.handle_all (email_parser.handle_starttag s tag attrs) events).
    unfold email_parser.handle_starttag. rewrite Htag.
    apply (skipping_adds_newlines events
             (email_parser.mkExtractor (email_parser.text_parts s) true) eq_refl Hkeep). }
  split.
  - destruct (Hrun self) as [n ->]. now exists n.
  - destruct (Hrun email_parser.init) as [n ->].
    apply get_text_of_spaces. cbn [email_parser.text_parts email_parser.init app].
    clear. induction n as [|n IH]; [reflexivity|].
    cbn [repeat concat app forallb]. exact IH.
Qed.

Lemma text_after_unclosed_skip_tag_is_dropped_example :
  email_parser.get_text (email_parser.handle_all email_parser.init meta_then_text)
  = [].
Proof.
  apply (text_after_unclosed_skip_tag_is_dropped email_parser.init (lit "meta")
           [(lit "charset", Some (lit "utf-8"))]
           [email_parser.starttag (lit "p") []; email_parser.data (lit "Hello");
            email_parser.endtag (lit "p")]); reflexivity.
Defined.

(** *** The form of the text *)

Definition starts_clean (s : str) : bool :=
  match s with
  | [] => true
  | c :: _ => negb (email_parser.isspace c)
  end.

Definition head_is (c : N) (s : str) : bool :=
  match s with
  | c' :: _ => (c' =? c)%N
  | [] => false
  end.

Section TextFacts.

Import email_parser.
Local Open Scope N_scope.

Lemma starts_with_app :
  forall p s t, json.starts_with p s = true -> json.starts_with p (s ++ t) = true.
Proof.
  induction p as [|a p IH]; intros s t H; [reflexivity|].
  destruct s as [|c s]; [discriminate|]. cbn [app json.starts_with] in *.
  apply andb_true_iff in H. destruct H as [Ha Hp].
  rewrite Ha. now apply IH.
Qed.

Lemma contains_app_r :
  forall p s t, contains p s = true -> contains p (s ++ t) = true.
Proof.
  induction s as [|c s IH]; intros t H.
  - cbn [contains] in H. rewrite orb_false_r in H.
    destruct p; [|discriminate]. destruct t; reflexivity.
  - cbn [contains app] in *. apply orb_true_iff in H. destruct H as [H|H].
    + change (c :: s ++ t) with ((c :: s) ++ t).
      now rewrite (starts_with_app p (c :: s) t H).
    + rewrite (IH t H). apply orb_true_r.
Qed.

Lemma contains_app_l :
  forall p s t, contains p t = true -> contains p (s ++ t) = true.
Proof.
  induction s as [|c s IH]; intros t H; [exact H|].
  cbn [app contains]. rewrite (IH t H). apply orb_true_r.
Qed.

Lemma contains_infix :
  forall p l m r, contains p (l ++ m ++ r) = false -> contains p m = false.
Proof.
  intros p l m r H. destruct (contains p m) eqn:Hm; [|reflexivity].
  rewrite (contains_app_l p l (m ++ r) (contains_app_r p m r Hm)) in H.
  discriminate.
Qed.

Lemma strip_starts_clean : forall s, starts_clean (strip s) = true.
Proof.
  intros s. unfold strip.
  assert (Hl : forall t, starts_clean (lstrip t) = true).
  { induction t as [|c t IH]; [reflexivity|]. cbn [lstrip].
    destruct (isspace c) eqn:Hc; [exact IH|]. cbn [starts_clean]. now rewrite Hc. }
  destruct (lstrip_suffix (rev (lstrip s))) as (ws & Hrev & _).
  apply (f_equal (@rev N)) in Hrev.
  rewrite rev_involutive, rev_app_distr in Hrev.
  specialize (Hl s). rewrite Hrev in Hl.
  destruct (rev (lstrip (rev (lstrip s)))) as [|c r]; [reflexivity | exact Hl].
Qed.

Lemma strip_ends_clean : forall s, starts_clean (rev (strip s)) = true.
Proof.
  intros s. unfold strip. rewrite rev_involutive.
  generalize (rev (lstrip s)). induction l as [|c t IH]; [reflexivity|].
  cbn [lstrip]. destruct (isspace c) eqn:Hc; [exact IH|].
  cbn [starts_clean]. now rewrite Hc.
Qed.

Lemma strip_keeps_free :
  forall p s, contains p s = false -> contains p (strip s) = false.
Proof.
  intros p s H. destruct (strip_infix s) as (l & r & Hs & _).
  rewrite Hs in H. exact (contains_infix p l (strip s) r H).
Qed.

(** Runs of spaces. *)
Lemma collapse_spaces_head :
  forall s, head_is 32 (collapse_spaces s) = head_is 32 s.
Proof.
  induction s as [|c rest IH]; [reflexivity|]. cbn [collapse_spaces].
  fold (head_is 32 rest).
  destruct (c =? 32) eqn:Hc; cbn [andb].
  - destruct (head_is 32 rest) eqn:Hrest.
    + rewrite IH. cbn [head_is]. now rewrite Hc.
    + cbn [head_is]. now rewrite Hc.
  - cbn [head_is]. now rewrite Hc.
Qed.

Lemma collapse_spaces_no_double :
  forall s, contains [32; 32] (collapse_spaces s) = false.
Proof.
  induction s as [|c rest IH]; [reflexivity|]. cbn [collapse_spaces].
  fold (head_is 32 rest).
  destruct ((c =? 32) && head_is 32 rest) eqn:Hdrop; [exact IH|].
  cbn [contains]. rewrite IH, orb_false_r.
  cbn [json.starts_with].
  pose proof (collapse_spaces_head rest) as Hhead.
  destruct (collapse_spaces rest) as [|d t].
  - now rewrite andb_false_r.
  - cbn [head_is] in Hhead. rewrite andb_true_r.
    rewrite (N.eqb_sym 32 c), (N.eqb_sym 32 d), Hhead. exact Hdrop.
Qed.

Lemma collapse_spaces_starts_with :
  forall s p,
    forallb (fun c => negb (c =? 32)) p = true ->
    json.starts_with p (collapse_spaces s) = true ->
    json.starts_with p s = true.
Proof.
  induction s as [|c rest IH]; intros p Hp H; [exact H|].
  destruct p as [|a p]; [reflexivity|].
  cbn [forallb] in Hp. apply andb_true_iff in Hp. destruct Hp as [Ha Hp].
  cbn [collapse_spaces] in H. fold (head_is 32 rest) in H.
  destruct ((c =? 32) && head_is 32 rest) eqn:Hdrop.
  - apply andb_true_iff in Hdrop. destruct Hdrop as [_ Hrest].
    rewrite <- collapse_spaces_head in Hrest.
    destruct (collapse_spaces rest) as [|d t]; [discriminate|].
    cbn [head_is] in Hrest. cbn [json.starts_with] in H.
    apply andb_true_iff in H. destruct H as [Had _].
    apply N.eqb_eq in Had. apply N.eqb_eq in Hrest. subst.
    rewrite N.eqb_refl in Ha. discriminate.
  - cbn [json.starts_with] in *. apply andb_true_iff in H. destruct H as [Hac H].
    rewrite Hac. now apply IH.
Qed.

Lemma collapse_spaces_keeps_free :
  forall p s,
    forallb (fun c => negb (c =? 32)) p = true ->
    contains p s = false -> contains p (collapse_spaces s) = false.
Proof.
  intros p s Hp. induction s as [|c rest IH]; intros H; [exact H|].
  cbn [contains] in H. apply orb_false_iff in H. destruct H as [Hstart Hrest].
  destruct (contains p (collapse_spaces (c :: rest))) eqn:Hc; [|reflexivity].
  exfalso. cbn [collapse_spaces] in Hc. fold (head_is 32 rest) in Hc.
  destruct ((c =? 32) && head_is 32 rest) eqn:Hdrop.
  - rewrite (IH Hrest) in Hc. discriminate.
  - cbn [contains] in Hc. rewrite (IH Hrest), orb_false_r in Hc.
    assert (Hs : json.starts_with p (collapse_spaces (c :: rest)) = true).
    { cbn [collapse_spaces]. fold (head_is 32 rest). now rewrite Hdrop. }
    rewrite (collapse_spaces_starts_with (c :: rest) p Hp Hs) in Hstart.
    discriminate.
Qed.

(** Blank lines. *)
Lemma span_space_spec :
  forall s ws tail,
    span_space s = (ws, tail) ->
    s = ws ++ tail
    /\ forallb isspace ws = true
    /\ starts_clean tail = true.
Proof.
  induction s as [|c s IH]; intros ws tail H; cbn [span_space] in H.
  - inversion H; subst. now repeat split.
  - destruct (isspace c) eqn:Hc.
    + destruct (span_space s) as [ws0 tail0]. inversion H; subst.
      destruct (IH ws0 tail eq_refl) as (Hs & Hws & Htail).
      repeat split; [cbn [app]; now rewrite <- Hs | | exact Htail].
      cbn [forallb]. now rewrite Hc.
    + inversion H; subst. repeat split. cbn [starts_clean]. now rewrite Hc.
Qed.

Lemma after_last_newline_none :
  forall ws, after_last_newline ws = None -> head_is 10 ws = false.
Proof.
  intros [|c ws] H; [reflexivity|]. cbn [after_last_newline] in H.
  destruct (after_last_newline ws); [discriminate|].
  cbn [head_is]. destruct (c =? 10); [discriminate | reflexivity].
Qed.

Lemma after_last_newline_some :
  forall ws ws',
    after_last_newline ws = Some ws' ->
    (exists before, ws = before ++ 10 :: ws')
    /\ after_last_newline ws' = None.
Proof.
  induction ws as [|c ws IH]; intros ws' H; cbn [after_last_newline] in H;
    [discriminate|].
  destruct (after_last_newline ws) as [t|] eqn:Hws.
  - inversion H; subst. destruct (IH ws' eq_refl) as ([before Hb] & Hnone).
    split; [|exact Hnone]. exists (c :: before). cbn [app]. now rewrite <- Hb.
  - destruct (c =? 10) eqn:Hc; [|discriminate]. inversion H; subst.
    apply N.eqb_eq in Hc. subst c. split; [now exists [] | exact Hws].
Qed.

Lemma head_of_rest :
  forall ws tail,
    head_is 10 ws = false -> starts_clean tail = true ->
    head_is 10 (ws ++ tail) = false.
Proof.
  intros [|c ws] tail Hws Htail; [|exact Hws]. cbn [app].
  destruct tail as [|d tail]; [reflexivity|]. cbn [starts_clean head_is] in *.
  destruct (N.eqb_spec d 10) as [->|]; [discriminate Htail | reflexivity].
Qed.

Lemma collapse_blank_lines_head :
  forall fuel s,
    head_is 10 s = false -> head_is 10 (collapse_blank_lines fuel s) = false.
Proof.
  intros fuel s H. destruct s as [|c rest]; [now destruct fuel|].
  destruct fuel as [|fuel]; [exact H|]. cbn [collapse_blank_lines].
  cbn [head_is] in H. rewrite H. exact H.
Qed.

Lemma contains_cons :
  forall p c s, contains p (c :: s) = json.starts_with p (c :: s) || contains p s.
Proof. reflexivity. Qed.

Lemma newlines_before :
  forall s,
    head_is 10 s = false ->
    contains [10; 10; 10] s = false ->
    contains [10; 10; 10] (10 :: s) = false
    /\ contains [10; 10; 10] (10 :: 10 :: s) = false.
Proof.
  intros s Hhead Hs.
  assert (H1 : contains [10; 10; 10] (10 :: s) = false).
  { rewrite contains_cons, Hs, orb_false_r.
    destruct s as [|d t]; [reflexivity|]. cbn [head_is] in Hhead.
    cbn [json.starts_with]. rewrite (N.eqb_sym 10 d), Hhead. reflexivity. }
  split; [exact H1|].
  rewrite contains_cons, H1, orb_false_r.
  destruct s as [|d t]; [reflexivity|]. cbn [head_is] in Hhead.
  cbn [json.starts_with]. rewrite (N.eqb_sym 10 d), Hhead. reflexivity.
Qed.

Lemma collapse_blank_lines_no_triple :
  forall fuel s,
    (List.length s <= fuel)%nat ->
    contains [10; 10; 10] (collapse_blank_lines fuel s) = false.
Proof.
  induction fuel as [|fuel IH]; intros s Hfuel.
  - destruct s; [reflexivity | cbn [List.length] in Hfuel; lia].
  - destruct s as [|c rest]; [reflexivity|]. cbn [List.length] in Hfuel.
    cbn [collapse_blank_lines].
    destruct (N.eqb_spec c 10) as [->|Hc].
    + destruct (span_space rest) as [ws tail] eqn:Hspan.
      destruct (span_space_spec rest ws tail Hspan) as (Hrest & Hws & Htail).
      destruct (after_last_newline ws) as [ws'|] eqn:Hlast.
      * destruct (after_last_newline_some ws ws' Hlast) as ([before Hb] & Hnone).
        assert (Hlen : (List.length (ws' ++ tail) <= fuel)%nat).
        { assert (List.length rest
                  = (List.length before + 1 + List.length (ws' ++ tail))%nat).
          { rewrite Hrest, Hb. rewrite <- app_assoc. cbn [app].
            rewrite !length_app. cbn [List.length]. rewrite length_app. lia. }
          lia. }
        apply newlines_before; [|now apply IH].
        apply collapse_blank_lines_head, head_of_rest;
          [now apply after_last_newline_none | exact Htail].
      * apply newlines_before; [|apply IH; lia].
        apply collapse_blank_lines_head. rewrite Hrest.
        apply head_of_rest; [now apply after_last_newline_none | exact Htail].
    + rewrite contains_cons, (IH rest ltac:(lia)), orb_false_r.
      cbn [json.starts_with]. apply N.eqb_neq in Hc.
      rewrite (N.eqb_sym 10 c), Hc. reflexivity.
Qed.

End TextFacts.

(** The text [_html_to_text] returns never starts or ends with white
    space, on both of its paths. When the parser accepts the document
    the text has no two spaces in a row and no three newlines in a
    row either: blank lines are at most one deep. *)
Theorem _html_to_text_normal_form :
  forall (feed : str -> result (list email_parser.html_event))
         (re_sub : string -> str -> str -> bool -> str) (html : str),
    let text := email_parser._html_to_text feed re_sub html in
    starts_clean text = true
    /\ starts_clean (rev text) = true
    /\ (forall events,
           feed html = Returned events ->
           email_parser.contains [32; 32]%N text = false
           /\ email_parser.contains [10; 10; 10]%N text = false).
Proof.
  intros feed re_sub html. cbv zeta. unfold email_parser._html_to_text.
  destruct (feed html) as [events|e].
  - unfold email_parser.get_text. repeat split.
    + apply strip_starts_clean.
    + apply strip_ends_clean.
    + apply strip_keeps_free, collapse_spaces_no_double.
    + apply strip_keeps_free, collapse_spaces_keeps_free; [reflexivity|].
      apply collapse_blank_lines_no_triple. lia.
  - repeat split.
    + apply strip_starts_clean.
    + apply strip_ends_clean.
    + discriminate.
    + discriminate.
Qed.

(** ** Headers and [parse] (email_parser.py) *)

(** A header part that [decode_content] settles without raising: a
    text part, or bytes whose decode with the charset of the part
    (UTF-8 when it has none) returns or raises one of the two
    exceptions that are caught. *)
Definition part_settles (cjk : encodings.CJK) (part : email_parser.header_part) : Prop :=
  match part with
  | email_parser.StrPart _ => True
  | email_parser.BytesPart content charset =>
      forall e,
        encodings.bytes_decode cjk content (email_parser.charset_or_utf_8 charset)
        = Raised e ->
        isinstance_any e [UnicodeDecodeError; LookupError] = true
  end.

(** The text of a header part: a text part as it is, bytes as
    [decode_content] returns them for the charset of the part (UTF-8
    when it has none). *)
Definition part_text (cjk : encodings.CJK) (part : email_parser.header_part)
  (text : str) : Prop :=
  match part with
  | email_parser.StrPart s => text = s
  | email_parser.BytesPart content charset =>
      email_parser.decode_content (encodings.bytes_decode cjk) content
                                  (Some (email_parser.charset_or_utf_8 charset))
      = Returned text
  end.

(** [decode_header] for [=?gbk?B?...?= <a@b>]: an encoded word in a
    charset that cannot decode it, and the rest of the header, which
    comes without a charset. *)
Definition decode_two_parts (header_value : str)
  : result (list email_parser.header_part) :=
  Returned [email_parser.BytesPart [xff] (Some (lit "ascii"));
            email_parser.BytesPart (map codecs.byte_of_N (lit " <a@b>")) None].

Section HeaderFacts.

Import email_parser.

Variable cjk : encodings.CJK.

Lemma charset_or_utf_8_not_empty :
  forall charset, exists c cs, charset_or_utf_8 charset = c :: cs.
Proof.
  intros [[|c cs]|]; [now exists 117%N, (lit "tf-8") | now exists c, cs
                      | now exists 117%N, (lit "tf-8")].
Qed.

Lemma decode_content_settles :
  forall content encoding,
    (forall e, encodings.bytes_decode cjk content encoding = Raised e ->
               isinstance_any e [UnicodeDecodeError; LookupError] = true) ->
    exists text,
      decode_content (encodings.bytes_decode cjk) content (Some encoding)
      = Returned text.
Proof.
  intros content encoding Hcaught. unfold decode_content.
  destruct (decode_content_from_cases cjk content (Some encoding))
    as [(-> & Hrun)|[(Hne & enc & r & Hcs & _ & Htry & Hrun)|(Hne & Hrun)]];
    rewrite Hrun.
  - now exists [].
  - injection Hcs as <-. unfold try_decode in Htry.
    destruct (encodings.bytes_decode cjk content encoding) as [text|e] eqn:Hdec.
    + inversion Htry; subst. now exists text.
    + rewrite (Hcaught e eq_refl) in Htry. discriminate.
  - destruct (decode_supported_settles cjk content) as (enc & text & Hloop & _).
    rewrite Hloop. now exists text.
Qed.

Lemma decode_parts_texts :
  forall parts,
    Forall (part_settles cjk) parts ->
    exists texts,
      decode_parts (encodings.bytes_decode cjk) parts = Returned texts
      /\ Forall2 (part_text cjk) parts texts.
Proof.
  induction 1 as [|part parts Hpart _ (texts & Hrest & Htexts)].
  - exists []. split; [reflexivity | constructor].
  - destruct part as [content charset|s]; cbn [decode_parts].
    + destruct (decode_content_settles content (charset_or_utf_8 charset) Hpart)
        as [text Htext].
      rewrite Htext, Hrest. cbn [bind]. exists (text :: texts).
      split; [reflexivity | constructor; [exact Htext | exact Htexts]].
    + rewrite Hrest. cbn [bind]. exists (s :: texts).
      split; [reflexivity | constructor; [reflexivity | exact Htexts]].
Qed.

End HeaderFacts.

(** [_decode_header] returns the empty text for an empty header
    without looking at it. For any other header that [decode_header]
    can split, it returns the texts of the parts in their order, joined
    with nothing between them: a text part as it is, a bytes part as
    [decode_content] returns it for the charset of the part, UTF-8 when
    it has none. This holds whenever no part makes the decoder raise an
    exception it does not catch: an unknown charset and bytes that the
    charset cannot decode are no obstacle. *)
Theorem _decode_header_returns :
  forall (cjk : encodings.CJK)
         (decode_header : str -> result (list email_parser.header_part))
         (header_value : str) (parts : list email_parser.header_part),
    email_parser._decode_header (encodings.bytes_decode cjk) decode_header [] = Returned []
    /\ (header_value <> [] ->
        decode_header header_value = Returned parts ->
        Forall (part_settles cjk) parts ->
        exists texts,
          Forall2 (part_text cjk) parts texts
          /\ email_parser._decode_header (encodings.bytes_decode cjk) decode_header
                                         header_value
             = Returned (concat texts)).
Proof.
  intros cjk decode_header header_value parts. split; [reflexivity|].
  intros Hne Hsplit Hparts. unfold email_parser._decode_header.
  destruct header_value as [|c header_value]; [congruence|].
  rewrite Hsplit. cbn [bind].
  destruct (decode_parts_texts cjk parts Hparts) as (texts & Hrun & Htexts).
  rewrite Hrun. cbn [bind]. now exists texts.
Qed.

Lemma _decode_header_returns_example :
  email_parser._decode_header (encodings.bytes_decode encodings.ascii_range_cjk)
                              decode_two_parts (lit "=?ascii?B?/w==?= <a@b>")
  = Returned (0xFF%N :: lit " <a@b>")
  /\ email_parser.decode_content (encodings.bytes_decode encodings.ascii_range_cjk)
                                 [xff] (Some (lit "ascii"))
     = Returned [0xFF%N]
  /\ exists texts,
      Forall2 (part_text encodings.ascii_range_cjk)
              [email_parser.BytesPart [xff] (Some (lit "ascii"));
               email_parser.BytesPart (map codecs.byte_of_N (lit " <a@b>")) None]
              texts
      /\ email_parser._decode_header (encodings.bytes_decode encodings.ascii_range_cjk)
                                     decode_two_parts (lit "=?ascii?B?/w==?= <a@b>")
         = Returned (concat texts).
Proof.
  split; [vm_compute; reflexivity|].
  split; [vm_compute; reflexivity|].
  apply (proj2 (_decode_header_returns encodings.ascii_range_cjk decode_two_parts
                  (lit "=?ascii?B?/w==?= <a@b>")
                  [email_parser.BytesPart [xff] (Some (lit "ascii"));
                   email_parser.BytesPart (map codecs.byte_of_N (lit " <a@b>")) None])).
  - discriminate.
  - reflexivity.
  - repeat constructor; intros e; vm_compute; intros H; inversion H; reflexivity.
Defined.

(** A message with a date that cannot be parsed. *)
Definition bare_message (raw_email : bytes) : email_parser.parsed :=
  email_parser.mkParsed (lit "Hello") (lit "a@b") (lit "yesterday")
    (email_parser.Message (lit "text/plain") [] None (Some raw_email) None).

Definition split_none (header_value : str) : result (list email_parser.header_part) :=
  Returned [email_parser.StrPart header_value].

Definition date_unparsed (date_str : str) : result str := Raised ValueError.

(** When [parse] returns, the message has the id it was given, the
    two decoded headers and the extracted body; its date is the
    formatted date, or the Date header as it stands when parsing or
    formatting it raised [ValueError] or [TypeError]. Any other
    exception of the date, and any exception of the headers or of the
    body, leaves [parse]. *)
Theorem parse_fields :
  forall (feed : str -> result (list email_parser.html_event))
         (re_sub : string -> str -> str -> bool -> str)
         (bytes_decode : bytes -> str -> result str)
         (decode_header : str -> result (list email_parser.header_part))
         (message_from_bytes : bytes -> email_parser.parsed)
         (format_date : str -> result str)
         (raw_email : bytes) (email_id : str) (email : Email),
    email_parser.parse feed re_sub bytes_decode decode_header message_from_bytes
                       format_date raw_email email_id
    = Returned email ->
    let msg := message_from_bytes raw_email in
    id email = email_id
    /\ email_parser._decode_header bytes_decode decode_header
                                   (email_parser.header_subject msg)
       = Returned (subject email)
    /\ email_parser._decode_header bytes_decode decode_header
                                   (email_parser.header_from msg)
       = Returned (sender email)
    /\ email_parser._extract_body feed re_sub bytes_decode (email_parser.root msg)
       = Returned (body email)
    /\ match format_date (email_parser.header_date msg) with
       | Returned formatted => date email = formatted
       | Raised e =>
           isinstance_any e [ValueError; TypeError] = true
           /\ date email = email_parser.header_date msg
       end.
Proof.
  intros feed re_sub bytes_decode decode_header message_from_bytes format_date
         raw_email email_id email Hparse. cbv zeta.
  unfold email_parser.parse in Hparse.
  destruct (email_parser._decode_header bytes_decode decode_header
              (email_parser.header_subject (message_from_bytes raw_email)))
    as [subject_|e]; [|discriminate].
  destruct (email_parser._decode_header bytes_decode decode_header
              (email_parser.header_from (message_from_bytes raw_email)))
    as [sender_|e]; [|discriminate].
  cbn [bind] in Hparse.
  destruct (format_date (email_parser.header_date (message_from_bytes raw_email)))
    as [formatted|e].
  - cbn [bind] in Hparse.
    destruct (email_parser._extract_body feed re_sub bytes_decode
                (email_parser.root (message_from_bytes raw_email)))
      as [body_|e]; [|discriminate].
    cbn [bind] in Hparse. apply Returned_inj in Hparse. subst email.
    now repeat split.
  - destruct (isinstance_any e [ValueError; TypeError]) eqn:Hcaught;
      [|discriminate].
    cbn [bind] in Hparse.
    destruct (email_parser._extract_body feed re_sub bytes_decode
                (email_parser.root (message_from_bytes raw_email)))
      as [body_|e']; [|discriminate].
    cbn [bind] in Hparse. apply Returned_inj in Hparse. subst email.
    now repeat split.
Qed.

Lemma parse_fields_example :
  email_parser.parse feed_paragraph re_sub_none
                     (encodings.bytes_decode encodings.ascii_range_cjk)
                     split_none bare_message date_unparsed
                     (map codecs.byte_of_N (lit "Hi")) (lit "7")
  = Returned (mkEmail (lit "7") (lit "Hello") (lit "a@b") (lit "yesterday") (lit "Hi"))
  /\ id (mkEmail (lit "7") (lit "Hello") (lit "a@b") (lit "yesterday") (lit "Hi"))
     = lit "7".
Proof.
  assert (H : email_parser.parse feed_paragraph re_sub_none
                (encodings.bytes_decode encodings.ascii_range_cjk)
                split_none bare_message date_unparsed
                (map codecs.byte_of_N (lit "Hi")) (lit "7")
              = Returned (mkEmail (lit "7") (lit "Hello") (lit "a@b")
                                  (lit "yesterday") (lit "Hi")))
    by (vm_compute; reflexivity).
  split; [exact H|].
  exact (proj1 (parse_fields _ _ _ _ _ _ _ _ _ H)).
Defined.

(** ** The configuration (config_manager.py) *)

(** The fields of a configuration under their names. *)
Definition config_fields {V : Type} (config : config_manager.ConfigOf V)
  : list (str * V) :=
  [(lit "email_host", config_manager.email_host config);
   (lit "email_user", config_manager.email_user config);
   (lit "email_password", config_manager.email_password config);
   (lit "dingtalk_webhook", config_manager.dingtalk_webhook config);
   (lit "dingtalk_secret", config_manager.dingtalk_secret config)].

(** The value of an environment variable that is set and not empty. *)
Definition env_value (environ : str -> option str) (env_var : str)
  : option json.value :=
  match environ env_var with
  | Some (c :: value) => Some (json.String (c :: value))
  | _ => None
  end.

(** An environment with the five variables, and a file that holds
    another host. *)
Definition environ_full (name : str) : option str :=
  if encodings.str_eqb name (lit "EMAIL_HOST") then Some (lit "imap.163.com")
  else if encodings.str_eqb name (lit "EMAIL_USER") then Some (lit "me@163.com")
  else if encodings.str_eqb name (lit "EMAIL_PASSWORD") then Some (lit "code")
  else if encodings.str_eqb name (lit "DINGTALK_WEBHOOK")
       then Some (lit "https://oapi.example/robot/send")
  else if encodings.str_eqb name (lit "DINGTALK_SECRET") then Some (lit "SECabc")
  else None.

Definition environ_empty (name : str) : option str := None.

Definition file_exists (path : str) : bool := true.
Definition file_missing (path : str) : bool := false.

Definition read_host_file (path : str) : result str :=
  Returned (lit "{" ++ [34%N] ++ lit "email_host" ++ [34%N] ++ lit ": "
            ++ [34%N] ++ lit "imap.old.example" ++ [34%N] ++ lit "}").


Definition zero_lexeme (lexeme : str) : bool := encodings.str_eqb lexeme (lit "0").

Section EnvFacts.

Import config_manager.

Variable environ : str -> option str.

Lemma str_eqb_eq : forall a b, encodings.str_eqb a b = true <-> a = b.
Proof.
  induction a as [|x a IH]; intros [|y b]; cbn [encodings.str_eqb];
    try (split; [discriminate | discriminate]); [now split|].
  rewrite andb_true_iff, N.eqb_eq, IH. split.
  - now intros [-> ->].
  - intros H. inversion H. now split.
Qed.

Lemma lookup_app :
  forall key a b,
    json.lookup key (a ++ b)
    = match json.lookup key b with
      | Some v => Some v
      | None => json.lookup key a
      end.
Proof.
  intros key a b. induction a as [|[k v] a IH]; cbn [app json.lookup].
  - now destruct (json.lookup key b).
  - rewrite IH. destruct (json.lookup key b); [reflexivity|].
    reflexivity.
Qed.

Lemma lookup_env_items_other :
  forall mapping field,
    ~ In field (map fst mapping) ->
    json.lookup field (env_items environ mapping) = None.
Proof.
  induction mapping as [|[k env_var] mapping IH]; intros field Hnot;
    [reflexivity|].
  cbn [map fst In] in Hnot. cbn [env_items].
  assert (Hrest : json.lookup field (env_items environ mapping) = None)
    by (apply IH; tauto).
  destruct (environ env_var) as [[|c value]|]; try exact Hrest.
  cbn [json.lookup]. rewrite Hrest.
  destruct (encodings.str_eqb k field) eqn:Hk; [|reflexivity].
  apply str_eqb_eq in Hk. tauto.
Qed.

Lemma lookup_env_items :
  forall mapping field env_var,
    NoDup (map fst mapping) ->
    In (field, env_var) mapping ->
    json.lookup field (env_items environ mapping) = env_value environ env_var.
Proof.
  induction mapping as [|[k e] mapping IH]; intros field env_var Hnodup Hin;
    [contradiction|].
  cbn [map fst] in Hnodup. inversion Hnodup as [|? ? Hk Hrest]; subst.
  destruct Hin as [Hhere|Hin].
  - injection Hhere as -> ->. cbn [env_items]. unfold env_value.
    pose proof (lookup_env_items_other mapping field Hk) as Hnone.
    destruct (environ env_var) as [[|c value]|]; try exact Hnone.
    cbn [json.lookup]. rewrite Hnone.
    now rewrite (proj2 (str_eqb_eq field field) eq_refl).
  - cbn [env_items].
    assert (Hne : encodings.str_eqb k field = false).
    { destruct (encodings.str_eqb k field) eqn:Heq; [|reflexivity].
      apply str_eqb_eq in Heq. subst k. exfalso. apply Hk.
      change field with (fst (field, env_var)). now apply in_map. }
    specialize (IH field env_var Hrest Hin).
    destruct (environ e) as [[|c value]|]; try exact IH.
    cbn [json.lookup]. rewrite IH, Hne. now destruct (env_value environ env_var).
Qed.

Lemma env_mapping_distinct : NoDup (map fst ENV_MAPPING).
Proof.
  unfold ENV_MAPPING. cbn [map fst].
  repeat (constructor;
          [cbn [In]; intros H;
           repeat (destruct H as [H|H]; [apply str_eqb_eq in H; discriminate H|]);
           exact H|]).
  constructor.
Qed.

(** The dict [load_config] checks: the pairs of the file, then those
    of the environment, which win. *)
Lemma lookup_config_dict :
  forall file_pairs field env_var,
    In (field, env_var) ENV_MAPPING ->
    json.lookup field (file_pairs ++ _load_from_env environ)
    = match env_value environ env_var with
      | Some v => Some v
      | None => json.lookup field file_pairs
      end.
Proof.
  intros file_pairs field env_var Hin. rewrite lookup_app. unfold _load_from_env.
  now rewrite (lookup_env_items ENV_MAPPING field env_var env_mapping_distinct Hin).
Qed.

End EnvFacts.

Section ConfigFacts.

Import config_manager.

Variable environ : str -> option str.
Variable path_exists : str -> bool.
Variable read_text : str -> result str.
Variable number_is_zero : str -> bool.

Lemma not_missing :
  forall config_dict,
    get_missing_fields number_is_zero config_dict = [] ->
    forall field, In field REQUIRED_FIELDS ->
    exists v, json.lookup field config_dict = Some v
              /\ truthy number_is_zero v = true.
Proof.
  intros config_dict Hnone field Hin. unfold get_missing_fields in Hnone.
  assert (Hall : forall f, In f REQUIRED_FIELDS ->
                           is_missing number_is_zero config_dict f = false).
  { intros f Hf. destruct (is_missing number_is_zero config_dict f) eqn:Hm;
      [|reflexivity].
    assert (In f (filter (is_missing number_is_zero config_dict) REQUIRED_FIELDS))
      by (apply filter_In; now split).
    rewrite Hnone in H. contradiction. }
  specialize (Hall field Hin). unfold is_missing in Hall.
  destruct (json.lookup field config_dict) as [v|]; [|discriminate].
  exists v. split; [reflexivity|]. now destruct (truthy number_is_zero v).
Qed.

(** What [load_config] returns, when it returns. *)
Lemma load_config_returned :
  forall self config,
    load_config environ path_exists read_text number_is_zero self = Returned config ->
    exists file_pairs,
      get_missing_fields number_is_zero (file_pairs ++ _load_from_env environ) = []
      /\ (forall field v,
             In (field, v) (config_fields config) ->
             json.lookup field (file_pairs ++ _load_from_env environ) = Some v)
      /\ match config_path self with
         | Some (c :: path) =>
             if path_exists (c :: path)
             then _load_from_file read_text (c :: path) = Returned (json.Object file_pairs)
             else file_pairs = []
         | _ => file_pairs = []
         end.
Proof.
  intros self config Hload. unfold load_config in Hload.
  set (from_file := match config_path self with
                    | Some (c :: path) =>
                        if path_exists (c :: path)
                        then _load_from_file read_text (c :: path)
                        else Returned (json.Object [])
                    | _ => Returned (json.Object [])
                    end) in Hload.
  destruct from_file as [file_config|e] eqn:Hfile; [|discriminate].
  cbn [bind] in Hload.
  destruct file_config as [ | b | lexeme | s | items | file_pairs];
    try discriminate.
  exists file_pairs.
  destruct (get_missing_fields number_is_zero (file_pairs ++ _load_from_env environ))
    as [|missing more] eqn:Hmissing; [|discriminate].
  split; [reflexivity|]. split.
  - unfold config_value in Hload.
    destruct (json.lookup (lit "email_host") (file_pairs ++ _load_from_env environ))
      as [host|] eqn:H1; [|discriminate]. cbn [bind] in Hload.
    destruct (json.lookup (lit "email_user") (file_pairs ++ _load_from_env environ))
      as [user|] eqn:H2; [|discriminate]. cbn [bind] in Hload.
    destruct (json.lookup (lit "email_password") (file_pairs ++ _load_from_env environ))
      as [password|] eqn:H3; [|discriminate]. cbn [bind] in Hload.
    destruct (json.lookup (lit "dingtalk_webhook") (file_pairs ++ _load_from_env environ))
      as [webhook|] eqn:H4; [|discriminate]. cbn [bind] in Hload.
    destruct (json.lookup (lit "dingtalk_secret") (file_pairs ++ _load_from_env environ))
      as [secret|] eqn:H5; [|discriminate]. cbn [bind] in Hload.
    apply Returned_inj in Hload. subst config.
    intros field v Hin. unfold config_fields in Hin.
    cbn [email_host email_user email_password dingtalk_webhook dingtalk_secret In] in Hin.
    destruct Hin as [H|[H|[H|[H|[H|[]]]]]]; injection H as <- <-; assumption.
  - unfold from_file in Hfile. clear Hload.
    destruct (config_path self) as [[|c path]|].
    + now injection Hfile as <-.
    + destruct (path_exists (c :: path)); [exact Hfile | now injection Hfile as <-].
    + now injection Hfile as <-.
Qed.

End ConfigFacts.

(** Every field of a configuration that [load_config] returns is
    truthy (for a string: not empty), and it is the value of its
    environment variable whenever that variable is set and not empty,
    whatever the file says; otherwise it is what the file holds. *)
Theorem load_config_fields :
  forall (environ : str -> option str) (path_exists : str -> bool)
         (read_text : str -> result str) (number_is_zero : str -> bool)
         (self : config_manager.ConfigManager)
         (config : config_manager.ConfigOf json.value),
    config_manager.load_config environ path_exists read_text number_is_zero self
    = Returned config ->
    forall field env_var,
      In (field, env_var) config_manager.ENV_MAPPING ->
      exists v,
        In (field, v) (config_fields config)
        /\ config_manager.truthy number_is_zero v = true
        /\ match environ env_var with
           | Some (c :: value) => v = json.String (c :: value)
           | _ =>
               exists path file_pairs,
                 config_manager.config_path self = Some path
                 /\ path_exists path = true
                 /\ config_manager._load_from_file read_text path
                    = Returned (json.Object file_pairs)
                 /\ json.lookup field file_pairs = Some v
           end.
Proof.
  intros environ path_exists read_text number_is_zero self config Hload
         field env_var Hin.
  destruct (load_config_returned environ path_exists read_text number_is_zero
              self config Hload) as (file_pairs & Hnone & Hfields & Hfile).
  assert (Hrequired : In field config_manager.REQUIRED_FIELDS).
  { unfold config_manager.ENV_MAPPING in Hin. cbn [In] in Hin.
    unfold config_manager.REQUIRED_FIELDS. cbn [In].
    destruct Hin as [H|[H|[H|[H|[H|[]]]]]]; injection H as <- _; tauto. }
  destruct (not_missing number_is_zero _ Hnone field Hrequired) as (v & Hv & Htruthy).
  exists v.
  assert (Hfield : In (field, v) (config_fields config)).
  { assert (Hsame : forall w, In (field, w) (config_fields config) ->
                              In (field, v) (config_fields config)).
    { intros w Hw. pose proof (Hfields field w Hw) as Hf.
      rewrite Hv in Hf. injection Hf as <-. exact Hw. }
    unfold config_manager.ENV_MAPPING in Hin. cbn [In] in Hin.
    destruct Hin as [H|[H|[H|[H|[H|[]]]]]]; injection H as <- _.
    - apply (Hsame (config_manager.email_host config)). now left.
    - apply (Hsame (config_manager.email_user config)). right. now left.
    - apply (Hsame (config_manager.email_password config)). do 2 right. now left.
    - apply (Hsame (config_manager.dingtalk_webhook config)). do 3 right. now left.
    - apply (Hsame (config_manager.dingtalk_secret config)). do 4 right. now left. }
  split; [exact Hfield|]. split; [exact Htruthy|].
  rewrite (lookup_config_dict environ file_pairs field env_var Hin) in Hv.
  unfold env_value in Hv.
  assert (Hfrom_file :
            json.lookup field file_pairs = Some v ->
            exists path pairs,
              config_manager.config_path self = Some path
              /\ path_exists path = true
              /\ config_manager._load_from_file read_text path
                 = Returned (json.Object pairs)
              /\ json.lookup field pairs = Some v).
  { intros Hlookup.
    destruct (config_manager.config_path self) as [[|c path]|];
      try (subst file_pairs; discriminate Hlookup).
    destruct (path_exists (c :: path)) eqn:Hexists;
      [|subst file_pairs; discriminate Hlookup].
    now exists (c :: path), file_pairs. }
  destruct (environ env_var) as [[|c value]|].
  - now apply Hfrom_file.
  - now injection Hv as <-.
  - now apply Hfrom_file.
Qed.

Lemma load_config_fields_example :
  config_manager.load_config environ_full file_exists read_host_file zero_lexeme
                             (config_manager.mkManager (Some (lit "config.json")))
  = Returned (config_manager.mkConfig
                (json.String (lit "imap.163.com")) (json.String (lit "me@163.com"))
                (json.String (lit "code"))
                (json.String (lit "https://oapi.example/robot/send"))
                (json.String (lit "SECabc")))
  /\ exists v,
      In (lit "email_host", v)
         (config_fields
            (config_manager.mkConfig
               (json.String (lit "imap.163.com")) (json.String (lit "me@163.com"))
               (json.String (lit "code"))
               (json.String (lit "https://oapi.example/robot/send"))
               (json.String (lit "SECabc"))))
      /\ config_manager.truthy zero_lexeme v = true
      /\ v = json.String (lit "imap.163.com").
Proof.
  assert (H : config_manager.load_config environ_full file_exists read_host_file
                zero_lexeme (config_manager.mkManager (Some (lit "config.json")))
              = Returned (config_manager.mkConfig
                            (json.String (lit "imap.163.com"))
                            (json.String (lit "me@163.com"))
                            (json.String (lit "code"))
                            (json.String (lit "https://oapi.example/robot/send"))
                            (json.String (lit "SECabc"))))
    by (vm_compute; reflexivity).
  split; [exact H|].
  exact (load_config_fields environ_full file_exists read_host_file zero_lexeme
           _ _ H (lit "email_host") (lit "EMAIL_HOST") (or_introl eq_refl)).
Defined.

(** Without a file to read (no path, an empty path, or a path at which
    nothing exists, which is passed over in silence) the configuration
    is the environment: [load_config] returns exactly when the five
    variables are set and not empty, with their values, and raises
    [ValueError] otherwise. *)
Theorem load_config_without_file :
  forall (environ : str -> option str) (path_exists : str -> bool)
         (read_text : str -> result str) (number_is_zero : str -> bool)
         (self : config_manager.ConfigManager),
    match config_manager.config_path self with
    | Some (c :: path) => path_exists (c :: path) = false
    | _ => True
    end ->
    config_manager.load_config environ path_exists read_text number_is_zero self
    = match env_value environ (lit "EMAIL_HOST"),
            env_value environ (lit "EMAIL_USER"),
            env_value environ (lit "EMAIL_PASSWORD"),
            env_value environ (lit "DINGTALK_WEBHOOK"),
            env_value environ (lit "DINGTALK_SECRET") with
      | Some host, Some user, Some password, Some webhook, Some secret =>
          Returned (config_manager.mkConfig host user password webhook secret)
      | _, _, _, _, _ => Raised ValueError
      end.
Proof.
  intros environ path_exists read_text number_is_zero self Hpath.
  unfold config_manager.load_config.
  assert (Hfile :
            match config_manager.config_path self with
            | Some (c :: path) =>
                if path_exists (c :: path)
                then config_manager._load_from_file read_text (c :: path)
                else Returned (json.Object [])
            | _ => Returned (json.Object [])
            end = Returned (json.Object [])).
  { destruct (config_manager.config_path self) as [[|c path]|]; try reflexivity.
    now rewrite Hpath. }
  rewrite Hfile. cbn [bind app].
  unfold config_manager._load_from_env, config_manager.ENV_MAPPING, env_value.
  cbn [config_manager.env_items].
  destruct (environ (lit "EMAIL_HOST")) as [[|c1 v1]|];
    destruct (environ (lit "EMAIL_USER")) as [[|c2 v2]|];
    destruct (environ (lit "EMAIL_PASSWORD")) as [[|c3 v3]|];
    destruct (environ (lit "DINGTALK_WEBHOOK")) as [[|c4 v4]|];
    destruct (environ (lit "DINGTALK_SECRET")) as [[|c5 v5]|];
    reflexivity.
Qed.

Lemma load_config_without_file_example :
  config_manager.load_config environ_full file_missing read_host_file zero_lexeme
                             (config_manager.mkManager (Some (lit "nowhere.json")))
  = Returned (config_manager.mkConfig
                (json.String (lit "imap.163.com")) (json.String (lit "me@163.com"))
                (json.String (lit "code"))
                (json.String (lit "https://oapi.example/robot/send"))
                (json.String (lit "SECabc")))
  /\ config_manager.load_config environ_empty file_missing read_host_file zero_lexeme
                                (config_manager.mkManager (Some (lit "nowhere.json")))
     = Raised ValueError.
Proof.
  split.
  - apply (load_config_without_file environ_full file_missing read_host_file
             zero_lexeme (config_manager.mkManager (Some (lit "nowhere.json")))).
    reflexivity.
  - apply (load_config_without_file environ_empty file_missing read_host_file
             zero_lexeme (config_manager.mkManager (Some (lit "nowhere.json")))).
    reflexivity.
Defined.




(** ** [deserialize] on nested arrays (models.py) *)

(** [n] arrays, one inside the other, around a value. *)
Fixpoint nested (n : nat) (v : json.value) : json.value :=
  match n with
  | O => v
  | S n' => json.Array [nested n' v]
  end.

(** The text of [nested n 1]: [n] opening brackets, the digit, [n]
    closing brackets. *)
Definition nested_one (n : nat) : str :=
  repeat 91%N n ++ 49%N :: repeat 93%N n.

Section NestedArrays.

Import json.
Local Open Scope N_scope.



End NestedArrays.


(** The fuel [loads] gives the parser is enough: with any more the
    parser reads the same, so a text that [loads] does not read is not
    read for a reason of syntax. *)
Lemma loads_fuel_enough :
  forall (s : str) (fuel : nat),
    (3 * List.length s + 1 <= fuel)%nat ->
    json.loads s
    = if json.starts_with [0xfeff%N] s then None
      else
        match json.scan_once fuel (json.skip_ws s) with
        | Some (v, rest) =>
            match json.skip_ws rest with
            | [] => Some v
            | _ :: _ => None
            end
        | None => None
        end.
Proof.
  intros s fuel Hfuel. unfold json.loads.
  now rewrite (scan_once_fuel_enough s fuel Hfuel).
Qed.

(** The text of an object with one key, [a], for five arrays around
    the number 1. *)
Definition object_of_nested : str :=
  [123; 34; 97; 34; 58]%N ++ nested_one 5 ++ [125%N].

Lemma loads_nested_examples :
  json.loads (lit "[[1]]") = Some (nested 2 (json.Number (lit "1")))
  /\ json.loads (lit "[[[[1]]]]") = Some (nested 4 (json.Number (lit "1")))
  /\ json.loads (lit "[[], [[], [[1, [2]]]]]")
     = Some (json.Array
               [json.Array [];
                json.Array
                  [json.Array [];
                   json.Array
                     [json.Array [json.Number (lit "1");
                                  json.Array [json.Number (lit "2")]]]]])
  /\ json.loads object_of_nested
     = Some (json.Object [(lit "a", nested 5 (json.Number (lit "1")))]).
Proof. repeat split; vm_compute; reflexivity. Qed.

